(** * The Fastbuild generator: readiness ledger, scheduler and name helpers

    A shallow embedding of the dependency-ordered emission engine of
    [cmGlobalFastbuildGenerator.cxx] and of the per-target generator of
    [cmFastbuildNormalTargetGenerator.cxx], with the properties the
    specification states about them.

    Conventions.
    - [std::string] is [string]; positions returned by [find]/[rfind] are
      [option nat], [None] standing for [std::string::npos].
    - [std::map<std::string, T>] is a [gmap string T]; a range-for over the
      map visits the keys in increasing (byte-wise lexicographic) order.
    - [int] counters are [Z]; the counters of the ledger stay within the
      length of a dependency list, far from the limits of [int].
    - where the source keeps a position in an [int], the position is
      converted as the compiler does: an [int] has 32 bits and a
      [size_t] 64 ([int_of_size_t], [size_t_of_int]).
    - functions that mutate the generator take the state and return it. *)

From Stdlib Require Import String Ascii ZArith Lia Bool.
From stdpp Require Import gmap strings list sorting pretty.

#[local] Set Warnings "-clear-no-such-hyp".

Local Open Scope string_scope.
Local Open Scope list_scope.
Local Open Scope Z_scope.

(** * Part I: the program *)

(** ** [std::string] primitives *)

(** The double quote and the backslash, given by their codes. *)
Definition dquote : ascii := ascii_of_nat 34.
Definition backslash : ascii := ascii_of_nat 92.
Definition slash : ascii := "/"%char.
Definition dot : ascii := "."%char.
Definition dash : ascii := "-"%char.

(** [s.find(c)] *)
Fixpoint find_char (c : ascii) (s : string) : option nat :=
  match s with
  | EmptyString => None
  | String a s' =>
      if Ascii.eqb a c then Some 0%nat else S <$> find_char c s'
  end.

(** [s.rfind(c)] *)
Fixpoint rfind_char (c : ascii) (s : string) : option nat :=
  match s with
  | EmptyString => None
  | String a s' =>
      match rfind_char c s' with
      | Some i => Some (S i)
      | None => if Ascii.eqb a c then Some 0%nat else None
      end
  end.

(** [s.substr(pos)], for [pos <= s.size()] (beyond that the C++ call
    throws; no caller in this development gets there). *)
Fixpoint substr_from (pos : nat) (s : string) : string :=
  match pos, s with
  | O, _ => s
  | S p, String _ s' => substr_from p s'
  | S _, EmptyString => EmptyString
  end.

(** [s.substr(0, n)] *)
Fixpoint str_take (n : nat) (s : string) : string :=
  match n, s with
  | O, _ => EmptyString
  | S n', String a s' => String a (str_take n' s')
  | S _, EmptyString => EmptyString
  end.

(** [s.substr(pos, n)] *)
Definition substr (pos n : nat) (s : string) : string :=
  str_take n (substr_from pos s).

(** [s.find(pat)] for a string pattern. *)
Fixpoint find_str (pat s : string) : option nat :=
  if String.prefix pat s then Some 0%nat
  else match s with
       | EmptyString => None
       | String _ s' => S <$> find_str pat s'
       end.

(** [s.replace(pos, 1, "")] *)
Definition erase_at (pos : nat) (s : string) : string :=
  str_take pos s +:+ substr_from (S pos) s.

Definition str_empty (s : string) : bool :=
  match s with EmptyString => true | _ => false end.

(** ** Positions kept in an [int]

    [std::string::npos] and the value of type [size_t] that [find]
    returns; the conversion of a [size_t] to an [int], which keeps the
    low 32 bits, and of an [int] to a [size_t], as a comparison with
    [npos] or a call of [substr] or [replace] makes it. *)
Definition npos : Z := 2 ^ 64 - 1.

Definition size_t_of_find (r : option nat) : Z :=
  match r with
  | Some i => Z.of_nat i
  | None => npos
  end.

Definition int_of_size_t (n : Z) : Z := (n + 2 ^ 31) mod 2 ^ 32 - 2 ^ 31.

Definition size_t_of_int (i : Z) : Z := i mod 2 ^ 64.

(** [s.substr(0, count)] for a count of type [size_t]: no more than the
    characters of [s] are taken. *)
Definition substr_count (count : Z) (s : string) : string :=
  str_take (Z.to_nat (Z.min count (Z.of_nat (String.length s)))) s.

Definition has_char (c : ascii) (s : string) : bool :=
  match find_char c s with Some _ => true | None => false end.

(** ** Ordered containers

    Iterating a [std::map] or [std::set] of strings yields the keys in
    increasing order. *)
Definition sorted_keys (X : gset string) : list string :=
  merge_sort String.le (elements X).

(** ** Name and path helpers of [cmFastbuildNormalTargetGenerator] *)

(** The start of the last path component, as both [GetNameFile] and
    [GetNameTargetLibrary] compute it from the two [rfind] results. *)
Definition component_start (namePathFile : string) : nat :=
  let found1 := rfind_char slash namePathFile in
  let found2 := rfind_char backslash namePathFile in
  match found1, found2 with
  | Some f1, None => (f1 + 1)%nat
  | None, Some f2 => (f2 + 1)%nat
  | Some f1, Some f2 => if (f1 <? f2)%nat then f2 else f1
  | None, None => 0%nat
  end.

Definition GetNameFile (namePathFile : string) : string :=
  let found := component_start namePathFile in
  let nameFile := substr_from found namePathFile in
  match find_char dot nameFile with
  | Some found_point => substr 0 found_point nameFile
  | None => nameFile
  end.

Definition GetNameTargetLibrary
    (namePathFile : string) (isMultiConfig : bool) (config : string) : string :=
  let found := component_start namePathFile in
  let nameFile := substr_from found namePathFile in
  let with_config (nameTarget : string) :=
    if isMultiConfig then nameTarget +:+ "_" +:+ config else nameTarget in
  match rfind_char dot nameFile with
  | Some found_point =>
      let nameTarget := substr 0 found_point nameFile in
      if String.eqb (substr found_point 4 nameFile) ".lib"
         || String.eqb (substr found_point 2 nameFile) ".a"
      then with_config (nameTarget +:+ "_lib")
      else if find_str ".so" nameFile is Some _
      then with_config (nameTarget +:+ "_dll")
      else if String.eqb (substr found_point 9 nameFile) ".manifest"
      then EmptyString
      else with_config nameTarget
  | None => with_config EmptyString
  end.

Definition RemoveDuplicateName (listName : list string) : list string :=
  sorted_keys (list_to_set listName).

Definition GetPath (fullPath : string) : string :=
  match rfind_char slash fullPath with
  | Some found => substr 0 (found + 1) fullPath
  | None => EmptyString
  end.

(** The loop erases one backslash per round, so it runs at most
    [str.size()] times.  The position is exact here, as it is in the
    source for a string shorter than [2^31] characters;
    [RemoveBackslashBeforeDoubleRib_int] below keeps it in an [int] as
    the source does, for strings of any length. *)
Fixpoint RemoveBackslash_loop (rounds : nat) (str : string) : string :=
  match rounds with
  | O => str
  | S rounds' =>
      match find_str (String backslash (String dquote EmptyString)) str with
      | Some found => RemoveBackslash_loop rounds' (erase_at found str)
      | None => str
      end
  end.

Definition RemoveBackslashBeforeDoubleRib (str : string) : string :=
  RemoveBackslash_loop (String.length str) str.

(** Every ['-'] becomes ["__"]; the replacement holds no dash, so the
    [find]/[replace] loop of the source is one left-to-right pass. *)
Fixpoint ReplaceDashWithUnderscores (str : string) : string :=
  match str with
  | EmptyString => EmptyString
  | String a s' =>
      if Ascii.eqb a dash then "__" +:+ ReplaceDashWithUnderscores s'
      else String a (ReplaceDashWithUnderscores s')
  end.

Definition is_gcc_or_clang (compilerId : string) : bool :=
  String.eqb compilerId "GNU" || String.eqb compilerId "Clang".

(** [cmGlobalFastbuildGenerator::Quote] *)
Definition Quote (quotation str : string) : string :=
  if str_empty str then EmptyString else quotation +:+ str +:+ quotation.

(** ** Data model *)

Inductive TargetType : Type :=
  | EXECUTABLE
  | STATIC_LIBRARY
  | SHARED_LIBRARY
  | MODULE_LIBRARY
  | OBJECT_LIBRARY
  | UTILITY
  | GLOBAL_TARGET
  | INTERFACE_LIBRARY
  | UNKNOWN_LIBRARY.

(** What the generator asks of a [cmGeneratorTarget].  The queries that
    take a configuration are functions of it; [GetLinkFiles] and
    [GetCompilerId] are asked for the linker language of that
    configuration.  [GetLinkFiles] stands for what [ComputeLinkDeps]
    gathers from the target once its test of the type is passed: the
    depends of the link information, the sources of the module
    definition, the manifests and the link depends of the user, as
    paths for Fastbuild. *)
Record cmGeneratorTarget : Type := {
  GetName : string;
  GetType : TargetType;
  GetLinkerLanguage : string -> string;
  GetFullName : string -> string;
  GetLinkFiles : string -> list string;
  GetCompilerId : string -> string
}.

(** [cmFastbuildTargetGenerator::ComputeLinkDeps]: a static library and
    an object library never depend on other targets for linking, unless
    the caller asks to ignore the type; no caller modelled here does
    ([ignoreType] is [false] by default). *)
Definition ComputeLinkDeps (t : cmGeneratorTarget) (cfg : string)
    (ignoreType : bool) : list string :=
  if negb ignoreType
     && match GetType t with
        | STATIC_LIBRARY | OBJECT_LIBRARY => true
        | _ => false
        end
  then []
  else GetLinkFiles t cfg.

(** The ledger entry.  Its declaration is in a header that is not part of
    the sources at hand; the fields are those the code reads and
    writes. *)
Record cmFastbuildInfoTarget : Type := {
  is_treated : bool;
  config : string;
  name_target_deps : list string;
  number_untrated_deps : Z;
  gt : cmGeneratorTarget
}.

Record TargetAliasFB : Type := {
  Config : string;
  ListDeps : string;
  ExcludeFromAll : bool
}.

(** Marks left in the log by [WriteTargetFB]: on entry, and once all the
    blocks of the target are written, just before it hands over to
    [TargetTreatedFinish]. *)
Inductive event : Type :=
  | EvBegin (target_name : string)
  | EvWritten (target_name : string).

#[global] Instance event_eq_dec : EqDecision event.
Proof. solve_decision. Defined.

(** The state of [cmGlobalFastbuildGenerator] the scheduler works on. *)
Record generator : Type := {
  MapFastbuildInfoTargets : gmap string cmFastbuildInfoTarget;
  TargetAliasesFB : gmap string TargetAliasFB;
  TargetAliasesOrderedFB : list string;
  IsMultiConfig : bool;
  GetDefaultFileConfig : string;
  errors : list string;
  trace : list event
}.

Definition set_ledger
    (m : gmap string cmFastbuildInfoTarget) (g : generator) : generator :=
  {| MapFastbuildInfoTargets := m;
     TargetAliasesFB := TargetAliasesFB g;
     TargetAliasesOrderedFB := TargetAliasesOrderedFB g;
     IsMultiConfig := IsMultiConfig g;
     GetDefaultFileConfig := GetDefaultFileConfig g;
     errors := errors g;
     trace := trace g |}.

Definition set_aliases
    (a : gmap string TargetAliasFB) (o : list string) (g : generator)
    : generator :=
  {| MapFastbuildInfoTargets := MapFastbuildInfoTargets g;
     TargetAliasesFB := a;
     TargetAliasesOrderedFB := o;
     IsMultiConfig := IsMultiConfig g;
     GetDefaultFileConfig := GetDefaultFileConfig g;
     errors := errors g;
     trace := trace g |}.

Definition set_errors (e : list string) (g : generator) : generator :=
  {| MapFastbuildInfoTargets := MapFastbuildInfoTargets g;
     TargetAliasesFB := TargetAliasesFB g;
     TargetAliasesOrderedFB := TargetAliasesOrderedFB g;
     IsMultiConfig := IsMultiConfig g;
     GetDefaultFileConfig := GetDefaultFileConfig g;
     errors := e;
     trace := trace g |}.

Definition log (ev : event) (g : generator) : generator :=
  {| MapFastbuildInfoTargets := MapFastbuildInfoTargets g;
     TargetAliasesFB := TargetAliasesFB g;
     TargetAliasesOrderedFB := TargetAliasesOrderedFB g;
     IsMultiConfig := IsMultiConfig g;
     GetDefaultFileConfig := GetDefaultFileConfig g;
     errors := errors g;
     trace := trace g ++ [ev] |}.

(** [cmSystemTools::Error] *)
Definition Error (msg : string) (g : generator) : generator :=
  set_errors (errors g ++ [msg]) g.

Definition new_generator (isMultiConfig : bool) (defaultConfig : string)
    : generator :=
  {| MapFastbuildInfoTargets := ∅;
     TargetAliasesFB := ∅;
     TargetAliasesOrderedFB := [];
     IsMultiConfig := isMultiConfig;
     GetDefaultFileConfig := defaultConfig;
     errors := [];
     trace := [] |}.

Definition TargetLinkLanguage (t : cmGeneratorTarget) (cfg : string)
    : string :=
  GetLinkerLanguage t cfg.

Definition GetTargetName (t : cmGeneratorTarget) : string := GetName t.

(** The ledger key, [cmStrCat(gt->GetName(), config)]. *)
Definition target_key (t : cmGeneratorTarget) (cfg : string) : string :=
  GetName t +:+ cfg.

Definition GetNameDepsTargets (t : cmGeneratorTarget) (cfg : string)
    : list string :=
  RemoveDuplicateName
    ((fun depPath => GetNameFile depPath +:+ cfg)
       <$> ComputeLinkDeps t cfg false).

(** [int found = full_name.find(".")]: the position of the first dot as
    the [int] holds it. *)
Definition GetShortOutputName (t : cmGeneratorTarget) (cfg : string)
    : string :=
  let full_name := GetFullName t cfg in
  let found := int_of_size_t (size_t_of_find (find_char dot full_name)) in
  let output_name :=
    if negb (size_t_of_int found =? npos)
    then substr_count (size_t_of_int found) full_name
    else full_name in
  ReplaceDashWithUnderscores output_name.

Definition set_is_treated (b : bool) (e : cmFastbuildInfoTarget)
    : cmFastbuildInfoTarget :=
  {| is_treated := b;
     config := config e;
     name_target_deps := name_target_deps e;
     number_untrated_deps := number_untrated_deps e;
     gt := gt e |}.

Definition set_number_untrated_deps (n : Z) (e : cmFastbuildInfoTarget)
    : cmFastbuildInfoTarget :=
  {| is_treated := is_treated e;
     config := config e;
     name_target_deps := name_target_deps e;
     number_untrated_deps := n;
     gt := gt e |}.

(** [number_untrated_deps--] *)
Definition decrement (e : cmFastbuildInfoTarget) : cmFastbuildInfoTarget :=
  set_number_untrated_deps (number_untrated_deps e - 1) e.

(** Sequencing of a loop body that may run out of recursion budget. *)
Fixpoint for_each {A S : Type} (body : S -> A -> option S)
    (l : list A) (s : S) : option S :=
  match l with
  | [] => Some s
  | x :: l' =>
      match body s x with
      | Some s' => for_each body l' s'
      | None => None
      end
  end.

(** ** The ledger and the scheduler ([cmGlobalFastbuildGenerator]) *)

Section Scheduler.

(** [fresh] is the value-initialised entry that
    [MapFastbuildInfoTargets[key]] creates when [key] has none, and
    [quotation] the default second argument of [Quote]; both come from
    the header of the class, which is not part of the sources at hand. *)
Variable fresh : cmFastbuildInfoTarget.
Variable quotation : string.

(** The entry [m[k]] denotes, and the map after evaluating [m[k]]. *)
Definition map_at (k : string) (m : gmap string cmFastbuildInfoTarget)
    : cmFastbuildInfoTarget :=
  default fresh (m !! k).

Definition map_touch (k : string) (m : gmap string cmFastbuildInfoTarget)
    : gmap string cmFastbuildInfoTarget :=
  match m !! k with
  | Some _ => m
  | None => <[k := fresh]> m
  end.

(** [m[k].field = ...] and [m[k].field--] *)
Definition map_set (f : cmFastbuildInfoTarget -> cmFastbuildInfoTarget)
    (k : string) (m : gmap string cmFastbuildInfoTarget)
    : gmap string cmFastbuildInfoTarget :=
  <[k := f (map_at k m)]> m.

Definition GetNumberUntratedDepsTarget
    (m : gmap string cmFastbuildInfoTarget)
    (target_name : string) (name_target_deps : list string) : Z :=
  foldl
    (fun numberDepsTarget name_target =>
       if decide (name_target = target_name) then numberDepsTarget
       else match m !! name_target with
            | Some e =>
                if is_treated e then numberDepsTarget
                else numberDepsTarget + 1
            | None => numberDepsTarget + 1
            end)
    0 name_target_deps.

Definition AddFastbuildInfoTarget (t : cmGeneratorTarget)
    (name_target_deps : list string) (cfg : string)
    (m : gmap string cmFastbuildInfoTarget)
    : gmap string cmFastbuildInfoTarget :=
  let target_name := target_key t cfg in
  match m !! target_name with
  | None =>
      let fbt :=
        {| is_treated := false;
           config := cfg;
           name_target_deps := name_target_deps;
           number_untrated_deps :=
             GetNumberUntratedDepsTarget m target_name name_target_deps;
           gt := t |} in
      <[target_name := fbt]> m
  | Some _ => m
  end.

(** The result of the query and the map it leaves: both operands of the
    disjunction start with [MapFastbuildInfoTargets[target_name]]. *)
Definition CanTreatTargetFB (t : cmGeneratorTarget) (cfg : string)
    (m : gmap string cmFastbuildInfoTarget)
    : bool * gmap string cmFastbuildInfoTarget :=
  let target_name := target_key t cfg in
  let e := map_at target_name m in
  (negb ((0 <? number_untrated_deps e) || is_treated e),
   map_touch target_name m).

Definition DecrementNbDepsTargetUnexist
    (m : gmap string cmFastbuildInfoTarget)
    : gmap string cmFastbuildInfoTarget :=
  foldl
    (fun m k =>
       match m !! k with
       | Some fit =>
           if is_treated fit then m
           else
             foldl
               (fun m name_target_dep =>
                  match m !! name_target_dep with
                  | None => map_set decrement k m
                  | Some _ => m
                  end)
               m (name_target_deps fit)
       | None => m
       end)
    m (sorted_keys (dom m)).

(** *** Alias records *)

Definition AddTargetAliasFB (alias listDeps cfg : string)
    (excludeFromAll : bool) (g : generator) : generator :=
  match TargetAliasesFB g !! alias with
  | None =>
      let ta :=
        {| Config := cfg; ListDeps := listDeps;
           ExcludeFromAll := excludeFromAll |} in
      set_aliases (<[alias := ta]> (TargetAliasesFB g))
                  (TargetAliasesOrderedFB g ++ [alias]) g
  | Some _ => g
  end.

(** *** Library names of a target *)

Definition strip_lib (name : string) : string :=
  if String.eqb (substr 0 3 name) "lib" then substr_from 3 name else name.

(** One round of the loop of [GetNameTargetLibraries]: the name pushed
    for [implicitDep], if any. *)
Definition library_name_of (m : gmap string cmFastbuildInfoTarget)
    (compilerId : string) (isMultiConfig : bool) (cfg : string)
    (implicitDep : string) : option string :=
  let nameTarget := GetNameTargetLibrary implicitDep isMultiConfig cfg in
  let nameInfoTargetGFB := GetNameFile implicitDep +:+ cfg in
  let nameTarget :=
    if is_gcc_or_clang compilerId then strip_lib nameTarget
    else nameTarget in
  let nameInfoTargetGFB :=
    if is_gcc_or_clang compilerId then strip_lib nameInfoTargetGFB
    else nameInfoTargetGFB in
  if negb (str_empty nameTarget)
     && bool_decide (is_Some (m !! nameInfoTargetGFB))
  then Some nameTarget else None.

Definition GetNameTargetLibraries (g : generator) (t : cmGeneratorTarget)
    (isMultiConfig : bool) (cfg : string) : list string :=
  let compilerId := GetCompilerId t cfg in
  let listImplicitDeps :=
    omap (library_name_of (MapFastbuildInfoTargets g) compilerId
            isMultiConfig cfg)
         (ComputeLinkDeps t cfg false) in
  RemoveDuplicateName listImplicitDeps.

(** *** The final blocks of a target, as far as they record aliases *)

Definition concat_quoted (suffix : string) (names : list string) : string :=
  foldl (fun acc name => acc +:+ Quote quotation (name +:+ suffix))
        EmptyString names.

Definition WriteExecutableFB (t : cmGeneratorTarget) (cfg : string)
    (g : generator) : generator :=
  let isMultiConfig := IsMultiConfig g in
  let compilerId := GetCompilerId t cfg in
  let target_name := GetTargetName t in
  let short_name := GetShortOutputName t cfg in
  let executable_name :=
    if isMultiConfig then short_name +:+ "_exe_" +:+ cfg
    else short_name +:+ "_exe" in
  let alias_name :=
    if isMultiConfig then short_name +:+ "_exe_" +:+ cfg +:+ "_deps"
    else short_name +:+ "_exe_deps" in
  let implicitDeps := GetNameTargetLibraries g t isMultiConfig cfg in
  let listImplicitDepsAlias :=
    concat_quoted "_deps" (filter (fun d => d <> EmptyString) implicitDeps) in
  let listDeps := listImplicitDepsAlias +:+ Quote quotation executable_name in
  let g1 := AddTargetAliasFB (Quote quotation alias_name) listDeps cfg false g in
  if (String.eqb compilerId "MSVC" && negb isMultiConfig)
     || (isMultiConfig && String.eqb (GetDefaultFileConfig g) cfg)
  then AddTargetAliasFB (Quote quotation target_name)
                        (Quote quotation executable_name) cfg true g1
  else g1.

Definition WriteLibraryFB (t : cmGeneratorTarget) (cfg : string)
    (g : generator) : generator :=
  let isMultiConfig := IsMultiConfig g in
  let short_name := GetShortOutputName t cfg in
  let suffix_lib :=
    match GetType t with STATIC_LIBRARY => "lib" | _ => "slib" end in
  let library_name :=
    if isMultiConfig then short_name +:+ "_" +:+ suffix_lib +:+ "_" +:+ cfg
    else short_name +:+ "_" +:+ suffix_lib in
  let alias_name :=
    if isMultiConfig
    then short_name +:+ "_" +:+ suffix_lib +:+ "_" +:+ cfg +:+ "_deps"
    else short_name +:+ "_" +:+ suffix_lib +:+ "_deps" in
  match GetType t with
  | STATIC_LIBRARY =>
      let implicitDeps := GetNameTargetLibraries g t isMultiConfig cfg in
      let listDeps :=
        concat_quoted EmptyString implicitDeps
        +:+ Quote quotation library_name in
      AddTargetAliasFB (Quote quotation alias_name) listDeps cfg false g
  | _ => g
  end.

Definition WriteDLLFB (t : cmGeneratorTarget) (cfg : string)
    (g : generator) : generator :=
  let isMultiConfig := IsMultiConfig g in
  let short_name := GetShortOutputName t cfg in
  let dll_name :=
    if isMultiConfig then short_name +:+ "_lib_" +:+ cfg
    else short_name +:+ "_lib" in
  let alias_name :=
    if isMultiConfig then short_name +:+ "_lib_" +:+ cfg +:+ "_deps"
    else short_name +:+ "_lib-deps" in
  let g1 := WriteLibraryFB t cfg g in
  let implicitDeps := GetNameTargetLibraries g1 t isMultiConfig cfg in
  let listDeps :=
    concat_quoted EmptyString implicitDeps +:+ Quote quotation dll_name in
  AddTargetAliasFB (Quote quotation alias_name) listDeps cfg false g1.

(** The alias [WriteObjectListsFB] records for an object library. *)
Definition WriteObjectListsFB_alias (t : cmGeneratorTarget) (cfg : string)
    (isObjectLibrary : bool) (g : generator) : generator :=
  let short_name := GetShortOutputName t cfg in
  let objectList_name :=
    if IsMultiConfig g then short_name +:+ "_obj_" +:+ cfg
    else short_name +:+ "_obj" in
  if isObjectLibrary
  then AddTargetAliasFB (Quote quotation (objectList_name +:+ "_deps"))
                        (Quote quotation objectList_name) cfg false g
  else g.

(** The branch chain of [WriteTargetFB] on the target type. *)
Definition WriteTargetBlocksFB (t : cmGeneratorTarget) (cfg : string)
    (g : generator) : generator :=
  match GetType t with
  | EXECUTABLE =>
      WriteExecutableFB t cfg (WriteObjectListsFB_alias t cfg false g)
  | STATIC_LIBRARY =>
      WriteLibraryFB t cfg (WriteObjectListsFB_alias t cfg false g)
  | SHARED_LIBRARY | MODULE_LIBRARY =>
      WriteDLLFB t cfg (WriteObjectListsFB_alias t cfg false g)
  | OBJECT_LIBRARY => WriteObjectListsFB_alias t cfg true g
  | _ => g
  end.

(** *** The mutually recursive generation

    [Generate] calls [WriteTargetFB], which ends in [TargetTreatedFinish],
    which calls [Generate] on every entry that became ready.  The bodies
    below take the recursive call as [Gen]; [Generate] ties the knot with
    a bound on the depth of the recursion.

    A range-for over [MapFastbuildInfoTargets] is a loop over the keys
    that the map has when the loop starts, reading for each key the entry
    the map has by then ([auto fit] copies it).  For the ledgers the
    generator builds no key appears or disappears while such a loop runs
    (lemma [Generate_dom] below). *)

Definition TargetTreatedFinish_step
    (Gen : cmGeneratorTarget -> string -> generator -> option generator)
    (target_name : string) (g : generator) (k : string)
    : option generator :=
  match MapFastbuildInfoTargets g !! k with
  | Some fit =>
      let m1 :=
        foldl
          (fun m name_target_dep =>
             if decide (target_name = name_target_dep)
             then map_set decrement k m else m)
          (MapFastbuildInfoTargets g) (name_target_deps fit) in
      let '(canTreat, m2) := CanTreatTargetFB (gt fit) (config (map_at k m1)) m1 in
      if canTreat
      then Gen (gt (map_at k m2)) (config (map_at k m2)) (set_ledger m2 g)
      else Some (set_ledger m2 g)
  | None => Some g
  end.

Definition TargetTreatedFinish
    (Gen : cmGeneratorTarget -> string -> generator -> option generator)
    (t : cmGeneratorTarget) (cfg : string) (g : generator)
    : option generator :=
  let target_name := target_key t cfg in
  let g1 :=
    set_ledger
      (map_set (set_is_treated true) target_name (MapFastbuildInfoTargets g))
      g in
  for_each (TargetTreatedFinish_step Gen target_name)
           (sorted_keys (dom (MapFastbuildInfoTargets g1))) g1.

Definition WriteTargetFB
    (Gen : cmGeneratorTarget -> string -> generator -> option generator)
    (t : cmGeneratorTarget) (cfg : string) (g : generator)
    : option generator :=
  let g1 := log (EvBegin (target_key t cfg)) g in
  let g2 := WriteTargetBlocksFB t cfg g1 in
  let g3 := log (EvWritten (target_key t cfg)) g2 in
  TargetTreatedFinish Gen t cfg g3.

(** Between the test of the link language and the Fastbuild part,
    [Generate] writes the rules and the build statements it inherits
    from the Ninja generator (lines 73 to 108); they go to the build
    file and touch neither the ledger, nor the alias table, nor the
    error list, nor the log of [WriteTargetFB], and are not part of the
    state modelled here. *)
Definition Generate_body
    (Gen : cmGeneratorTarget -> string -> generator -> option generator)
    (t : cmGeneratorTarget) (cfg : string) (g : generator)
    : option generator :=
  if str_empty (TargetLinkLanguage t cfg)
  then Some (Error ("CMake can not determine linker language for target: "
                    +:+ GetName t) g)
  else
    let g1 :=
      set_ledger
        (AddFastbuildInfoTarget t (GetNameDepsTargets t cfg) cfg
           (MapFastbuildInfoTargets g)) g in
    let '(canTreat, m2) := CanTreatTargetFB t cfg (MapFastbuildInfoTargets g1) in
    let g2 := set_ledger m2 g1 in
    if canTreat then WriteTargetFB Gen t cfg g2 else Some g2.

(** [Generate depth] answers [None] when the recursion would go deeper
    than [depth]. *)
Fixpoint Generate (depth : nat) (t : cmGeneratorTarget) (cfg : string)
    (g : generator) : option generator :=
  match depth with
  | O => None
  | S depth' => Generate_body (Generate depth') t cfg g
  end.

Definition lastChanceToTreatTargets_step
    (Gen : cmGeneratorTarget -> string -> generator -> option generator)
    (g : generator) (k : string) : option generator :=
  match MapFastbuildInfoTargets g !! k with
  | Some fit =>
      if is_treated fit then Some g
      else
        let '(canTreat, m2) :=
          CanTreatTargetFB (gt fit) (config fit) (MapFastbuildInfoTargets g) in
        if canTreat
        then Gen (gt (map_at k m2)) (config (map_at k m2)) (set_ledger m2 g)
        else Some (set_ledger m2 g)
  | None => Some g
  end.

Definition lastChanceToTreatTargets
    (Gen : cmGeneratorTarget -> string -> generator -> option generator)
    (g : generator) : option generator :=
  let g1 :=
    set_ledger (DecrementNbDepsTargetUnexist (MapFastbuildInfoTargets g)) g in
  for_each (lastChanceToTreatTargets_step Gen)
           (sorted_keys (dom (MapFastbuildInfoTargets g1))) g1.

(** *** A generation pass

    Every nested [Generate] marks one more entry as treated before it
    recurses, so the number of entries bounds the depth. *)
Definition depth_for (g : generator) : nat :=
  S (S (size (MapFastbuildInfoTargets g))).

(** The per-target visit made by the global driver. *)
Definition GenerateTarget (g : generator)
    (tc : cmGeneratorTarget * string) : option generator :=
  Generate (depth_for g) tc.1 tc.2 g.

(** Modelled from the spec: the driver [cmGlobalGenerator::Generate()],
    which [cmGlobalFastbuildGenerator::Generate] calls before
    [lastChanceToTreatTargets], is not part of the sources at hand.  By
    the specification the targets are visited one after the other, each
    visit ending in [Generate] of the target for a configuration; the
    order of the visits is the list [visits]. *)
Definition GenerateTargets (visits : list (cmGeneratorTarget * string))
    (g : generator) : option generator :=
  for_each GenerateTarget visits g.

Definition GlobalGenerate (visits : list (cmGeneratorTarget * string))
    (g : generator) : option generator :=
  match GenerateTargets visits g with
  | Some g1 => lastChanceToTreatTargets (Generate (depth_for g1)) g1
  | None => None
  end.

End Scheduler.

(** ** Object lists ([WriteObjectListsFB]) *)

Record cmSourceFile : Type := {
  GetFullPath : string;
  GetExtension : string
}.

(** The arguments of one call of [WriteObjectListFB]. *)
Record ObjectListFB : Type := {
  under_objectList_name : string;
  CompilerInputFiles : list string;
  ol_compilerOptions : string;
  ol_output_path : string;
  SourceFileExtension : string
}.

(** The locals of [WriteObjectListsFB] that its loop updates, and the
    calls of [WriteObjectListFB] made so far. *)
Record ObjectListsLoop : Type := {
  compilerOptions : string;
  output_object_path : string;
  extension : string;
  objectList : list string;
  nbObjectList : Z;
  nbSourceFile : nat;
  written : list ObjectListFB
}.

Section ObjectLists.

(** The upstream queries, for the language and the configuration of the
    call, the compiler of the target and the name its object lists are
    numbered under. *)
Variable ComputeFlagsForObject : cmSourceFile -> string.
Variable ComputeDefines : cmSourceFile -> string.
Variable ComputeIncludes : cmSourceFile -> string.
Variable compilerId : string.
Variable objectList_name : string.

(** The options string built for a source, at both places of the
    function. *)
Definition compile_options (sf : cmSourceFile) : string :=
  let defines := " " +:+ ComputeDefines sf +:+ " " in
  let defines :=
    if is_gcc_or_clang compilerId
    then RemoveBackslashBeforeDoubleRib defines else defines in
  ComputeFlagsForObject sf +:+ defines +:+ ComputeIncludes sf.

Definition numbered_name (n : Z) : string :=
  objectList_name +:+ "_" +:+ pretty n.

Definition flush_call (st : ObjectListsLoop) : ObjectListFB :=
  {| under_objectList_name := numbered_name (nbObjectList st);
     CompilerInputFiles := objectList st;
     ol_compilerOptions := compilerOptions st;
     ol_output_path := output_object_path st;
     SourceFileExtension := extension st |}.

Definition quoted_path (sf : cmSourceFile) : string :=
  String dquote (GetFullPath sf +:+ String dquote EmptyString).

(** [output_objects[i]]; the vector holds one object name per source. *)
Definition object_name_at (output_objects : list string) (i : nat)
    : string :=
  default EmptyString (output_objects !! i).

(** One round of the loop over [objectSources]. *)
Definition WriteObjectListsFB_round (output_objects : list string)
    (st : ObjectListsLoop) (sf : cmSourceFile) : ObjectListsLoop :=
  let output_object_path_temp :=
    GetPath (object_name_at output_objects (nbSourceFile st)) in
  let extension_temp := GetExtension sf in
  let compilerOptionsTemp := compile_options sf in
  let differs :=
    bool_decide (compilerOptions st <> compilerOptionsTemp)
    || bool_decide (output_object_path st <> output_object_path_temp)
    || bool_decide (extension_temp <> extension st) in
  {| compilerOptions := compilerOptionsTemp;
     output_object_path := output_object_path_temp;
     extension := extension_temp;
     objectList :=
       (if differs then [] else objectList st) ++ [quoted_path sf];
     nbObjectList :=
       if differs then nbObjectList st + 1 else nbObjectList st;
     nbSourceFile := S (nbSourceFile st);
     written :=
       if differs then written st ++ [flush_call st] else written st |}.

(** The locals as they are when the loop starts. *)
Definition WriteObjectListsFB_init (objectSources : list cmSourceFile)
    (output_objects : list string) : ObjectListsLoop :=
  {| compilerOptions :=
       match objectSources with
       | sf :: _ => compile_options sf
       | [] => EmptyString
       end;
     output_object_path :=
       match objectSources with
       | _ :: _ => GetPath (GetPath (object_name_at output_objects 0))
       | [] => EmptyString
       end;
     extension :=
       match objectSources with
       | sf :: _ => GetExtension sf
       | [] => EmptyString
       end;
     objectList := [];
     nbObjectList := 1;
     nbSourceFile := 0;
     written := [] |}.

(** The calls of [WriteObjectListFB] made by [WriteObjectListsFB], in
    order: one at each change, and one after the loop. *)
Definition WriteObjectListsFB (objectSources : list cmSourceFile)
    (output_objects : list string) : list ObjectListFB :=
  let st :=
    foldl (WriteObjectListsFB_round output_objects)
          (WriteObjectListsFB_init objectSources output_objects)
          objectSources in
  written st ++ [flush_call st].

(** What decides the grouping for the source at position [i]. *)
Definition group_key (output_objects : list string) (i : nat)
    (sf : cmSourceFile) : string * string * string :=
  (compile_options sf, GetPath (object_name_at output_objects i),
   GetExtension sf).

Definition call_key (c : ObjectListFB) : string * string * string :=
  (ol_compilerOptions c, ol_output_path c, SourceFileExtension c).

(** *** The grouping, as the calls show it *)

(** The sources with what decides their group. *)
Definition keyed (output_objects : list string)
    (sources : list cmSourceFile)
    : list (string * string * string * cmSourceFile) :=
  imap (fun i sf => (group_key output_objects i sf, sf)) sources.

(** A call of [WriteObjectListFB] compiles exactly the sources of [part],
    which all have the options, the output directory and the extension
    of the call. *)
Definition call_of_part
    (part : list (string * string * string * cmSourceFile))
    (c : ObjectListFB) : Prop :=
  CompilerInputFiles c = (fun x => quoted_path x.2) <$> part
  /\ Forall (fun x => x.1 = call_key c) part.

(** Two calls in a row never agree on options, directory and extension. *)
Definition neighbours_differ (calls : list ObjectListFB) : Prop :=
  forall i c c',
    calls !! i = Some c -> calls !! S i = Some c' ->
    call_key c <> call_key c'.

Definition loop_key (st : ObjectListsLoop) : string * string * string :=
  (compilerOptions st, output_object_path st, extension st).

(** The loop invariant: [parts] are the closed groups, [cur] is the open
    one, after the sources [pre]. *)
Record loop_inv (outs : list string) (sources pre : list cmSourceFile)
    (st : ObjectListsLoop)
    (parts : list (list (string * string * string * cmSourceFile)))
    (cur : list (string * string * string * cmSourceFile)) : Prop := {
  inv_count : nbSourceFile st = length pre;
  inv_concat : concat parts ++ cur = keyed outs pre;
  inv_parts : Forall2 call_of_part parts (written st);
  inv_open : objectList st = (fun x => quoted_path x.2) <$> cur;
  inv_open_key : Forall (fun x => x.1 = loop_key st) cur;
  inv_nonempty : Forall (fun part => part <> []) parts;
  inv_cur : pre <> [] -> cur <> [];
  inv_first : pre = [] ->
              forall sf, head sources = Some sf ->
                         loop_key st = group_key outs 0%nat sf;
  inv_neighbours : neighbours_differ (written st);
  inv_last : forall c, last (written st) = Some c ->
                       call_key c <> loop_key st;
  inv_number : nbObjectList st = Z.of_nat (length (written st)) + 1;
  inv_names : forall i c, written st !! i = Some c ->
                under_objectList_name c = numbered_name (Z.of_nat i + 1)
}.

End ObjectLists.

(** ** Definitions that follow the words of the specification *)

Definition is_separator (a : ascii) : bool :=
  Ascii.eqb a slash || Ascii.eqb a backslash.

Fixpoint has_separator (s : string) : bool :=
  match s with
  | EmptyString => false
  | String a s' => is_separator a || has_separator s'
  end.

(** The path without its directory components. *)
Fixpoint last_component (path : string) : string :=
  match path with
  | EmptyString => EmptyString
  | String a s' =>
      if has_separator s' then last_component s'
      else if is_separator a then s' else path
  end.

(** A name without its final extension: all that is before the last dot. *)
Fixpoint strip_final_extension (name : string) : string :=
  match name with
  | EmptyString => EmptyString
  | String a s' =>
      if has_char dot s' then String a (strip_final_extension s')
      else if Ascii.eqb a dot then EmptyString else name
  end.

(** [base_name] as the specification words it. *)
Definition base_name_spec (path : string) : string :=
  strip_final_extension (last_component path).

(** All that is before the first dot of a name. *)
Fixpoint before_first_dot (name : string) : string :=
  match name with
  | EmptyString => EmptyString
  | String a s' =>
      if Ascii.eqb a dot then EmptyString
      else String a (before_first_dot s')
  end.

(** The blocks of [b] are complete before the generation of [a]
    starts. *)
Definition written_before (b a : string) (tr : list event) : Prop :=
  exists i j : nat,
    tr !! i = Some (EvWritten b) /\ tr !! j = Some (EvBegin a) /\ (i < j)%nat.

(** [a] lists [b] among its dependencies, directly or through a chain of
    registered targets, no target of the chain being its own
    dependency. *)
Inductive depends_on (m : gmap string cmFastbuildInfoTarget)
    : string -> string -> Prop :=
  | depends_direct a b ea :
      m !! a = Some ea -> b ∈ name_target_deps ea ->
      is_Some (m !! b) -> a <> b -> depends_on m a b
  | depends_trans a b c :
      depends_on m a c -> depends_on m c b -> depends_on m a b.

(** ** The invariants of a generation pass *)

(** The entry of [k] exists and is finished. *)
Definition treated (m : gmap string cmFastbuildInfoTarget) (k : string)
    : Prop :=
  exists e, m !! k = Some e /\ is_treated e = true.

(** Every entry is stored under the key of its own target and
    configuration, that target has a link language, and the dependency
    list is the one [GetNameDepsTargets] gives, without duplicates. *)
Definition ledger_wf (m : gmap string cmFastbuildInfoTarget) : Prop :=
  forall k e,
    m !! k = Some e ->
    target_key (gt e) (config e) = k
    /\ str_empty (TargetLinkLanguage (gt e) (config e)) = false
    /\ name_target_deps e = GetNameDepsTargets (gt e) (config e).

(** Whether the dependency [d] still holds a dependent back: before the
    sweep of [DecrementNbDepsTargetUnexist] a name without entry does,
    after it only an unfinished entry does. *)
Definition blocks (swept : bool) (m : gmap string cmFastbuildInfoTarget)
    (d : string) : bool :=
  match m !! d with
  | Some e => negb (is_treated e)
  | None => negb swept
  end.

Definition need (swept : bool) (m : gmap string cmFastbuildInfoTarget)
    (k : string) (deps : list string) : Z :=
  Z.of_nat
    (length (filter (fun d => d <> k /\ blocks swept m d = true) deps)).

Definition occurrences (k : string) (deps : list string) : Z :=
  Z.of_nat (length (filter (fun d => k = d) deps)).

Definition unregistered (m : gmap string cmFastbuildInfoTarget)
    (deps : list string) : Z :=
  Z.of_nat (length (filter (fun d => m !! d = None) deps)).

(** The count of every unfinished entry is what still holds it back,
    plus the decrements that a running [TargetTreatedFinish] has yet to
    apply to it ([debt]). *)
Definition counts_ok (swept : bool) (debt : string -> list string -> Z)
    (m : gmap string cmFastbuildInfoTarget) : Prop :=
  forall k e,
    m !! k = Some e -> is_treated e = false ->
    number_untrated_deps e
    = need swept m k (name_target_deps e) + debt k (name_target_deps e).

Record trace_ok (swept : bool) (m : gmap string cmFastbuildInfoTarget)
    (tr : list event) : Prop := {
  tr_nodup : NoDup tr;
  tr_written : forall k, EvWritten k ∈ tr <-> treated m k;
  tr_closed : forall k, EvBegin k ∈ tr -> EvWritten k ∈ tr;
  tr_begin : forall j k,
    tr !! j = Some (EvWritten k) ->
    exists i, (i < j)%nat /\ tr !! i = Some (EvBegin k);
  tr_order : forall j a e d,
    tr !! j = Some (EvBegin a) -> m !! a = Some e ->
    d ∈ name_target_deps e -> d <> a ->
    (swept = true -> is_Some (m !! d)) ->
    exists i, (i < j)%nat /\ tr !! i = Some (EvWritten d)
}.

Record scheduler_inv (swept : bool) (debt : string -> list string -> Z)
    (g : generator) : Prop := {
  inv_wf : ledger_wf (MapFastbuildInfoTargets g);
  inv_counts : counts_ok swept debt (MapFastbuildInfoTargets g);
  inv_trace : trace_ok swept (MapFastbuildInfoTargets g) (trace g)
}.

(** Entries stay, keep their target, configuration and dependency list,
    and stay finished once finished. *)
Definition evolves (m m' : gmap string cmFastbuildInfoTarget) : Prop :=
  forall k e,
    m !! k = Some e ->
    exists e',
      m' !! k = Some e' /\ gt e' = gt e /\ config e' = config e
      /\ name_target_deps e' = name_target_deps e
      /\ (is_treated e = true -> is_treated e' = true).

(** The keys of the unfinished entries. *)
Definition unfinished (m : gmap string cmFastbuildInfoTarget)
    : gset string :=
  dom (filter (fun ke => is_treated ke.2 = false) m).

(** [a] lists [b] among its dependencies and [b] is registered. *)
Definition depends_directly (m : gmap string cmFastbuildInfoTarget)
    (a b : string) : Prop :=
  exists ea, m !! a = Some ea /\ b ∈ name_target_deps ea /\ is_Some (m !! b).

(** The names [WriteExecutableFB] gives to the executable block and to
    its two aliases. *)
Definition executable_name_of (t : cmGeneratorTarget) (cfg : string)
    (isMultiConfig : bool) : string :=
  if isMultiConfig then GetShortOutputName t cfg +:+ "_exe_" +:+ cfg
  else GetShortOutputName t cfg +:+ "_exe".

Definition deps_alias_of (quotation : string) (t : cmGeneratorTarget)
    (cfg : string) (isMultiConfig : bool) : string :=
  Quote quotation
    (if isMultiConfig
     then GetShortOutputName t cfg +:+ "_exe_" +:+ cfg +:+ "_deps"
     else GetShortOutputName t cfg +:+ "_exe_deps").

Definition canonical_alias_of (quotation : string) (t : cmGeneratorTarget)
    : string :=
  Quote quotation (GetTargetName t).

(** What the deps alias of an executable points at: the deps aliases
    of the libraries of the target that have a ledger entry, then the
    executable block. *)
Definition deps_list_of (quotation : string) (t : cmGeneratorTarget)
    (cfg : string) (g : generator) : string :=
  concat_quoted quotation "_deps"
    (filter (fun d => d <> EmptyString)
       (GetNameTargetLibraries g t (IsMultiConfig g) cfg))
  +:+ Quote quotation (executable_name_of t cfg (IsMultiConfig g)).

(** When the canonical-name alias is asked for. *)
Definition canonical_alias_wanted (t : cmGeneratorTarget) (cfg : string)
    (g : generator) : bool :=
  (String.eqb (GetCompilerId t cfg) "MSVC" && negb (IsMultiConfig g))
  || (IsMultiConfig g && String.eqb (GetDefaultFileConfig g) cfg).

(** ** Sample data *)

(** A target of the given name and kind, linking the given files, built
    by the compiler [id]. *)
Definition sample_target (name : string) (kind : TargetType)
    (id : string) (links : list string) : cmGeneratorTarget :=
  {| GetName := name;
     GetType := kind;
     GetLinkerLanguage := fun _ => "CXX";
     GetFullName := fun _ => name;
     GetLinkFiles := fun _ => links;
     GetCompilerId := fun _ => id |}.

(** An entry with every field zero, as value-initialisation of a plain
    aggregate gives; its target stands for the null pointer. *)
Definition zero_entry : cmFastbuildInfoTarget :=
  {| is_treated := false;
     config := EmptyString;
     name_target_deps := [];
     number_untrated_deps := 0;
     gt := sample_target EmptyString UNKNOWN_LIBRARY EmptyString [] |}.

Definition apostrophe : string := "'".

(** An executable that links a library of its own name. *)
Definition selfish : cmGeneratorTarget :=
  sample_target "core" EXECUTABLE "MSVC" ["lib/core.lib"].

Definition app_gnu : cmGeneratorTarget :=
  sample_target "app" EXECUTABLE "GNU" [].

(** Two executables whose files have one name, built by MSVC. *)
Definition app_one : cmGeneratorTarget :=
  {| GetName := "app1";
     GetType := EXECUTABLE;
     GetLinkerLanguage := fun _ => "CXX";
     GetFullName := fun _ => "app.exe";
     GetLinkFiles := fun _ => [];
     GetCompilerId := fun _ => "MSVC" |}.

Definition app_two : cmGeneratorTarget :=
  {| GetName := "app2";
     GetType := EXECUTABLE;
     GetLinkerLanguage := fun _ => "CXX";
     GetFullName := fun _ => "app.exe";
     GetLinkFiles := fun _ => [];
     GetCompilerId := fun _ => "MSVC" |}.

Definition plugin : cmGeneratorTarget :=
  sample_target "plugin" SHARED_LIBRARY "MSVC" [].

Definition host : cmGeneratorTarget :=
  sample_target "host" EXECUTABLE "MSVC" ["bin/plugin.so.manifest"].

(** Four sources in one directory, the third with options of its own. *)
Definition sample_flags (sf : cmSourceFile) : string :=
  if String.eqb (GetFullPath sf) "src/c.cpp" then "-O0" else "-O2".

Definition sample_sources : list cmSourceFile :=
  [ {| GetFullPath := "src/a.cpp"; GetExtension := "cpp" |};
    {| GetFullPath := "src/b.cpp"; GetExtension := "cpp" |};
    {| GetFullPath := "src/c.cpp"; GetExtension := "cpp" |};
    {| GetFullPath := "src/d.cpp"; GetExtension := "cpp" |} ].

Definition sample_objects : list string :=
  [ "src/a.cpp.o"; "src/b.cpp.o"; "src/c.cpp.o"; "src/d.cpp.o" ].

(** ** What a call of [Generate] achieves *)

(** The decrements that [TargetTreatedFinish] of [T] still owes to the
    entries it has not visited yet. *)
Definition add_debt (debt : string -> list string -> Z) (T : string)
    (rest : list string) (k : string) (deps : list string) : Z :=
  debt k deps + (if decide (k ∈ rest) then occurrences T deps else 0).

Definition debt_nonneg (debt : string -> list string -> Z) : Prop :=
  forall k deps, 0 <= debt k deps.

Definition no_debt : string -> list string -> Z := fun _ _ => 0.

(** From [g] to [g'] no entry appeared, and the log only grew. *)
Record cascade_post (g g' : generator) : Prop := {
  casc_evolves :
    evolves (MapFastbuildInfoTargets g) (MapFastbuildInfoTargets g');
  casc_dom :
    forall k, is_Some (MapFastbuildInfoTargets g' !! k) ->
              is_Some (MapFastbuildInfoTargets g !! k);
  casc_trace : exists new, trace g' = trace g ++ new
}.

Record generate_post (t : cmGeneratorTarget) (cfg : string)
    (g g' : generator) : Prop := {
  post_evolves :
    evolves (MapFastbuildInfoTargets g) (MapFastbuildInfoTargets g');
  post_dom :
    forall k, is_Some (MapFastbuildInfoTargets g' !! k) ->
              is_Some (MapFastbuildInfoTargets g !! k)
              \/ (k = target_key t cfg
                  /\ str_empty (TargetLinkLanguage t cfg) = false);
  post_registered :
    str_empty (TargetLinkLanguage t cfg) = false ->
    is_Some (MapFastbuildInfoTargets g' !! target_key t cfg);
  post_trace : exists new, trace g' = trace g ++ new;
  post_ready :
    forall e,
      str_empty (TargetLinkLanguage t cfg) = false ->
      MapFastbuildInfoTargets g !! target_key t cfg = Some e ->
      is_treated e = false -> number_untrated_deps e <= 0 ->
      treated (MapFastbuildInfoTargets g') (target_key t cfg)
}.

(** What the recursive call is assumed to do, on a registered key. *)
Definition Gen_ok
    (Gen : cmGeneratorTarget -> string -> generator -> option generator)
    : Prop :=
  forall swept debt t cfg g g',
    debt_nonneg debt -> scheduler_inv swept debt g ->
    is_Some (MapFastbuildInfoTargets g !! target_key t cfg) ->
    Gen t cfg g = Some g' ->
    scheduler_inv swept debt g' /\ generate_post t cfg g g'.

(** The recursive call answers, on a registered key, as long as fewer
    than [d] entries are unfinished. *)
Definition Gen_total (d : nat)
    (Gen : cmGeneratorTarget -> string -> generator -> option generator)
    : Prop :=
  forall swept debt t cfg g,
    debt_nonneg debt -> scheduler_inv swept debt g ->
    is_Some (MapFastbuildInfoTargets g !! target_key t cfg) ->
    (size (unfinished (MapFastbuildInfoTargets g)) < d)%nat ->
    is_Some (Gen t cfg g).

(** What [DecrementNbDepsTargetUnexist] makes of an entry of [m]. *)
Definition swept_entry (m : gmap string cmFastbuildInfoTarget)
    (e : cmFastbuildInfoTarget) : cmFastbuildInfoTarget :=
  if is_treated e then e
  else set_number_untrated_deps
         (number_untrated_deps e - unregistered m (name_target_deps e)) e.

(** A lone executable that links a library no target produces. *)
Definition tool : cmGeneratorTarget :=
  sample_target "tool" EXECUTABLE "MSVC" ["C:/sdk/lib/zlib.lib"].

(** A target without link language, and an unrelated sibling. *)
Definition broken : cmGeneratorTarget :=
  {| GetName := "broken";
     GetType := EXECUTABLE;
     GetLinkerLanguage := fun _ => EmptyString;
     GetFullName := fun _ => "broken";
     GetLinkFiles := fun _ => [];
     GetCompilerId := fun _ => EmptyString |}.

Definition sibling : cmGeneratorTarget :=
  sample_target "sibling" STATIC_LIBRARY "MSVC" [].

(** The message of [Generate] for a target without link language. *)
Definition no_linker_language (t : cmGeneratorTarget) : string :=
  "CMake can not determine linker language for target: " +:+ GetName t.

(** A call adds its error messages after those already reported, and
    does nothing else with them. *)
Definition errors_frame
    (Gen : cmGeneratorTarget -> string -> generator -> option generator)
    : Prop :=
  forall t cfg g,
    exists new,
      forall E,
        Gen t cfg (set_errors E g)
        = set_errors (E ++ new) <$> Gen t cfg g.

(** The diamond: the executable [dia_d] links the shared libraries
    [dia_b] and [dia_c], which both link the static library [dia_a]; the
    driver meets the dependent targets first. *)
Definition dia_a : cmGeneratorTarget :=
  sample_target "a" STATIC_LIBRARY "MSVC" [].

Definition dia_b : cmGeneratorTarget :=
  sample_target "b" SHARED_LIBRARY "MSVC" ["out/a.lib"].

Definition dia_c : cmGeneratorTarget :=
  sample_target "c" SHARED_LIBRARY "MSVC" ["out/a.lib"].

Definition dia_d : cmGeneratorTarget :=
  sample_target "d" EXECUTABLE "MSVC" ["out/b.lib"; "out/c.lib"].

Definition diamond : list (cmGeneratorTarget * string) :=
  [ (dia_d, "Release"); (dia_c, "Release"); (dia_b, "Release");
    (dia_a, "Release") ].

(** ** Further functions of the generator *)

(** The two characters [RemoveBackslashBeforeDoubleRib] looks for. *)
Definition backslash_dquote : string :=
  String backslash (String dquote EmptyString).

(** [str.replace(pos, 1, "")] for a position of type [size_t]: [None]
    when the position is beyond the end of the string and the call
    throws [std::out_of_range]. *)
Definition replace_at (pos : Z) (s : string) : option string :=
  if Z.of_nat (String.length s) <? pos then None
  else Some (erase_at (Z.to_nat pos) s).

(** [RemoveBackslashBeforeDoubleRib] with [int found] as the source has
    it: the loop goes on while the [int], converted back, is not
    [npos], and erases at the position the [int] holds.  [None] when
    [replace] throws; the loop needs no more rounds than the string has
    characters, each round taking one away. *)
Fixpoint RemoveBackslash_loop_int (rounds : nat) (str : string)
    : option string :=
  let found :=
    int_of_size_t (size_t_of_find (find_str backslash_dquote str)) in
  if size_t_of_int found =? npos then Some str
  else
    match rounds with
    | O => None
    | S rounds' =>
        match replace_at (size_t_of_int found) str with
        | Some str' => RemoveBackslash_loop_int rounds' str'
        | None => None
        end
    end.

Definition RemoveBackslashBeforeDoubleRib_int (str : string)
    : option string :=
  RemoveBackslash_loop_int (String.length str) str.

(** The loop of [ReplaceDashWithUnderscores] as the source writes it:
    [find] the first dash, [replace] it, again. *)
Fixpoint ReplaceDash_loop (rounds : nat) (str : string) : string :=
  match rounds with
  | O => str
  | S rounds' =>
      match find_char dash str with
      | Some it =>
          ReplaceDash_loop rounds'
            (str_take it str +:+ "__" +:+ substr_from (S it) str)
      | None => str
      end
  end.

(** The test of [GetFileDeps] on a dependency: what starts at its last
    dot reads [.manifest]. *)
Definition is_manifest (implicitDep : string) : bool :=
  match rfind_char dot implicitDep with
  | Some found_point =>
      String.eqb (substr found_point 9 implicitDep) ".manifest"
  | None => false
  end.

Definition GetFileDeps (t : cmGeneratorTarget) (cfg : string)
    : list string :=
  RemoveDuplicateName
    (filter (fun implicitDep => is_manifest implicitDep = false)
       (ComputeLinkDeps t cfg false)).

(** How often a character occurs in a string. *)
Fixpoint count_char (c : ascii) (s : string) : nat :=
  match s with
  | EmptyString => O
  | String a s' =>
      if Ascii.eqb a c then S (count_char c s') else count_char c s'
  end.

(** ** What a pass leaves behind *)

(** Every entry is stored under the key of its own target and
    configuration, which have a link language and satisfy [origin]; and
    every entry whose key is not [pending] is either finished or still
    waits for a dependency. *)
Definition settled (origin : cmGeneratorTarget -> string -> Prop)
    (pending : string -> Prop) (m : gmap string cmFastbuildInfoTarget)
    : Prop :=
  forall k e,
    m !! k = Some e ->
    target_key (gt e) (config e) = k
    /\ str_empty (TargetLinkLanguage (gt e) (config e)) = false
    /\ origin (gt e) (config e)
    /\ (is_treated e = false -> ~ pending k -> 0 < number_untrated_deps e).

(** What the recursive call is assumed to do for the entries that wait:
    it settles the entry it is called for and unsettles no other. *)
Definition Gen_settled (origin : cmGeneratorTarget -> string -> Prop)
    (Gen : cmGeneratorTarget -> string -> generator -> option generator)
    : Prop :=
  forall (pending : string -> Prop) t cfg g g',
    origin t cfg -> str_empty (TargetLinkLanguage t cfg) = false ->
    settled origin (fun k => pending k \/ k = target_key t cfg)
      (MapFastbuildInfoTargets g) ->
    Gen t cfg g = Some g' ->
    settled origin pending (MapFastbuildInfoTargets g').

Definition nothing_pending : string -> Prop := fun _ => False.

(** The key of a visit, and whether the visited target can be linked. *)
Definition visit_key (tc : cmGeneratorTarget * string) : string :=
  target_key tc.1 tc.2.

Definition linkable (tc : cmGeneratorTarget * string) : Prop :=
  str_empty (TargetLinkLanguage tc.1 tc.2) = false.

(** No two of the visited targets that can be linked share a key. *)
Definition keys_of_their_own (visits : list (cmGeneratorTarget * string))
    : Prop :=
  forall tc tc',
    tc ∈ visits -> tc' ∈ visits -> linkable tc -> linkable tc' ->
    visit_key tc = visit_key tc' -> tc = tc'.

(** The Fastbuild part of the state, which is all that [generator]
    holds: the ledger, the alias table with its order, the errors and
    the log of [WriteTargetFB]. *)
Definition fastbuild_state (g : generator)
    : gmap string cmFastbuildInfoTarget * gmap string TargetAliasFB
      * list string * list string * list event :=
  (MapFastbuildInfoTargets g, TargetAliasesFB g, TargetAliasesOrderedFB g,
   errors g, trace g).

(** A ranking of the keys under which every linkable visited target
    ranks above those of its dependencies that are visited and linkable
    themselves: the dependencies among the visited targets have no
    cycle. *)
Definition ranked (visits : list (cmGeneratorTarget * string))
    (rank : string -> nat) : Prop :=
  forall tc d,
    tc ∈ visits -> linkable tc ->
    d ∈ GetNameDepsTargets tc.1 tc.2 -> d <> visit_key tc ->
    (exists tc', tc' ∈ visits /\ linkable tc' /\ visit_key tc' = d) ->
    (rank d < rank (visit_key tc))%nat.

(** A property of the generator that writes to the ledger, to the log
    and to the error list leave alone, and that recording an alias
    keeps. *)
Definition alias_stable (I : generator -> Prop) : Prop :=
  (forall m g, I g -> I (set_ledger m g))
  /\ (forall ev g, I g -> I (log ev g))
  /\ (forall msg g, I g -> I (Error msg g))
  /\ (forall alias listDeps cfg excl g,
        I g -> I (AddTargetAliasFB alias listDeps cfg excl g)).

Definition Gen_keeps (I : generator -> Prop)
    (Gen : cmGeneratorTarget -> string -> generator -> option generator)
    : Prop :=
  forall t cfg g g', I g -> Gen t cfg g = Some g' -> I g'.

(** [TargetAliasesOrderedFB] lists the keys of [TargetAliasesFB], each
    once. *)
Definition aliases_consistent (g : generator) : Prop :=
  NoDup (TargetAliasesOrderedFB g)
  /\ forall alias,
       alias ∈ TargetAliasesOrderedFB g
       <-> is_Some (TargetAliasesFB g !! alias).

(** The alias [alias] is recorded as [ta], and the aliases recorded
    first are [first], in this order. *)
Definition aliases_extend (alias : string) (ta : TargetAliasFB)
    (first : list string) (g : generator) : Prop :=
  TargetAliasesFB g !! alias = Some ta
  /\ first `prefix_of` TargetAliasesOrderedFB g.

(** A ranking of the keys of the diamond. *)
Definition diamond_rank (k : string) : nat :=
  if String.eqb k "dRelease" then 2%nat
  else if String.eqb k "aRelease" then 0%nat else 1%nat.

(** ** The writer of the [.bff] text

    A [std::ostream] is the text written to it so far; [os << x]
    appends.  The generator keeps the indentation in [linePrefix] and
    the pending closing characters in [closingScope]. *)

Definition newline : string := String (ascii_of_nat 10) EmptyString.
Definition tab : string := String (ascii_of_nat 9) EmptyString.

Record scope : Type := {
  linePrefix : string;
  closingScope : string
}.

(** [s.resize(s.size() - 1)] and [s[s.size() - 1]], for a string that is
    not empty. *)
Definition drop_last (s : string) : string :=
  str_take (String.length s - 1) s.

Definition last_char (s : string) : option ascii :=
  String.get (String.length s - 1) s.

Definition WriteDivider (os : string) : string :=
  os +:+ "// --------------------------------------"
     +:+ "-----------------------------------------" +:+ newline.

Definition WriteCommentFB (w : scope) (os comment : string) : string :=
  if str_empty comment then os
  else os +:+ linePrefix w +:+ "// " +:+ comment +:+ newline.

Definition WriteSectionHeader (w : scope) (os comment : string) : string :=
  if str_empty comment then os
  else WriteDivider (WriteCommentFB w (WriteDivider (os +:+ newline)) comment).

Definition WritePushScope (w : scope) (os : string) (begin end_ : ascii)
    : scope * string :=
  ({| linePrefix := linePrefix w +:+ tab;
      closingScope := closingScope w +:+ String end_ EmptyString |},
   os +:+ linePrefix w +:+ String begin EmptyString +:+ newline).

Definition WritePushScopeStruct (w : scope) (os : string) : scope * string :=
  WritePushScope w os "["%char "]"%char.

(** [None] when the [assert] fails, or when there is no closing character
    to read. *)
Definition WritePopScope (w : scope) (os : string) : option (scope * string) :=
  if str_empty (linePrefix w) then None
  else
    let prefix := drop_last (linePrefix w) in
    match last_char (closingScope w) with
    | Some c =>
        Some ({| linePrefix := prefix;
                 closingScope := drop_last (closingScope w) |},
              os +:+ prefix +:+ String c EmptyString +:+ newline)
    | None => None
    end.

Definition WriteVariableFB (w : scope) (os key value operation : string)
    : string :=
  os +:+ linePrefix w +:+ "." +:+ key +:+ " " +:+ operation +:+ " "
     +:+ value +:+ newline.

Definition WriteCommand (w : scope) (os command value : string) : string :=
  let os1 := os +:+ linePrefix w +:+ command in
  let os2 :=
    if str_empty value then os1 else os1 +:+ "(" +:+ value +:+ ")" in
  os2 +:+ newline.

Definition WriteArray (w : scope) (os key : string) (values : list string)
    (begin end_ : ascii) (operation : string) : option (scope * string) :=
  let os1 := WriteVariableFB w os key EmptyString operation in
  let '(w1, os2) := WritePushScope w os1 begin end_ in
  let os3 :=
    foldl (fun os value => os +:+ linePrefix w1 +:+ value +:+ newline)
          os2 values in
  WritePopScope w1 os3.

(** The streams of the generator: the common build file and the file of
    a configuration, each with the text written to it. *)
Inductive stream_id : Type :=
  | CommonFileStream
  | ImplFileStream (config : string).

Record output : Type := {
  indent : scope;
  common_file : string;
  impl_files : gmap string string
}.

Definition stream_text (sid : stream_id) (o : output) : string :=
  match sid with
  | CommonFileStream => common_file o
  | ImplFileStream cfg => default EmptyString (impl_files o !! cfg)
  end.

(** The output once a writer call on the stream [sid] has left the
    indentation [w] and the text [text]. *)
Definition put (sid : stream_id) (w : scope) (text : string) (o : output)
    : output :=
  match sid with
  | CommonFileStream =>
      {| indent := w; common_file := text; impl_files := impl_files o |}
  | ImplFileStream cfg =>
      {| indent := w; common_file := common_file o;
         impl_files := <[cfg := text]> (impl_files o) |}
  end.

(** The three configurations [WriteTargetAliasesFB] knows of, as the keys
    of [configsAll] and of [configsOther]. *)
Definition three_configs : gmap string string :=
  <["Release" := EmptyString]>
    (<["RelWithDebInfo" := EmptyString]>
       (<["Debug" := EmptyString]> ∅)).

(** [m[k] += x] *)
Definition map_append (k x : string) (m : gmap string string)
    : gmap string string :=
  <[k := default EmptyString (m !! k) +:+ x]> m.

Section AliasWriter.

(** The default quotation of [Quote], the default scope characters of
    [WritePushScope], the default operation of [WriteVariableFB] and the
    value-initialised record that [TargetAliasesFB[name]] creates come
    from the header of the class, which is not part of the sources at
    hand. *)
Variable quotation : string.
Variables scope_begin scope_end : ascii.
Variable assign : string.
Variable fresh_alias : TargetAliasFB.

Definition WriteAliasFB (w : scope) (os name_alias targets : string)
    : option (scope * string) :=
  let os1 := WriteCommand w os "Alias" name_alias in
  let '(w1, os2) := WritePushScope w os1 scope_begin scope_end in
  let os3 :=
    WriteVariableFB w1 os2 "Targets" ("{ " +:+ targets +:+ " }") assign in
  WritePopScope w1 os3.

(** [WriteAliasFB] with the stream [sid] for [os]. *)
Definition WriteAliasFB_on (sid : stream_id) (name_alias targets : string)
    (o : output) : option output :=
  match WriteAliasFB (indent o) (stream_text sid o) name_alias targets with
  | Some (w, os) => Some (put sid w os o)
  | None => None
  end.

Definition WriteSectionHeader_on (sid : stream_id) (comment : string)
    (o : output) : output :=
  put sid (indent o)
      (WriteSectionHeader (indent o) (stream_text sid o) comment) o.

(** [TargetAliasesFB[name_alias]]: the record read, and the table
    after the look-up. *)
Definition alias_at (name_alias : string) (a : gmap string TargetAliasFB)
    : TargetAliasFB :=
  default fresh_alias (a !! name_alias).

Definition alias_touch (name_alias : string) (a : gmap string TargetAliasFB)
    : gmap string TargetAliasFB :=
  match a !! name_alias with
  | Some _ => a
  | None => <[name_alias := fresh_alias]> a
  end.

Definition touch_alias (name_alias : string) (g : generator) : generator :=
  set_aliases (alias_touch name_alias (TargetAliasesFB g))
              (TargetAliasesOrderedFB g) g.

(** One round of the loop of the single-configuration branch; the state
    holds [listDepsAll] and [listDepsOther]. *)
Definition WriteTargetAliasesFB_single_step
    (st : generator * output * string * string) (name_alias : string)
    : option (generator * output * string * string) :=
  let '(g, o, listDepsAll, listDepsOther) := st in
  let ta := alias_at name_alias (TargetAliasesFB g) in
  let g1 := touch_alias name_alias g in
  match WriteAliasFB_on CommonFileStream name_alias (ListDeps ta) o with
  | Some o1 =>
      if ExcludeFromAll ta
      then Some (g1, o1, listDepsAll, listDepsOther +:+ name_alias)
      else Some (g1, o1, listDepsAll +:+ name_alias, listDepsOther)
  | None => None
  end.

(** One round of the inner loop of the multi-configuration branch, for
    the configuration [config_first]; the state holds [configsAll] and
    [configsOther]. *)
Definition WriteTargetAliasesFB_multi_step (config_first : string)
    (st : generator * output * gmap string string * gmap string string)
    (name_alias : string)
    : option (generator * output * gmap string string * gmap string string) :=
  let '(g, o, configsAll, configsOther) := st in
  let ta := alias_at name_alias (TargetAliasesFB g) in
  let g1 := touch_alias name_alias g in
  if negb (String.eqb (Config ta) config_first)
  then Some (g1, o, configsAll, configsOther)
  else
    match WriteAliasFB_on (ImplFileStream config_first) name_alias
            (ListDeps ta) o with
    | Some o1 =>
        if ExcludeFromAll ta
        then Some (g1, o1, configsAll,
                   map_append (Config ta) name_alias configsOther)
        else Some (g1, o1,
                   map_append (Config ta) name_alias configsAll,
                   configsOther)
    | None => None
    end.

Definition WriteTargetAliasesFB_multi_config
    (st : generator * output * gmap string string * gmap string string)
    (config_first : string)
    : option (generator * output * gmap string string * gmap string string) :=
  let '(g, o, configsAll, configsOther) := st in
  let o1 :=
    WriteSectionHeader_on (ImplFileStream config_first)
      ("Target aliases : " +:+ config_first) o in
  for_each (WriteTargetAliasesFB_multi_step config_first)
           (TargetAliasesOrderedFB g) (g, o1, configsAll, configsOther).

(** The two closing loops of the multi-configuration branch. *)
Definition WriteAliasAll (configsAll : gmap string string) (o : output)
    : option output :=
  for_each
    (fun o config_first =>
       WriteAliasFB_on (ImplFileStream config_first) (Quote quotation "all")
         (default EmptyString (configsAll !! config_first)) o)
    (sorted_keys (dom configsAll)) o.

Definition WriteAliasOther (configsOther : gmap string string) (o : output)
    : option output :=
  for_each
    (fun o config_first =>
       let config_second :=
         default EmptyString (configsOther !! config_first) in
       if str_empty config_second then Some o
       else WriteAliasFB_on (ImplFileStream config_first)
              (Quote quotation "other") config_second o)
    (sorted_keys (dom configsOther)) o.

Definition WriteTargetAliasesFB (g : generator) (o : output)
    : option (generator * output) :=
  if negb (IsMultiConfig g) then
    let o1 := WriteSectionHeader_on CommonFileStream "Target aliases" o in
    match for_each WriteTargetAliasesFB_single_step
            (TargetAliasesOrderedFB g)
            (g, o1, EmptyString, EmptyString) with
    | Some (g1, o2, listDepsAll, listDepsOther) =>
        match WriteAliasFB_on CommonFileStream (Quote quotation "all")
                listDepsAll o2 with
        | Some o3 =>
            if negb (str_empty listDepsOther)
            then match WriteAliasFB_on CommonFileStream
                         (Quote quotation "other") listDepsOther o3 with
                 | Some o4 => Some (g1, o4)
                 | None => None
                 end
            else Some (g1, o3)
        | None => None
        end
    | None => None
    end
  else
    match for_each WriteTargetAliasesFB_multi_config
            (sorted_keys (dom three_configs))
            (g, o, three_configs, three_configs) with
    | Some (g1, o1, configsAll, configsOther) =>
        match WriteAliasAll configsAll o1 with
        | Some o2 =>
            match WriteAliasOther configsOther o2 with
            | Some o3 => Some (g1, o3)
            | None => None
            end
        | None => None
        end
    | None => None
    end.

(** What [WriteTargetAliasesFB] is to write for the aliases [ordered],
    as text: the block of each alias, the alias [all] of those that are
    not excluded from the default build, and the alias [other] of the
    excluded ones when there are some. *)
Definition alias_block (w : scope) (name_alias targets : string) : string :=
  linePrefix w +:+ "Alias"
  +:+ (if str_empty name_alias then EmptyString
       else "(" +:+ name_alias +:+ ")") +:+ newline
  +:+ linePrefix w +:+ String scope_begin EmptyString +:+ newline
  +:+ linePrefix w +:+ tab +:+ ".Targets " +:+ assign +:+ " { "
  +:+ targets +:+ " }" +:+ newline
  +:+ linePrefix w +:+ String scope_end EmptyString +:+ newline.

Definition alias_names (table : gmap string TargetAliasFB) (excluded : bool)
    (ordered : list string) : string :=
  foldr
    (fun name_alias acc =>
       if Bool.eqb (ExcludeFromAll (alias_at name_alias table)) excluded
       then name_alias +:+ acc else acc)
    EmptyString ordered.

Definition alias_blocks (w : scope) (table : gmap string TargetAliasFB)
    (ordered : list string) : string :=
  foldr
    (fun name_alias acc =>
       alias_block w name_alias (ListDeps (alias_at name_alias table))
       +:+ acc)
    EmptyString ordered.

Definition alias_section (w : scope) (table : gmap string TargetAliasFB)
    (ordered : list string) : string :=
  alias_blocks w table ordered
  +:+ alias_block w (Quote quotation "all") (alias_names table false ordered)
  +:+ (if str_empty (alias_names table true ordered) then EmptyString
       else alias_block w (Quote quotation "other")
              (alias_names table true ordered)).

(** The aliases of [ordered] recorded for the configuration [cfg]. *)
Definition aliases_of_config (table : gmap string TargetAliasFB)
    (cfg : string) (ordered : list string) : list string :=
  filter (fun name_alias => Config (alias_at name_alias table) = cfg) ordered.

End AliasWriter.

(** Series of scopes opened one inside the other, and closed again. *)
Fixpoint push_scopes (scopes : list (ascii * ascii)) (w : scope)
    (os : string) : scope * string :=
  match scopes with
  | [] => (w, os)
  | (begin, end_) :: rest =>
      let '(w1, os1) := WritePushScope w os begin end_ in
      push_scopes rest w1 os1
  end.

Fixpoint pop_scopes (n : nat) (w : scope) (os : string)
    : option (scope * string) :=
  match n with
  | O => Some (w, os)
  | S n' =>
      match WritePopScope w os with
      | Some (w1, os1) => pop_scopes n' w1 os1
      | None => None
      end
  end.

(** The closing lines of the scopes, the innermost first. *)
Fixpoint closing_lines (scopes : list (ascii * ascii)) (w : scope)
    : string :=
  match scopes with
  | [] => EmptyString
  | (begin, end_) :: rest =>
      closing_lines rest (WritePushScope w EmptyString begin end_).1
      +:+ linePrefix w +:+ String end_ EmptyString +:+ newline
  end.

(** The output once [text] is appended to the file of the configuration
    [cfg]. *)
Definition append_to (cfg text : string) (o : output) : output :=
  put (ImplFileStream cfg) (indent o)
      (stream_text (ImplFileStream cfg) o +:+ text) o.

(** Whether [WriteTargetAliasesFB] has a file for the configuration. *)
Definition known_config (cfg : string) : bool :=
  bool_decide (cfg ∈ ["Debug"; "RelWithDebInfo"; "Release"]).

(** A multi-configuration generator with one alias for [Release] and
    one for [MinSizeRel]. *)
Definition two_aliases : generator :=
  AddTargetAliasFB "'app_exe_MinSizeRel_deps'" "'app_exe_MinSizeRel'"
    "MinSizeRel" false
    (AddTargetAliasFB "'app_exe_Release_deps'" "'app_exe_Release'"
       "Release" false (new_generator true "Release")).

Definition blank_output : output :=
  {| indent := {| linePrefix := EmptyString; closingScope := EmptyString |};
     common_file := EmptyString;
     impl_files := ∅ |}.

(** The value-initialised alias record, and a single-configuration
    generator with one alias. *)
Definition zero_alias : TargetAliasFB :=
  {| Config := EmptyString; ListDeps := EmptyString;
     ExcludeFromAll := false |}.

Definition one_alias : generator :=
  AddTargetAliasFB "'app_exe_deps'" "'app_exe'" "Release" false
    (new_generator false EmptyString).

(** ** [ListSubsetWithAll] *)

Definition ListSubsetWithAll (all defaults : gset string)
    (items : list string) : option (gset string) :=
  for_each
    (fun result item =>
       if String.eqb item "all" then
         if Nat.eqb (length items) 1 then Some defaults else None
       else if decide (item ∈ all) then Some ({[item]} ∪ result)
       else None)
    items ∅.

(** ** [WriteObjectListFB] *)

Definition dq : string := String dquote EmptyString.

Definition GetOutputExtension (lang : string) : string :=
  if String.eqb lang "C" then "c"
  else if String.eqb lang "CXX" then "cpp"
  else if String.eqb lang "RC" then "rc"
  else EmptyString.

Definition GetGccClangCompilerOptionsFB (compilerId : string) : string :=
  let flags :=
    " -c " +:+ dq +:+ "%1" +:+ dq +:+ " -o " +:+ dq +:+ "%2" +:+ dq
    +:+ " -MD " in
  let flags :=
    if String.eqb compilerId "GNU"
    then flags +:+ " -MT " +:+ dq +:+ "%2" +:+ dq +:+ " "
    else flags in
  flags +:+ " -MF " +:+ dq +:+ "%2.d" +:+ dq +:+ " ".

Definition GetMsvcCompilerOptionsFB : string :=
  (" /nologo /c " +:+ dq +:+ "%1" +:+ dq +:+ " /Fo" +:+ dq +:+ "%2" +:+ dq
   +:+ " ") +:+ "/FS ".

Definition GetRcCompilerOptionsFB : string :=
  " /nologo /fo " +:+ dq +:+ "%2" +:+ dq +:+ " " +:+ dq +:+ "%1" +:+ dq
  +:+ " ".

(** The locals of [WriteObjectListFB] once the compiler of the list is
    chosen. *)
Record object_list_choice : Type := {
  lang : string;
  compiler : string;
  compiler_options : string;
  var_info_compile : string;
  extension_out : string
}.

Definition WriteObjectListFB_choice
    (compilerId target_name cfg language source_extension : string)
    : object_list_choice :=
  let extension := ".obj" in
  let extension := if is_gcc_or_clang compilerId then ".o" else extension in
  let is_rc :=
    String.eqb language "RC" || String.eqb source_extension "rc" in
  let extension := if is_rc then ".res" else extension in
  let lang0 := if is_rc then "RC" else language in
  let options_of_compiler :=
    let o1 :=
      if String.eqb compilerId "MSVC" then GetMsvcCompilerOptionsFB
      else EmptyString in
    if is_gcc_or_clang compilerId
    then GetGccClangCompilerOptionsFB compilerId else o1 in
  let '(lang1, compiler1, compiler_options1, var_info_compile1) :=
    if negb (String.eqb language "RC") && String.eqb source_extension "rc"
    then ("RC", "RC", GetRcCompilerOptionsFB, EmptyString)
    else if negb (String.eqb language "C")
            && String.eqb source_extension "c"
    then ("C", "C", options_of_compiler, EmptyString)
    else if negb (String.eqb language "CXX")
            && String.eqb source_extension "cpp"
    then ("CXX", "CXX", options_of_compiler, EmptyString)
    else (lang0, EmptyString, EmptyString,
          ".Compiler" +:+ lang0 +:+ cfg
          +:+ ReplaceDashWithUnderscores target_name) in
  let extension_lang := GetOutputExtension lang1 in
  let extension :=
    if negb (str_empty extension_lang)
    then "." +:+ extension_lang +:+ extension else extension in
  {| lang := lang1;
     compiler := compiler1;
     compiler_options := compiler_options1;
     var_info_compile := var_info_compile1;
     extension_out := extension |}.

Section ObjectListWriter.

(** The default quotation of [Quote], the default operation of
    [WriteVariableFB] and the default scope characters and operation of
    [WriteArray], from the header that is not at hand. *)
Variable quotation : string.
Variable assign : string.
Variables array_begin array_end : ascii.
Variable array_operation : string.

(** [os] is the stream [GetFileStream(config, IsMultiConfig())] gives;
    [object_directory] is [GetObjectDirectory(config)]. *)
Definition WriteObjectListFB (w : scope) (os : string)
    (compilerId target_name object_directory cfg language : string)
    (call : ObjectListFB) : option (scope * string) :=
  let object_output := object_directory +:+ ol_output_path call in
  let c :=
    WriteObjectListFB_choice compilerId target_name cfg language
      (SourceFileExtension call) in
  let os :=
    WriteVariableFB w os ("Obj" +:+ under_objectList_name call)
      EmptyString assign in
  let '(w1, os) := WritePushScopeStruct w os in
  let os :=
    if negb (str_empty (compiler c))
    then WriteVariableFB w1 os "Compiler" (Quote quotation (compiler c))
           assign
    else os in
  let os :=
    if negb (str_empty (var_info_compile c))
    then WriteCommand w1 os "Using" (var_info_compile c) else os in
  let os :=
    if negb (str_empty (compiler_options c))
    then WriteVariableFB w1 os "CompilerOptions"
           (Quote quotation (compiler_options c)) assign
    else os in
  let os :=
    if negb (str_empty (ol_compilerOptions call))
       && negb (String.eqb (lang c) "RC")
    then WriteVariableFB w1 os "CompilerOptions"
           (Quote quotation (ol_compilerOptions call)) "+"
    else os in
  match WriteArray w1 os "CompilerInputFiles" (CompilerInputFiles call)
          array_begin array_end array_operation with
  | Some (w2, os) =>
      let os :=
        WriteVariableFB w2 os "CompilerOutputPath"
          (Quote quotation object_output) assign in
      let os :=
        WriteVariableFB w2 os "CompilerOutputExtension"
          (Quote quotation (extension_out c)) assign in
      WritePopScope w2 os
  | None => None
  end.

End ObjectListWriter.

(** ** Visits in dependency order *)

(** Every visited target has a link language and a key of its own, and
    all its dependencies are keys visited before it ([seen] holds the
    keys visited so far). *)
Fixpoint dependency_ordered (seen : list string)
    (visits : list (cmGeneratorTarget * string)) : Prop :=
  match visits with
  | [] => True
  | tc :: rest =>
      linkable tc
      /\ (visit_key tc ∉ seen)
      /\ (forall d, d ∈ GetNameDepsTargets tc.1 tc.2 -> d ∈ seen)
      /\ dependency_ordered (visit_key tc :: seen) rest
  end.

(** The log of the visits when each target is written at its visit. *)
Definition written_in_order (visits : list (cmGeneratorTarget * string))
    : list event :=
  flat_map (fun tc => [EvBegin (visit_key tc); EvWritten (visit_key tc)])
           visits.

(** The ledger holds the keys [seen], all finished, with dependencies
    among [seen]. *)
Definition all_written (seen : list string)
    (m : gmap string cmFastbuildInfoTarget) : Prop :=
  forall k,
    (is_Some (m !! k) <-> k ∈ seen)
    /\ forall e,
         m !! k = Some e ->
         is_treated e = true
         /\ target_key (gt e) (config e) = k
         /\ forall d, d ∈ name_target_deps e -> d ∈ seen.

(** The diamond, dependencies first. *)
Definition diamond_in_order : list (cmGeneratorTarget * string) :=
  [ (dia_a, "Release"); (dia_b, "Release"); (dia_c, "Release");
    (dia_d, "Release") ].

(** Two shared libraries, each linking the import library of the
    other. *)
Definition cycle_a : cmGeneratorTarget :=
  sample_target "a" SHARED_LIBRARY "MSVC" ["out/b.lib"].

Definition cycle_b : cmGeneratorTarget :=
  sample_target "b" SHARED_LIBRARY "MSVC" ["out/a.lib"].

Definition cycle : list (cmGeneratorTarget * string) :=
  [ (cycle_a, "Release"); (cycle_b, "Release") ].

(** * Part II: properties *)

(** ** Strings *)

Lemma find_char_None_has c s : find_char c s = None <-> has_char c s = false.
Proof. unfold has_char. destruct (find_char c s); split; congruence. Qed.

Lemma rfind_char_None c s : rfind_char c s = None <-> find_char c s = None.
Proof.
  induction s as [|a s IH]; simpl; [done|].
  destruct (rfind_char c s) as [i|] eqn:Hr, (find_char c s) as [j|] eqn:Hf,
    (Ascii.eqb a c); simpl; split; try congruence; intros _.
  - destruct IH as [_ IH]. by specialize (IH eq_refl).
  - destruct IH as [IH _]. by specialize (IH eq_refl).
Qed.

Lemma has_separator_false s :
  has_separator s = false <->
  rfind_char slash s = None /\ rfind_char backslash s = None.
Proof.
  induction s as [|a s IH]; simpl; [done|].
  unfold is_separator. rewrite !orb_false_iff, IH.
  destruct (rfind_char slash s), (rfind_char backslash s),
    (Ascii.eqb a slash), (Ascii.eqb a backslash); naive_solver.
Qed.

Lemma substr_0_before_first_dot s i :
  find_char dot s = Some i -> substr 0 i s = before_first_dot s.
Proof.
  unfold substr. simpl. revert i.
  induction s as [|a s IH]; intros i; simpl; [done|].
  destruct (Ascii.eqb a dot); [by intros [= <-]|].
  destruct (find_char dot s) as [j|]; simpl; [|done].
  intros [= <-]. simpl. f_equal. by apply IH.
Qed.

Lemma before_first_dot_no_dot s :
  find_char dot s = None -> before_first_dot s = s.
Proof.
  induction s as [|a s IH]; simpl; [done|].
  destruct (Ascii.eqb a dot); [done|].
  destruct (find_char dot s); simpl; [done|]. intros _. f_equal. by apply IH.
Qed.

(** [GetNameFile] cuts at the first dot of what follows
    [component_start]. *)
Lemma GetNameFile_before_first_dot p :
  GetNameFile p = before_first_dot (substr_from (component_start p) p).
Proof.
  unfold GetNameFile.
  destruct (find_char dot _) as [i|] eqn:Hf.
  - by apply substr_0_before_first_dot.
  - symmetry. by apply before_first_dot_no_dot.
Qed.

(** With separators of one family only, [component_start] is the start
    of the last component. *)
Lemma component_one_family (c d : ascii) p :
  (forall a, is_separator a = Ascii.eqb a c || Ascii.eqb a d) ->
  rfind_char d p = None ->
  substr_from
    (match rfind_char c p with Some f => f + 1 | None => 0 end)%nat p
  = last_component p.
Proof.
  intros Hsep. induction p as [|a s IH]; simpl; [done|].
  destruct (rfind_char d s) as [j|] eqn:Hd; [done|].
  destruct (Ascii.eqb a d) eqn:Had; [done|]. intros _.
  specialize (IH eq_refl).
  assert (has_separator s = false <-> rfind_char c s = None) as Hs.
  { rewrite has_separator_false.
    assert (c = slash /\ d = backslash \/ c = backslash /\ d = slash)
      as [[-> ->]|[-> ->]]; [|naive_solver..].
    pose proof (Hsep c) as Hc. pose proof (Hsep d) as Hd'.
    pose proof (Hsep slash) as H1. pose proof (Hsep backslash) as H2.
    unfold is_separator in *.
    rewrite !Ascii.eqb_refl in *. simpl in *.
    rewrite orb_true_r in *.
    symmetry in H1, H2.
    apply orb_true_iff in Hc, Hd', H1, H2.
    rewrite !Ascii.eqb_eq in *.
    assert (slash <> backslash) by (by vm_compute).
    naive_solver. }
  destruct (rfind_char c s) as [i|] eqn:Hc.
  - destruct (has_separator s) eqn:Hhs; [|naive_solver].
    rewrite <- IH. by replace (S i + 1)%nat with (S (i + 1)) by lia.
  - destruct (has_separator s) eqn:Hhs; [naive_solver|].
    rewrite Hsep, Had, orb_false_r.
    by destruct (Ascii.eqb a c).
Qed.

Lemma component_start_last_component p :
  has_char slash p && has_char backslash p = false ->
  substr_from (component_start p) p = last_component p.
Proof.
  intros Hone. unfold component_start.
  destruct (rfind_char backslash p) as [f2|] eqn:H2.
  - destruct (rfind_char slash p) as [f1|] eqn:H1.
    + apply andb_false_iff in Hone as [Hone|Hone];
        apply find_char_None_has, rfind_char_None in Hone; congruence.
    + pose proof (component_one_family backslash slash p) as Hc.
      rewrite H2 in Hc. apply Hc; [|done].
      intros a. unfold is_separator. apply orb_comm.
  - pose proof (component_one_family slash backslash p) as Hc.
    destruct (rfind_char slash p); apply Hc; done.
Qed.

(** C8, as amended.  For a path that does not mix the two separator
    families, [GetNameFile] returns the last path component cut at its
    FIRST dot: of a component with several dots it keeps what is before
    the first one. *)
Theorem GetNameFile_first_dot (path : string) :
  has_char slash path && has_char backslash path = false ->
  GetNameFile path = before_first_dot (last_component path).
Proof.
  intros Hone. rewrite GetNameFile_before_first_dot.
  by rewrite component_start_last_component.
Qed.

Lemma GetNameFile_first_dot_witness :
  has_char slash "out/archive.tar.gz"
    && has_char backslash "out/archive.tar.gz" = false
  /\ GetNameFile "out/archive.tar.gz"
     = before_first_dot (last_component "out/archive.tar.gz").
Proof.
  split; [reflexivity|]. apply (GetNameFile_first_dot "out/archive.tar.gz").
  reflexivity.
Defined.

(** C8 as stated fails: the component [archive.tar.gz] without its final
    extension is [archive.tar], and [GetNameFile] answers [archive]. *)
Lemma GetNameFile_not_final_extension :
  base_name_spec "out/archive.tar.gz" = "archive.tar"
  /\ GetNameFile "out/archive.tar.gz" = "archive"
  /\ GetNameFile "out/archive.tar.gz" <> base_name_spec "out/archive.tar.gz".
Proof. repeat split. by vm_compute. Qed.

(** The two characterisations used above, on explicit decompositions. *)
Lemma before_first_dot_app stem rest :
  has_char dot stem = false ->
  before_first_dot (stem +:+ String dot rest) = stem.
Proof.
  induction stem as [|a s IH]; simpl; [done|].
  unfold has_char. simpl.
  destruct (Ascii.eqb a dot); [done|].
  destruct (find_char dot s) eqn:Hf; simpl; [done|].
  intros _. f_equal. apply IH. unfold has_char. by rewrite Hf.
Qed.

Lemma last_component_app dir sep name :
  is_separator sep = true -> has_separator name = false ->
  last_component (dir +:+ String sep name) = name.
Proof.
  intros Hsep Hname. induction dir as [|a s IH]; simpl.
  - by rewrite Hname, Hsep.
  - assert (has_separator (s +:+ String sep name) = true) as ->; [|done].
    clear IH. induction s as [|b s IH]; simpl.
    + by rewrite Hsep.
    + rewrite IH. apply orb_true_r.
Qed.

(** ** The readiness query *)

Lemma map_touch_registered fresh k m :
  is_Some (m !! k) -> map_touch fresh k m = m.
Proof. intros [e He]. unfold map_touch. by rewrite He. Qed.

(** C3, as amended.  On a key that has a ledger entry, [CanTreatTargetFB]
    answers true exactly when the outstanding count of the entry is not
    positive and the entry is not finished, and it leaves the ledger as
    it was. *)
Theorem CanTreatTargetFB_registered
    (fresh : cmFastbuildInfoTarget) (t : cmGeneratorTarget) (cfg : string)
    (m : gmap string cmFastbuildInfoTarget) (e : cmFastbuildInfoTarget) :
  m !! target_key t cfg = Some e ->
  ((CanTreatTargetFB fresh t cfg m).1 = true <->
     number_untrated_deps e <= 0 /\ is_treated e = false)
  /\ (CanTreatTargetFB fresh t cfg m).2 = m.
Proof.
  intros He. unfold CanTreatTargetFB, map_at. simpl. rewrite He. simpl.
  split.
  - rewrite negb_true_iff, orb_false_iff, Z.ltb_ge. done.
  - by apply map_touch_registered.
Qed.

Lemma CanTreatTargetFB_registered_witness :
  let m : gmap string cmFastbuildInfoTarget :=
    {[ target_key plugin "Release" := zero_entry ]} in
  m !! target_key plugin "Release" = Some zero_entry
  /\ (CanTreatTargetFB zero_entry plugin "Release" m).1 = true
  /\ (CanTreatTargetFB zero_entry plugin "Release" m).2 = m.
Proof.
  intros m.
  assert (m !! target_key plugin "Release" = Some zero_entry) as He
    by (by vm_compute).
  destruct (CanTreatTargetFB_registered zero_entry plugin "Release" m
              zero_entry He) as [Hiff Hm].
  split; [exact He|]. split; [|exact Hm].
  apply Hiff. by vm_compute.
Defined.

(** C3 as stated fails on a key that was never registered: the query
    adds an entry for it, whatever the value a new entry takes; and with
    a zero-initialised entry it answers true although no entry
    existed. *)
Lemma CanTreatTargetFB_unregistered :
  (forall fresh,
     (CanTreatTargetFB fresh plugin "Release" ∅).2
     = {[ target_key plugin "Release" := fresh ]}
     /\ (CanTreatTargetFB fresh plugin "Release" ∅).2 <> ∅)
  /\ (CanTreatTargetFB zero_entry plugin "Release" ∅).1 = true.
Proof.
  split; [|reflexivity]. intros fresh.
  assert ((CanTreatTargetFB fresh plugin "Release" ∅).2
          = {[ target_key plugin "Release" := fresh ]}) as Heq.
  { unfold CanTreatTargetFB, map_touch. simpl. by rewrite lookup_empty. }
  split; [done|]. rewrite Heq. apply insert_non_empty.
Qed.

(** ** Aliases of an executable *)

(** C9, as amended.  [WriteExecutableFB] asks once, whatever the build,
    for the per-target deps alias, and it asks for the canonical-name
    alias, pointing at the executable block and excluded from the
    default build, exactly when the compiler is MSVC in a
    single-configuration build, or the build is multi-configuration and
    the configuration is the default one.  Each of the two is recorded
    when the table holds no alias of its name yet, the deps alias being
    asked for first; an alias that is in the table stays as it is, no
    other name is recorded, and nothing but the alias table changes. *)
Theorem WriteExecutableFB_aliases
    (quotation : string) (t : cmGeneratorTarget) (cfg : string)
    (g : generator) :
  let g' := WriteExecutableFB quotation t cfg g in
  let deps_alias := deps_alias_of quotation t cfg (IsMultiConfig g) in
  let canonical := canonical_alias_of quotation t in
  let wanted := canonical_alias_wanted t cfg g in
  let deps_record :=
    {| Config := cfg;
       ListDeps := deps_list_of quotation t cfg g;
       ExcludeFromAll := false |} in
  let canonical_record :=
    {| Config := cfg;
       ListDeps :=
         Quote quotation (executable_name_of t cfg (IsMultiConfig g));
       ExcludeFromAll := true |} in
  (forall alias,
     TargetAliasesFB g' !! alias
     = match TargetAliasesFB g !! alias with
       | Some ta => Some ta
       | None =>
           if decide (alias = deps_alias) then Some deps_record
           else if wanted && bool_decide (alias = canonical)
           then Some canonical_record
           else None
       end)
  /\ TargetAliasesOrderedFB g'
     = TargetAliasesOrderedFB g
       ++ (if decide (TargetAliasesFB g !! deps_alias = None)
           then [deps_alias] else [])
       ++ (if wanted
              && bool_decide (TargetAliasesFB g !! canonical = None
                              /\ canonical <> deps_alias)
           then [canonical] else [])
  /\ MapFastbuildInfoTargets g' = MapFastbuildInfoTargets g
  /\ trace g' = trace g
  /\ errors g' = errors g.
Proof.
  intros g' deps_alias canonical wanted deps_record canonical_record.
  subst g' deps_alias canonical wanted deps_record canonical_record.
  unfold WriteExecutableFB, canonical_alias_wanted, deps_alias_of,
    canonical_alias_of, deps_list_of, executable_name_of in *.
  set (listDeps := (concat_quoted _ _ _ +:+ _)).
  set (da := Quote quotation
               (if IsMultiConfig g
                then GetShortOutputName t cfg +:+ "_exe_" +:+ cfg +:+ "_deps"
                else GetShortOutputName t cfg +:+ "_exe_deps")) in *.
  set (ca := Quote quotation (GetTargetName t)) in *.
  set (cr := {| Config := cfg; ListDeps := Quote quotation _;
                ExcludeFromAll := true |}).
  set (dr := {| Config := cfg; ListDeps := listDeps;
                ExcludeFromAll := false |}).
  set (g1 := AddTargetAliasFB da listDeps cfg false g).
  set (w := _ || _).
  assert ((forall alias,
             TargetAliasesFB g1 !! alias
             = match TargetAliasesFB g !! alias with
               | Some ta => Some ta
               | None => if decide (alias = da) then Some dr else None
               end)
          /\ TargetAliasesOrderedFB g1
             = TargetAliasesOrderedFB g
               ++ (if decide (TargetAliasesFB g !! da = None)
                   then [da] else [])
          /\ MapFastbuildInfoTargets g1 = MapFastbuildInfoTargets g
          /\ trace g1 = trace g
          /\ errors g1 = errors g) as (Ht1 & Ho1 & Hm1 & Htr1 & He1).
  { subst g1. unfold AddTargetAliasFB.
    destruct (TargetAliasesFB g !! da) as [r|] eqn:Hda.
    - rewrite decide_False by done. rewrite app_nil_r.
      split; [|done].
      intros alias. destruct (TargetAliasesFB g !! alias) eqn:Ha; [done|].
      rewrite decide_False; [done|]. intros ->. congruence.
    - rewrite decide_True by done. split; [|done].
      intros alias. cbn [set_aliases TargetAliasesFB].
      destruct (decide (alias = da)) as [->|Hne].
      + by rewrite lookup_insert_eq, Hda.
      + rewrite lookup_insert_ne by done.
        by destruct (TargetAliasesFB g !! alias). }
  destruct w.
  - cbn [andb]. unfold AddTargetAliasFB.
    destruct (TargetAliasesFB g1 !! ca) as [r|] eqn:Hca.
    + split_and!; try done.
      * intros alias. rewrite Ht1.
        destruct (TargetAliasesFB g !! alias) eqn:Ha; [done|].
        destruct (decide (alias = da)) as [->|Hne]; [done|].
        rewrite bool_decide_eq_false_2; [done|]. intros ->.
        rewrite Ht1, Ha in Hca. by rewrite decide_False in Hca.
      * rewrite Ho1, bool_decide_eq_false_2; [by rewrite app_nil_r|].
        intros [Hfree Hne]. rewrite Ht1, Hfree in Hca.
        by rewrite decide_False in Hca.
    + assert (TargetAliasesFB g !! ca = None /\ ca <> da) as [Hfree Hne].
      { rewrite Ht1 in Hca.
        destruct (TargetAliasesFB g !! ca) eqn:Ha; [done|].
        split; [done|]. intros Heq. by rewrite decide_True in Hca. }
      cbn [set_aliases TargetAliasesFB TargetAliasesOrderedFB
           MapFastbuildInfoTargets trace errors].
      split_and!; try done.
      * intros alias. destruct (decide (alias = ca)) as [->|Hnc].
        -- rewrite lookup_insert_eq, Hfree.
           rewrite decide_False by done.
           by rewrite bool_decide_eq_true_2.
        -- rewrite lookup_insert_ne by done. rewrite Ht1.
           destruct (TargetAliasesFB g !! alias); [done|].
           destruct (decide (alias = da)); [done|].
           by rewrite bool_decide_eq_false_2.
      * rewrite Ho1, bool_decide_eq_true_2 by done.
        by rewrite <- app_assoc.
  - cbn [andb]. rewrite app_nil_r. by split_and!.
Qed.

Lemma WriteExecutableFB_aliases_witness :
  let g1 := WriteExecutableFB apostrophe app_one "" (new_generator false "") in
  let g2 := WriteExecutableFB apostrophe app_two "" g1 in
  TargetAliasesOrderedFB g1 = ["'app_exe_deps'"; "'app1'"]
  /\ TargetAliasesOrderedFB g2 = ["'app_exe_deps'"; "'app1'"; "'app2'"]
  /\ TargetAliasesFB g2 !! "'app_exe_deps'"
     = Some {| Config := ""; ListDeps := "'app_exe'";
               ExcludeFromAll := false |}
  /\ TargetAliasesFB g2 !! "'app2'"
     = Some {| Config := ""; ListDeps := "'app_exe'";
               ExcludeFromAll := true |}.
Proof.
  intros g1 g2.
  destruct (WriteExecutableFB_aliases apostrophe app_one ""
              (new_generator false "")) as (_ & Ho1 & _).
  destruct (WriteExecutableFB_aliases apostrophe app_two "" g1)
    as (Ht2 & Ho2 & _).
  fold g1 in Ho1. fold g2 in Ht2, Ho2.
  split; [exact Ho1|]. split; [rewrite Ho2, Ho1; reflexivity|].
  split; [rewrite (Ht2 "'app_exe_deps'")|rewrite (Ht2 "'app2'")];
    reflexivity.
Defined.

(** C9 as stated fails: in a single-configuration build with the GNU
    compiler the executable gets its deps alias and no canonical-name
    alias. *)
Lemma WriteExecutableFB_no_canonical_alias :
  let g := new_generator false "" in
  let g' := WriteExecutableFB apostrophe app_gnu "" g in
  GetType app_gnu = EXECUTABLE
  /\ IsMultiConfig g = false
  /\ TargetAliasesOrderedFB g' = [deps_alias_of apostrophe app_gnu "" false]
  /\ TargetAliasesFB g' !! canonical_alias_of apostrophe app_gnu = None.
Proof. repeat split. Qed.

(** ** Library names *)

(** What holds of C10: a name is listed only for a dependency whose key
    has a ledger entry, and a dependency without one adds nothing. *)
Lemma GetNameTargetLibraries_registered g t multi cfg name :
  name ∈ GetNameTargetLibraries g t multi cfg ->
  exists dep,
    dep ∈ ComputeLinkDeps t cfg false
    /\ library_name_of (MapFastbuildInfoTargets g) (GetCompilerId t cfg)
         multi cfg dep = Some name
    /\ name <> EmptyString
    /\ is_Some
         (MapFastbuildInfoTargets g !!
            (if is_gcc_or_clang (GetCompilerId t cfg)
             then strip_lib (GetNameFile dep +:+ cfg)
             else GetNameFile dep +:+ cfg)).
Proof.
  unfold GetNameTargetLibraries, RemoveDuplicateName, sorted_keys.
  rewrite merge_sort_Permutation, elem_of_elements, elem_of_list_to_set.
  rewrite list_elem_of_omap. intros (dep & Hdep & Hname).
  exists dep. split; [done|]. split; [done|].
  unfold library_name_of in Hname.
  destruct (negb _ && _) eqn:Hc; [|done].
  apply andb_true_iff in Hc as [Hne Hreg].
  injection Hname as <-.
  apply bool_decide_eq_true in Hreg.
  split.
  - intros Heq. rewrite Heq in Hne. done.
  - by destruct (is_gcc_or_clang _).
Qed.

Lemma library_name_of_unregistered m id multi cfg dep :
  m !! (if is_gcc_or_clang id then strip_lib (GetNameFile dep +:+ cfg)
        else GetNameFile dep +:+ cfg) = None ->
  library_name_of m id multi cfg dep = None.
Proof.
  intros Hnone. unfold library_name_of.
  destruct (is_gcc_or_clang id); rewrite Hnone;
    rewrite bool_decide_eq_false_2, andb_false_r; try done;
    by intros [? ?].
Qed.

(** C10 fails on a manifest whose name holds [.so]: the test for
    [.so] comes before the test for [.manifest], the name is not empty,
    and the dependency is listed. *)
Theorem GetNameTargetLibraries_manifest_listed :
  let m : gmap string cmFastbuildInfoTarget :=
    AddFastbuildInfoTarget plugin [] "Release" ∅ in
  let g := set_ledger m (new_generator false "") in
  GetNameTargetLibrary "bin/plugin.so.manifest" false "Release"
  = "plugin.so_dll"
  /\ GetNameTargetLibraries g host false "Release" = ["plugin.so_dll"]
  /\ GetNameTargetLibrary "bin/plugin.dll.manifest" false "Release"
     = EmptyString.
Proof. repeat split. Qed.

(** ** Object lists *)

Lemma rfind_char_lt c s i : rfind_char c s = Some i -> (i < String.length s)%nat.
Proof.
  revert i. induction s as [|a s IH]; intros i; simpl; [done|].
  destruct (rfind_char c s) as [j|].
  - intros [= <-]. specialize (IH j eq_refl). lia.
  - destruct (Ascii.eqb a c); [|done]. intros [= <-]. lia.
Qed.

(** The prefix up to and including the last [c] has its last [c] at its
    end. *)
Lemma rfind_char_take c s i :
  rfind_char c s = Some i -> rfind_char c (str_take (i + 1) s) = Some i.
Proof.
  revert i. induction s as [|a s IH]; intros i; simpl; [done|].
  destruct (rfind_char c s) as [j|] eqn:Hj.
  - intros [= <-]. simpl. by rewrite (IH j eq_refl).
  - destruct (Ascii.eqb a c) eqn:Hac; [|done]. intros [= <-]. simpl.
    by rewrite Hac.
Qed.

Lemma str_take_take n s : str_take n (str_take n s) = str_take n s.
Proof.
  revert s. induction n as [|n IH]; intros [|a s]; simpl; try done.
  by rewrite IH.
Qed.

(** [GetPath] applied twice, as for the first object, is [GetPath]. *)
Lemma GetPath_idempotent p : GetPath (GetPath p) = GetPath p.
Proof.
  unfold GetPath, substr. simpl.
  destruct (rfind_char slash p) as [i|] eqn:Hi; [|done].
  rewrite (rfind_char_take _ _ _ Hi). apply str_take_take.
Qed.

Section ObjectListsFacts.

Variable ComputeFlagsForObject : cmSourceFile -> string.
Variable ComputeDefines : cmSourceFile -> string.
Variable ComputeIncludes : cmSourceFile -> string.
Variable compilerId : string.
Variable objectList_name : string.

Local Abbreviation options_of :=
  (compile_options ComputeFlagsForObject ComputeDefines ComputeIncludes
     compilerId).
Local Abbreviation key_of :=
  (group_key ComputeFlagsForObject ComputeDefines ComputeIncludes
     compilerId).
Local Abbreviation round :=
  (WriteObjectListsFB_round ComputeFlagsForObject ComputeDefines
     ComputeIncludes compilerId objectList_name).
Local Abbreviation WriteLists :=
  (WriteObjectListsFB ComputeFlagsForObject ComputeDefines ComputeIncludes
     compilerId objectList_name).
Local Abbreviation keyed_of :=
  (keyed ComputeFlagsForObject ComputeDefines ComputeIncludes compilerId).
Local Abbreviation invariant :=
  (loop_inv ComputeFlagsForObject ComputeDefines ComputeIncludes
     compilerId objectList_name).

Lemma neighbours_differ_snoc calls c :
  neighbours_differ calls ->
  (forall c0, last calls = Some c0 -> call_key c0 <> call_key c) ->
  neighbours_differ (calls ++ [c]).
Proof.
  intros Hn Hl i x y Hx Hy.
  destruct (decide (S i < length calls)%nat) as [Hlt|Hge].
  - rewrite lookup_app_l in Hx by lia. rewrite lookup_app_l in Hy by lia.
    by apply (Hn i).
  - assert (S i = length calls) as Hi.
    { apply lookup_lt_Some in Hy. rewrite length_app in Hy. simpl in Hy.
      lia. }
    rewrite lookup_app_l in Hx by lia.
    rewrite lookup_app_r in Hy by lia.
    replace (S i - length calls)%nat with 0%nat in Hy by lia.
    injection Hy as <-. apply Hl.
    rewrite last_lookup. rewrite <- Hi. simpl. done.
Qed.

Lemma keyed_snoc outs pre sf :
  keyed_of outs (pre ++ [sf])
  = keyed_of outs pre ++ [(key_of outs (length pre) sf, sf)].
Proof.
  unfold keyed. rewrite imap_app. simpl. do 4 f_equal. lia.
Qed.

Lemma round_differs outs (st : ObjectListsLoop) sf :
  bool_decide (compilerOptions st <> options_of sf)
  || bool_decide
       (output_object_path st
        <> GetPath (object_name_at outs (nbSourceFile st)))
  || bool_decide (GetExtension sf <> extension st)
  = bool_decide (loop_key st <> key_of outs (nbSourceFile st) sf).
Proof.
  unfold loop_key, group_key.
  destruct st as [co op ex ol nb ns wr]. simpl.
  apply Bool.eq_iff_eq_true.
  rewrite !orb_true_iff, !bool_decide_eq_true. split.
  - intros [[H|H]|H] Heq; injection Heq; congruence.
  - intros Hne.
    destruct (decide (co = options_of sf)) as [->|H1]; [|by left; left].
    destruct (decide (op = GetPath (object_name_at outs ns))) as [->|H2];
      [|by left; right].
    right. intros Heq. apply Hne. by rewrite Heq.
Qed.

Lemma loop_inv_init outs sources :
  invariant outs sources []
    (WriteObjectListsFB_init ComputeFlagsForObject ComputeDefines
       ComputeIncludes compilerId sources outs) [] [].
Proof.
  split; simpl; try done.
  intros _ sf Hsf. destruct sources as [|sf0 l]; simplify_eq/=.
  unfold loop_key, group_key. simpl. by rewrite GetPath_idempotent.
Qed.

Lemma loop_inv_round outs sources pre sf rest st parts cur :
  sources = pre ++ sf :: rest ->
  invariant outs sources pre st parts cur ->
  exists parts' cur',
    invariant outs sources (pre ++ [sf]) (round outs st sf) parts' cur'.
Proof.
  intros Hsrc [Hcount Hconcat Hparts Hopen Hkey Hne Hcur Hfirst Hnb Hlast
                 Hnum Hnames].
  pose proof (round_differs outs st sf) as Hd.
  unfold WriteObjectListsFB_round. rewrite Hd. clear Hd.
  rewrite Hcount.
  case_bool_decide as Hdiff.
  - (* the running group is closed, a new one starts *)
    assert (pre <> []) as Hpre.
    { intros ->. apply Hdiff. simpl.
      apply Hfirst; [done|]. by rewrite Hsrc. }
    exists (parts ++ [cur]), [(key_of outs (length pre) sf, sf)].
    split; simpl.
    + rewrite length_app. simpl. lia.
    + rewrite keyed_snoc, concat_app. simpl.
      rewrite app_nil_r, <- Hconcat. done.
    + apply Forall2_app; [done|]. constructor; [|done].
      split; simpl; [done|]. done.
    + done.
    + constructor; [|done]. done.
    + apply Forall_app. split; [done|]. constructor; [|done]. by apply Hcur.
    + done.
    + intros Hnil. by destruct pre.
    + apply neighbours_differ_snoc; [done|]. intros c0 Hc0. by apply Hlast.
    + intros c. rewrite last_snoc. intros [= <-].
      unfold call_key, loop_key in *. simpl. done.
    + rewrite length_app. simpl. lia.
    + intros i c Hic.
      destruct (decide (i < length (written st))%nat) as [Hlt|Hge].
      * rewrite lookup_app_l in Hic by done. by apply Hnames.
      * assert (i = length (written st)) as ->.
        { apply lookup_lt_Some in Hic. rewrite length_app in Hic.
          simpl in Hic. lia. }
        rewrite lookup_app_r in Hic by lia.
        rewrite Nat.sub_diag in Hic. injection Hic as <-. simpl.
        by rewrite Hnum.
  - (* the source joins the running group *)
    assert (loop_key st = key_of outs (length pre) sf) as Hsame.
    { destruct (decide (loop_key st = key_of outs (length pre) sf));
        [done|]. by destruct Hdiff. }
    exists parts, (cur ++ [(key_of outs (length pre) sf, sf)]).
    split; simpl.
    + rewrite length_app. simpl. lia.
    + rewrite keyed_snoc, app_assoc, Hconcat. done.
    + done.
    + rewrite fmap_app, Hopen. done.
    + apply Forall_app. split.
      * eapply Forall_impl; [exact Hkey|]. simpl. intros x ->.
        rewrite Hsame. done.
      * constructor; [|done]. done.
    + done.
    + intros _. by destruct cur.
    + intros Hnil. by destruct pre.
    + done.
    + intros c Hc. specialize (Hlast c Hc). rewrite Hsame in Hlast. done.
    + done.
    + done.
Qed.

Lemma loop_inv_fold outs sources pre rest :
  sources = pre ++ rest ->
  exists parts cur,
    invariant outs sources pre
      (foldl (round outs)
         (WriteObjectListsFB_init ComputeFlagsForObject ComputeDefines
            ComputeIncludes compilerId sources outs) pre)
      parts cur.
Proof.
  revert rest. induction pre as [|sf pre IH] using rev_ind; intros rest Hsrc.
  - exists [], []. apply loop_inv_init.
  - rewrite <- app_assoc in Hsrc. simpl in Hsrc.
    destruct (IH _ Hsrc) as (parts & cur & Hinv).
    rewrite foldl_snoc. by eapply loop_inv_round.
Qed.

Lemma round_same outs (st : ObjectListsLoop) sf :
  loop_key st = key_of outs (nbSourceFile st) sf ->
  round outs st sf
  = {| compilerOptions := compilerOptions st;
       output_object_path := output_object_path st;
       extension := extension st;
       objectList := objectList st ++ [quoted_path sf];
       nbObjectList := nbObjectList st;
       nbSourceFile := S (nbSourceFile st);
       written := written st |}.
Proof.
  intros Hk. unfold WriteObjectListsFB_round. rewrite round_differs.
  rewrite bool_decide_eq_false_2 by (by intros H; apply H).
  unfold loop_key, group_key in Hk. by injection Hk as <- <- <-.
Qed.

Lemma round_new outs (st : ObjectListsLoop) sf :
  loop_key st <> key_of outs (nbSourceFile st) sf ->
  round outs st sf
  = {| compilerOptions := options_of sf;
       output_object_path :=
         GetPath (object_name_at outs (nbSourceFile st));
       extension := GetExtension sf;
       objectList := [quoted_path sf];
       nbObjectList := nbObjectList st + 1;
       nbSourceFile := S (nbSourceFile st);
       written := written st ++ [flush_call objectList_name st] |}.
Proof.
  intros Hk. unfold WriteObjectListsFB_round. rewrite round_differs.
  by rewrite bool_decide_eq_true_2.
Qed.

(** C6.  The calls of [WriteObjectListFB] cut the source list, in its
    order, into runs: each call compiles one run, whose sources all have
    the options, the output directory and the extension of the call; no
    run is empty when there are sources; two calls in a row differ in
    options, directory or extension, so that a run ends exactly where
    one of the three changes; the calls are numbered from 1.  Four
    sources of which only the third differs give three calls, the
    fourth source not joining the first two. *)
Theorem WriteObjectListsFB_runs (sources : list cmSourceFile)
    (outs : list string) :
  (exists parts,
      concat parts = keyed_of outs sources
      /\ Forall2 call_of_part parts (WriteLists sources outs)
      /\ (sources <> [] -> Forall (fun part => part <> []) parts))
  /\ neighbours_differ (WriteLists sources outs)
  /\ (forall i c,
        WriteLists sources outs !! i = Some c ->
        under_objectList_name c
        = numbered_name objectList_name (Z.of_nat i + 1))
  /\ (forall s1 s2 s3 s4,
        sources = [s1; s2; s3; s4] ->
        key_of outs 1%nat s2 = key_of outs 0%nat s1 ->
        key_of outs 2%nat s3 <> key_of outs 0%nat s1 ->
        key_of outs 3%nat s4 = key_of outs 0%nat s1 ->
        CompilerInputFiles <$> WriteLists sources outs
        = [ [quoted_path s1; quoted_path s2];
            [quoted_path s3];
            [quoted_path s4] ]).
Proof.
  destruct (loop_inv_fold outs sources sources [])
    as (parts & cur & [Hcount Hconcat Hparts Hopen Hkey Hne Hcur Hfirst Hnb
                         Hlast Hnum Hnames]); [by rewrite app_nil_r|].
  unfold WriteObjectListsFB.
  set (st := foldl _ _ _) in *.
  repeat split.
  - exists (parts ++ [cur]). split; [|split].
    + rewrite concat_app. simpl. by rewrite app_nil_r.
    + apply Forall2_app; [done|]. constructor; [|done]. by split.
    + intros Hsrc. apply Forall_app. split; [done|].
      constructor; [|done]. by apply Hcur.
  - apply neighbours_differ_snoc; [done|]. intros c0 Hc0. by apply Hlast.
  - intros i c Hic.
    destruct (decide (i < length (written st))%nat) as [Hlt|Hge].
    + rewrite lookup_app_l in Hic by done. by apply Hnames.
    + assert (i = length (written st)) as ->.
      { apply lookup_lt_Some in Hic. rewrite length_app in Hic.
        simpl in Hic. lia. }
      rewrite lookup_app_r in Hic by lia.
      rewrite Nat.sub_diag in Hic. injection Hic as <-. simpl.
      by rewrite Hnum.
  - intros s1 s2 s3 s4 -> H2 H3 H4. subst st.
    clear Hcount Hconcat Hparts Hopen Hkey Hne Hcur Hfirst Hnb Hlast Hnum
      Hnames.
    cbn [foldl].
    assert (loop_key
              (WriteObjectListsFB_init ComputeFlagsForObject ComputeDefines
                 ComputeIncludes compilerId [s1; s2; s3; s4] outs)
            = key_of outs 0%nat s1) as H1.
    { unfold loop_key, group_key. simpl. by rewrite GetPath_idempotent. }
    rewrite (round_same _ _ s1) by done.
    rewrite (round_same _ _ s2)
      by (unfold loop_key, group_key in *; cbn in *; congruence).
    rewrite (round_new _ _ s3)
      by (unfold loop_key, group_key in *; cbn in *; congruence).
    rewrite (round_new _ _ s4)
      by (unfold loop_key, group_key in *; cbn in *; congruence).
    done.
Qed.

End ObjectListsFacts.

Lemma WriteObjectListsFB_runs_witness :
  CompilerInputFiles
    <$> WriteObjectListsFB sample_flags (fun _ => "") (fun _ => "") "GNU"
          "app_obj" sample_sources sample_objects
  = [ quoted_path <$> take 2 sample_sources;
      quoted_path <$> take 1 (drop 2 sample_sources);
      quoted_path <$> drop 3 sample_sources ].
Proof.
  destruct (WriteObjectListsFB_runs sample_flags (fun _ => "")
              (fun _ => "") "GNU" "app_obj" sample_sources sample_objects)
    as (_ & _ & _ & Hfour).
  apply Hfour; [reflexivity|reflexivity|by vm_compute|reflexivity].
Defined.


(** ** The ledger *)

Section LedgerFacts.

Variable fresh : cmFastbuildInfoTarget.

Lemma map_at_registered k m e : m !! k = Some e -> map_at fresh k m = e.
Proof. intros H. unfold map_at. by rewrite H. Qed.

Lemma map_set_registered f k m e :
  m !! k = Some e -> map_set fresh f k m = <[k := f e]> m.
Proof. intros H. unfold map_set. by rewrite (map_at_registered _ _ _ H). Qed.

Lemma set_number_untrated_deps_id e :
  set_number_untrated_deps (number_untrated_deps e) e = e.
Proof. by destruct e. Qed.

(** A loop that decrements the count of [k] once for every element of
    [deps] that passes a test. *)
Lemma foldl_decrement (P : string -> Prop) `{!forall d, Decision (P d)}
    k deps m e :
  m !! k = Some e ->
  foldl (fun m d => if decide (P d) then map_set fresh decrement k m else m)
        m deps
  = <[k := set_number_untrated_deps
             (number_untrated_deps e - Z.of_nat (length (filter P deps)))
             e]> m.
Proof.
  revert m e. induction deps as [|d deps IH]; intros m e He; simpl.
  - rewrite Z.sub_0_r, set_number_untrated_deps_id. by rewrite insert_id.
  - rewrite filter_cons. destruct (decide (P d)) as [Hd|Hd].
    + rewrite (map_set_registered _ _ _ _ He).
      rewrite (IH _ (decrement e)) by apply lookup_insert_eq.
      rewrite insert_insert_eq. f_equal.
      unfold decrement, set_number_untrated_deps. simpl. f_equal. lia.
    + by apply IH.
Qed.

Lemma GetNumberUntratedDepsTarget_need m k deps :
  GetNumberUntratedDepsTarget m k deps = need false m k deps.
Proof.
  unfold GetNumberUntratedDepsTarget, need.
  assert (forall acc,
    foldl
      (fun numberDepsTarget name_target =>
         if decide (name_target = k) then numberDepsTarget
         else match m !! name_target with
              | Some e =>
                  if is_treated e then numberDepsTarget
                  else numberDepsTarget + 1
              | None => numberDepsTarget + 1
              end) acc deps
    = acc + Z.of_nat
              (length (filter (fun d => d <> k /\ blocks false m d = true)
                         deps))) as H; [|by rewrite H].
  induction deps as [|d deps IH]; intros acc; simpl; [lia|].
  rewrite IH, filter_cons.
  destruct (decide (d <> k /\ blocks false m d = true)) as [[H1 H2]|H];
    unfold blocks in *; simpl.
  - rewrite decide_False by done.
    destruct (m !! d) as [e|]; [destruct (is_treated e)|]; simpl in *;
      try done; lia.
  - destruct (decide (d = k)) as [->|Hne]; [done|].
    destruct (m !! d) as [e|]; [destruct (is_treated e)|]; simpl in *;
      try done; by destruct H.
Qed.

Lemma CanTreatTargetFB_at t cfg m e :
  m !! target_key t cfg = Some e ->
  CanTreatTargetFB fresh t cfg m
  = (bool_decide (number_untrated_deps e <= 0) && negb (is_treated e), m).
Proof.
  intros He. unfold CanTreatTargetFB.
  rewrite (map_at_registered _ _ _ He), map_touch_registered by done.
  f_equal. rewrite negb_orb. f_equal.
  case_bool_decide; [apply negb_true_iff, Z.ltb_ge|apply negb_false_iff,
    Z.ltb_lt]; lia.
Qed.

End LedgerFacts.

(** ** Loops *)

Lemma for_each_inv {A S : Type} (body : S -> A -> option S)
    (P : list A -> S -> Prop) l s s' :
  (forall x rest s s', P (x :: rest) s -> body s x = Some s' -> P rest s') ->
  P l s -> for_each body l s = Some s' -> P [] s'.
Proof.
  intros Hstep. revert s. induction l as [|x l IH]; intros s HP; simpl.
  - by intros [= <-].
  - destruct (body s x) as [s1|] eqn:Hb; [|done].
    intros Hrest. eapply IH; [|done]. by eapply Hstep.
Qed.

Lemma for_each_total {A S : Type} (body : S -> A -> option S)
    (P : list A -> S -> Prop) l s :
  (forall x rest s,
      P (x :: rest) s -> exists s', body s x = Some s' /\ P rest s') ->
  P l s -> exists s', for_each body l s = Some s' /\ P [] s'.
Proof.
  intros Hstep. revert s. induction l as [|x l IH]; intros s HP; simpl.
  - by exists s.
  - destruct (Hstep _ _ _ HP) as (s1 & -> & HP1). by apply IH.
Qed.

Lemma for_each_app {A S : Type} (body : S -> A -> option S) l1 l2 s :
  for_each body (l1 ++ l2) s
  = match for_each body l1 s with
    | Some s1 => for_each body l2 s1
    | None => None
    end.
Proof.
  revert s. induction l1 as [|x l1 IH]; intros s; simpl; [done|].
  destruct (body s x); [apply IH|done].
Qed.

Lemma sorted_keys_elem_of X k : k ∈ sorted_keys X <-> k ∈ X.
Proof.
  unfold sorted_keys. by rewrite merge_sort_Permutation, elem_of_elements.
Qed.

Lemma sorted_keys_NoDup X : NoDup (sorted_keys X).
Proof.
  unfold sorted_keys. rewrite merge_sort_Permutation. apply NoDup_elements.
Qed.

Lemma RemoveDuplicateName_NoDup l : NoDup (RemoveDuplicateName l).
Proof. apply sorted_keys_NoDup. Qed.

Lemma RemoveDuplicateName_elem_of l x : x ∈ RemoveDuplicateName l <-> x ∈ l.
Proof.
  unfold RemoveDuplicateName.
  by rewrite sorted_keys_elem_of, elem_of_list_to_set.
Qed.

(** ** What holds a dependent back *)

Lemma need_nonneg swept m k deps : 0 <= need swept m k deps.
Proof. unfold need. lia. Qed.

Lemma occurrences_nonneg k deps : 0 <= occurrences k deps.
Proof. unfold occurrences. lia. Qed.

Lemma need_ext swept swept' m m' k deps :
  (forall d, d ∈ deps -> d <> k -> blocks swept m d = blocks swept' m' d) ->
  need swept m k deps = need swept' m' k deps.
Proof.
  intros H. unfold need. do 2 f_equal.
  induction deps as [|d deps IH]; [done|].
  rewrite !filter_cons.
  rewrite IH by (intros; apply H; [by right|done]).
  destruct (decide (d = k)) as [->|Hne].
  - rewrite !decide_False by naive_solver. done.
  - rewrite <- (H d) by (by left || done).
    destruct (blocks swept m d).
    + by rewrite !decide_True.
    + by rewrite !decide_False by naive_solver.
Qed.

Lemma need_zero swept m k deps d :
  need swept m k deps <= 0 -> d ∈ deps -> d <> k ->
  blocks swept m d = false.
Proof.
  unfold need. intros Hz Hd Hne.
  destruct (blocks swept m d) eqn:Hb; [|done].
  assert (d ∈ filter (fun d => d <> k /\ blocks swept m d = true) deps)
    as Hin by (by apply list_elem_of_filter).
  destruct (filter _ deps); [by apply elem_of_nil in Hin|]. simpl in Hz. lia.
Qed.

(** Finishing [T] takes its occurrences out of what holds [k] back. *)
Lemma need_finish swept m T eT eT' k deps :
  m !! T = Some eT -> is_treated eT = false -> is_treated eT' = true ->
  k <> T ->
  need swept m k deps
  = need swept (<[T := eT']> m) k deps + occurrences T deps.
Proof.
  intros HT Hun Htr Hne. unfold need, occurrences.
  rewrite <- Nat2Z.inj_add. f_equal.
  induction deps as [|d deps IH]; [done|].
  rewrite !filter_cons. unfold blocks in *.
  destruct (decide (T = d)) as [<-|HTd].
  - rewrite lookup_insert_eq, HT, Hun, Htr. simpl.
    rewrite decide_True by done.
    rewrite decide_False by naive_solver. simpl. lia.
  - rewrite lookup_insert_ne by done.
    destruct (decide (d <> k /\ _)); simpl; lia.
Qed.

(** ** Frames *)

Lemma set_ledger_same g : set_ledger (MapFastbuildInfoTargets g) g = g.
Proof. by destruct g. Qed.

Lemma AddTargetAliasFB_frame alias listDeps cfg excl g :
  MapFastbuildInfoTargets (AddTargetAliasFB alias listDeps cfg excl g)
  = MapFastbuildInfoTargets g
  /\ trace (AddTargetAliasFB alias listDeps cfg excl g) = trace g
  /\ errors (AddTargetAliasFB alias listDeps cfg excl g) = errors g
  /\ IsMultiConfig (AddTargetAliasFB alias listDeps cfg excl g)
     = IsMultiConfig g
  /\ GetDefaultFileConfig (AddTargetAliasFB alias listDeps cfg excl g)
     = GetDefaultFileConfig g.
Proof. unfold AddTargetAliasFB. by destruct (_ !! _). Qed.

(** The blocks of a target touch neither the ledger nor the log. *)
Lemma WriteTargetBlocksFB_frame quotation t cfg g :
  MapFastbuildInfoTargets (WriteTargetBlocksFB quotation t cfg g)
  = MapFastbuildInfoTargets g
  /\ trace (WriteTargetBlocksFB quotation t cfg g) = trace g
  /\ errors (WriteTargetBlocksFB quotation t cfg g) = errors g.
Proof.
  assert (forall g1 g2 : generator,
    (MapFastbuildInfoTargets g1 = MapFastbuildInfoTargets g2
     /\ trace g1 = trace g2 /\ errors g1 = errors g2
     /\ IsMultiConfig g1 = IsMultiConfig g2
     /\ GetDefaultFileConfig g1 = GetDefaultFileConfig g2) ->
    MapFastbuildInfoTargets g1 = MapFastbuildInfoTargets g2
    /\ trace g1 = trace g2 /\ errors g1 = errors g2) as Hweak
    by naive_solver.
  assert (forall alias listDeps cfg excl g0 g1,
    (MapFastbuildInfoTargets g0 = MapFastbuildInfoTargets g1
     /\ trace g0 = trace g1 /\ errors g0 = errors g1
     /\ IsMultiConfig g0 = IsMultiConfig g1
     /\ GetDefaultFileConfig g0 = GetDefaultFileConfig g1) ->
    MapFastbuildInfoTargets (AddTargetAliasFB alias listDeps cfg excl g0)
    = MapFastbuildInfoTargets g1
    /\ trace (AddTargetAliasFB alias listDeps cfg excl g0) = trace g1
    /\ errors (AddTargetAliasFB alias listDeps cfg excl g0) = errors g1
    /\ IsMultiConfig (AddTargetAliasFB alias listDeps cfg excl g0)
       = IsMultiConfig g1
    /\ GetDefaultFileConfig (AddTargetAliasFB alias listDeps cfg excl g0)
       = GetDefaultFileConfig g1) as Hadd.
  { intros alias listDeps cfg0 excl g0 g1 (? & ? & ? & ? & ?).
    destruct (AddTargetAliasFB_frame alias listDeps cfg0 excl g0)
      as (? & ? & ? & ? & ?). repeat split; congruence. }
  apply Hweak.
  unfold WriteTargetBlocksFB, WriteDLLFB, WriteLibraryFB, WriteExecutableFB,
    WriteObjectListsFB_alias.
  repeat (first [ apply Hadd | done
                | match goal with
                  | |- context [match ?x with _ => _ end] => destruct x
                  end ]).
Qed.

(** ** Updating an entry in place *)

Lemma evolves_refl m : evolves m m.
Proof. intros k e He. by exists e. Qed.

Lemma evolves_trans m1 m2 m3 : evolves m1 m2 -> evolves m2 m3 -> evolves m1 m3.
Proof.
  intros H12 H23 k e He.
  destruct (H12 k e He) as (e2 & He2 & ? & ? & ? & ?).
  destruct (H23 k e2 He2) as (e3 & He3 & ? & ? & ? & ?).
  exists e3. repeat split; try congruence. auto.
Qed.

Lemma evolves_update m k e e' :
  m !! k = Some e -> gt e' = gt e -> config e' = config e ->
  name_target_deps e' = name_target_deps e ->
  (is_treated e = true -> is_treated e' = true) ->
  evolves m (<[k := e']> m).
Proof.
  intros He Hg Hc Hd Ht k0 e0 He0.
  destruct (decide (k0 = k)) as [->|Hne].
  - exists e'. rewrite lookup_insert_eq. by simplify_eq.
  - exists e0. by rewrite lookup_insert_ne.
Qed.

Lemma evolves_treated m m' k : evolves m m' -> treated m k -> treated m' k.
Proof.
  intros Hev (e & He & Ht).
  destruct (Hev k e He) as (e' & He' & _ & _ & _ & Ht'). exists e'. auto.
Qed.

Lemma cascade_post_refl g : cascade_post g g.
Proof.
  split; [apply evolves_refl|done|]. exists []. by rewrite app_nil_r.
Qed.

Lemma cascade_post_trans g1 g2 g3 :
  cascade_post g1 g2 -> cascade_post g2 g3 -> cascade_post g1 g3.
Proof.
  intros [E1 D1 [n1 T1]] [E2 D2 [n2 T2]]. split.
  - by eapply evolves_trans.
  - auto.
  - exists (n1 ++ n2). by rewrite T2, T1, app_assoc.
Qed.

Lemma is_Some_insert_registered (m : gmap string cmFastbuildInfoTarget)
    k e k0 :
  is_Some (m !! k) -> is_Some (<[k := e]> m !! k0) <-> is_Some (m !! k0).
Proof.
  intros Hk. destruct (decide (k0 = k)) as [->|Hne].
  - rewrite lookup_insert_eq. naive_solver.
  - by rewrite lookup_insert_ne.
Qed.

Lemma blocks_update swept m k e e' d :
  m !! k = Some e -> is_treated e' = is_treated e ->
  blocks swept (<[k := e']> m) d = blocks swept m d.
Proof.
  intros He Ht. unfold blocks. destruct (decide (d = k)) as [->|Hne].
  - by rewrite lookup_insert_eq, He, Ht.
  - by rewrite lookup_insert_ne.
Qed.

Lemma treated_update m k e e' k0 :
  m !! k = Some e -> is_treated e' = is_treated e ->
  treated (<[k := e']> m) k0 <-> treated m k0.
Proof.
  intros He Ht. unfold treated. destruct (decide (k0 = k)) as [->|Hne].
  - rewrite lookup_insert_eq, He. split; intros (x & [= <-] & ?).
    + exists e. split; [done|congruence].
    + exists e'. split; [done|congruence].
  - by rewrite lookup_insert_ne.
Qed.

Lemma ledger_wf_update m k e e' :
  ledger_wf m -> m !! k = Some e -> gt e' = gt e -> config e' = config e ->
  name_target_deps e' = name_target_deps e ->
  ledger_wf (<[k := e']> m).
Proof.
  intros Hwf He Hg Hc Hd k0 e0. destruct (decide (k0 = k)) as [->|Hne].
  - rewrite lookup_insert_eq. intros [= <-]. rewrite Hg, Hc, Hd.
    by apply Hwf.
  - rewrite lookup_insert_ne by done. apply Hwf.
Qed.

Lemma trace_ok_update swept m tr k e e' :
  trace_ok swept m tr -> m !! k = Some e ->
  is_treated e' = is_treated e ->
  name_target_deps e' = name_target_deps e ->
  trace_ok swept (<[k := e']> m) tr.
Proof.
  intros [Hnd Hw Hc Hb Ho] He Ht Hd. split; try done.
  - intros k0. by rewrite (treated_update _ _ _ _ _ He Ht).
  - intros j a ea d Hj Ha Hin Hne Hsw.
    assert (is_Some (m !! k)) as Hk by done.
    rewrite (is_Some_insert_registered _ _ _ _ Hk) in Hsw.
    destruct (decide (a = k)) as [->|Hak].
    + rewrite lookup_insert_eq in Ha. injection Ha as <-.
      rewrite Hd in Hin. by eapply (Ho j k e d).
    + rewrite lookup_insert_ne in Ha by done. by eapply Ho.
Qed.

(** The visit of [k] by [TargetTreatedFinish] pays the debt of [k]. *)
Lemma scheduler_inv_pay swept debt T k rest g fit :
  k ∉ rest ->
  MapFastbuildInfoTargets g !! k = Some fit ->
  scheduler_inv swept (add_debt debt T (k :: rest)) g ->
  scheduler_inv swept (add_debt debt T rest)
    (set_ledger
       (<[k := set_number_untrated_deps
                 (number_untrated_deps fit
                  - Z.of_nat
                      (length (filter (fun d => T = d)
                                 (name_target_deps fit))))
                 fit]> (MapFastbuildInfoTargets g)) g).
Proof.
  intros Hk Hfit [Hwf Hcnt Htr].
  set (fit' := set_number_untrated_deps _ fit).
  assert (forall k0 ds,
    need swept (<[k := fit']> (MapFastbuildInfoTargets g)) k0 ds
    = need swept (MapFastbuildInfoTargets g) k0 ds) as Hneed.
  { intros k0 ds. apply need_ext. intros d _ _. by eapply blocks_update. }
  split; simpl.
  - by eapply ledger_wf_update.
  - intros k0 e0 He0 Hun. rewrite Hneed.
    destruct (decide (k0 = k)) as [->|Hne].
    + rewrite lookup_insert_eq in He0. injection He0 as <-. simpl in *.
      rewrite (Hcnt k fit Hfit Hun). unfold add_debt.
      rewrite decide_True by left. rewrite decide_False by done.
      unfold occurrences. lia.
    + rewrite lookup_insert_ne in He0 by done.
      rewrite (Hcnt k0 e0 He0 Hun). unfold add_debt.
      f_equal. f_equal.
      destruct (decide (k0 ∈ k :: rest)) as [Hin|Hin],
        (decide (k0 ∈ rest)) as [Hin'|Hin']; try done.
      * apply elem_of_cons in Hin as [?|?]; done.
      * destruct Hin. by right.
  - by eapply trace_ok_update.
Qed.

(** ** The completion cascade *)

Section Cascade.

Variable fresh : cmFastbuildInfoTarget.
Variable quotation : string.

Lemma generate_post_cascade t cfg g g' :
  is_Some (MapFastbuildInfoTargets g !! target_key t cfg) ->
  generate_post t cfg g g' -> cascade_post g g'.
Proof.
  intros Hreg [Hev Hdom _ Htr _]. split; [done| |done].
  intros k Hk. destruct (Hdom k Hk) as [?|[-> _]]; done.
Qed.

Lemma TargetTreatedFinish_step_sound Gen swept debt T k rest g g' :
  Gen_ok Gen -> debt_nonneg debt ->
  k ∉ rest -> is_Some (MapFastbuildInfoTargets g !! k) ->
  scheduler_inv swept (add_debt debt T (k :: rest)) g ->
  TargetTreatedFinish_step fresh Gen T g k = Some g' ->
  scheduler_inv swept (add_debt debt T rest) g' /\ cascade_post g g'.
Proof.
  intros HGen Hdebt Hk [fit Hfit] Hinv.
  unfold TargetTreatedFinish_step. rewrite Hfit.
  rewrite (foldl_decrement fresh (fun d => T = d) k _ _ fit Hfit).
  pose proof (scheduler_inv_pay swept debt T k rest g fit Hk Hfit Hinv)
    as Hinv1.
  set (fit' := set_number_untrated_deps _ fit) in *.
  set (m1 := <[k := fit']> (MapFastbuildInfoTargets g)) in *.
  assert (m1 !! k = Some fit') as Hfit' by apply lookup_insert_eq.
  rewrite (map_at_registered fresh k m1 fit' Hfit').
  assert (target_key (gt fit) (config fit) = k) as Hkey.
  { by destruct (inv_wf _ _ _ Hinv k fit Hfit). }
  assert (cascade_post g (set_ledger m1 g)) as Hc1.
  { split; simpl.
    - by eapply evolves_update.
    - intros k0. subst m1. rewrite is_Some_insert_registered; done.
    - exists []. by rewrite app_nil_r. }
  change (config fit') with (config fit).
  rewrite (CanTreatTargetFB_at fresh (gt fit) (config fit) m1 fit')
    by (by rewrite Hkey).
  destruct (_ && _).
  - rewrite (map_at_registered fresh k m1 fit' Hfit').
    change (config fit') with (config fit).
    change (gt fit') with (gt fit).
    intros HG.
    assert (debt_nonneg (add_debt debt T rest)) as Hd1.
    { intros k0 ds. unfold add_debt. specialize (Hdebt k0 ds).
      pose proof (occurrences_nonneg T ds). case_decide; lia. }
    assert (is_Some (MapFastbuildInfoTargets (set_ledger m1 g)
                       !! target_key (gt fit) (config fit))) as Hreg.
    { rewrite Hkey. change (is_Some (m1 !! k)). by rewrite Hfit'. }
    destruct (HGen swept _ _ _ _ _ Hd1 Hinv1 Hreg HG) as [Hinv' Hpost].
    split; [done|]. eapply cascade_post_trans; [exact Hc1|].
    by eapply generate_post_cascade.
  - by intros [= <-].
Qed.

(** The whole loop of [TargetTreatedFinish], from the keys [rest] on. *)
Lemma TargetTreatedFinish_loop_sound Gen swept debt T rest g g' :
  Gen_ok Gen -> debt_nonneg debt ->
  NoDup rest ->
  (forall k, k ∈ rest -> is_Some (MapFastbuildInfoTargets g !! k)) ->
  scheduler_inv swept (add_debt debt T rest) g ->
  for_each (TargetTreatedFinish_step fresh Gen T) rest g = Some g' ->
  scheduler_inv swept debt g' /\ cascade_post g g'.
Proof.
  intros HGen Hdebt Hnd Hreg Hinv Hloop.
  pose (P := fun (l : list string) (s : generator) =>
    NoDup l
    /\ (forall k, k ∈ l -> is_Some (MapFastbuildInfoTargets s !! k))
    /\ scheduler_inv swept (add_debt debt T l) s
    /\ cascade_post g s).
  assert (P [] g') as (_ & _ & Hinv' & Hpost).
  { eapply (for_each_inv _ P); [|split_and!; [done..|]|exact Hloop].
    - intros k l s s' (Hnd1 & Hreg1 & Hinv1 & Hc1) Hstep.
      apply NoDup_cons in Hnd1 as [Hk Hnd1].
      destruct (TargetTreatedFinish_step_sound Gen swept debt T k l s s')
        as [Hinv2 Hc2]; try done.
      { apply Hreg1. by left. }
      split_and!; try done.
      + intros k0 Hk0.
        destruct (Hreg1 k0) as [e He]; [by right|].
        destruct (casc_evolves _ _ Hc2 k0 e He) as (e' & -> & _). done.
      + by eapply cascade_post_trans.
    - apply cascade_post_refl. }
  split; [|done].
  destruct Hinv' as [Hwf Hcnt Htr]. split; try done.
  intros k e He Hun. rewrite (Hcnt k e He Hun). unfold add_debt.
  rewrite decide_False by apply not_elem_of_nil. lia.
Qed.

(** Logging the two marks of [T] and finishing its entry, before the
    loop over the entries starts. *)
Lemma scheduler_inv_finish swept debt T e g tr' rest :
  debt_nonneg debt -> scheduler_inv swept debt g ->
  MapFastbuildInfoTargets g !! T = Some e ->
  is_treated e = false -> number_untrated_deps e <= 0 ->
  tr' = trace g ++ [EvBegin T; EvWritten T] ->
  (forall k, is_Some (MapFastbuildInfoTargets g !! k) -> k ∈ rest) ->
  forall g4,
    MapFastbuildInfoTargets g4
    = <[T := set_is_treated true e]> (MapFastbuildInfoTargets g) ->
    trace g4 = tr' ->
    scheduler_inv swept (add_debt debt T rest) g4.
Proof.
  intros Hdebt [Hwf Hcnt [Hnd Hw Hc Hb Ho]] He Hun Hcount -> Hrest g4 Hm4
    Htr4.
  assert (EvWritten T ∉ trace g) as HnW.
  { rewrite Hw. intros (x & Hx & Hxt). congruence. }
  assert (EvBegin T ∉ trace g) as HnB by (intros HB; by apply HnW, Hc).
  assert (forall k, k <> T ->
            treated (<[T := set_is_treated true e]>
                       (MapFastbuildInfoTargets g)) k
            <-> treated (MapFastbuildInfoTargets g) k) as Htreated.
  { intros k Hk. unfold treated. by rewrite lookup_insert_ne. }
  split; rewrite ?Hm4, ?Htr4.
  - by eapply ledger_wf_update.
  - intros k0 e0 He0 Hun0.
    assert (k0 <> T) as Hne.
    { intros ->. rewrite lookup_insert_eq in He0. by injection He0 as <-. }
    rewrite lookup_insert_ne in He0 by done.
    rewrite (Hcnt k0 e0 He0 Hun0).
    rewrite (need_finish swept _ T e (set_is_treated true e) k0) by done.
    unfold add_debt. rewrite decide_True by (by apply Hrest). lia.
  - split.
    + apply NoDup_app. split; [done|]. split.
      * intros ev Hev Hin.
        apply elem_of_cons in Hin as [->|Hin]; [done|].
        apply elem_of_cons in Hin as [->|Hin]; [done|].
        by apply elem_of_nil in Hin.
      * apply NoDup_cons. split; [|apply NoDup_singleton].
        intros Hin. apply list_elem_of_singleton in Hin. done.
    + intros k. rewrite elem_of_app, !elem_of_cons, elem_of_nil.
      destruct (decide (k = T)) as [->|Hk].
      * split; [|naive_solver]. intros _.
        exists (set_is_treated true e). by rewrite lookup_insert_eq.
      * rewrite Htreated by done. rewrite <- Hw. naive_solver.
    + intros k. rewrite !elem_of_app, !elem_of_cons, !elem_of_nil.
      intros [Hin|[[= ->]|[?|[]]]]; [left; by apply Hc|naive_solver|done].
    + intros j k Hj.
      destruct (decide (j < length (trace g))%nat) as [Hlt|Hge].
      * rewrite lookup_app_l in Hj by done.
        destruct (Hb j k Hj) as (i & Hi & Hti). exists i. split; [done|].
        rewrite lookup_app_l by lia. done.
      * rewrite lookup_app_r in Hj by lia.
        destruct (j - length (trace g))%nat as [|[|n]] eqn:Hjn;
          simpl in Hj; try done.
        injection Hj as <-. exists (length (trace g)). split; [lia|].
        rewrite lookup_app_r by lia. by rewrite Nat.sub_diag.
    + intros j a ea d Hj Ha Hin Hne Hsw.
      assert (is_Some (MapFastbuildInfoTargets g !! T)) as HT by done.
      rewrite (is_Some_insert_registered _ _ _ _ HT) in Hsw.
      destruct (decide (j < length (trace g))%nat) as [Hlt|Hge].
      * rewrite lookup_app_l in Hj by done.
        assert (a <> T) as HaT.
        { intros ->. apply HnB. by eapply list_elem_of_lookup_2. }
        rewrite lookup_insert_ne in Ha by done.
        destruct (Ho j a ea d Hj Ha Hin Hne Hsw) as (i & Hi & Hti).
        exists i. split; [done|]. rewrite lookup_app_l by lia. done.
      * rewrite lookup_app_r in Hj by lia.
        destruct (j - length (trace g))%nat as [|[|n]] eqn:Hjn;
          simpl in Hj; try done.
        injection Hj as <-.
        rewrite lookup_insert_eq in Ha. injection Ha as <-. simpl in Hin.
        pose proof (Hcnt T e He Hun) as Hc0.
        pose proof (Hdebt T (name_target_deps e)).
        pose proof (need_nonneg swept (MapFastbuildInfoTargets g) T
                      (name_target_deps e)).
        assert (blocks swept (MapFastbuildInfoTargets g) d = false) as Hbl.
        { eapply need_zero; [|done..]. lia. }
        assert (treated (MapFastbuildInfoTargets g) d) as Htd.
        { unfold blocks in Hbl.
          destruct (MapFastbuildInfoTargets g !! d) as [ed|] eqn:Hd.
          - exists ed. split; [done|]. by apply negb_false_iff.
          - apply negb_false_iff in Hbl. destruct (Hsw Hbl) as [? ?]. done. }
        apply Hw, list_elem_of_lookup in Htd as [i Hi].
        exists i. split.
        -- apply lookup_lt_Some in Hi. lia.
        -- rewrite lookup_app_l; [done|]. by eapply lookup_lt_Some.
Qed.

Lemma WriteTargetFB_sound Gen swept debt t cfg g g' e :
  Gen_ok Gen -> debt_nonneg debt -> scheduler_inv swept debt g ->
  MapFastbuildInfoTargets g !! target_key t cfg = Some e ->
  is_treated e = false -> number_untrated_deps e <= 0 ->
  WriteTargetFB fresh quotation Gen t cfg g = Some g' ->
  scheduler_inv swept debt g'
  /\ cascade_post g g'
  /\ treated (MapFastbuildInfoTargets g') (target_key t cfg)
  /\ EvBegin (target_key t cfg) ∈ trace g'
  /\ (EvBegin (target_key t cfg) ∉ trace g).
Proof.
  intros HGen Hdebt Hinv He Hun Hcount.
  unfold WriteTargetFB, TargetTreatedFinish.
  set (T := target_key t cfg) in *.
  set (g3 := log (EvWritten T) (WriteTargetBlocksFB quotation t cfg
                                  (log (EvBegin T) g))).
  destruct (WriteTargetBlocksFB_frame quotation t cfg (log (EvBegin T) g))
    as (Hm & Htr & _).
  assert (MapFastbuildInfoTargets g3 = MapFastbuildInfoTargets g) as Hm3
    by exact Hm.
  assert (trace g3 = trace g ++ [EvBegin T; EvWritten T]) as Htr3.
  { subst g3. simpl. rewrite Htr. simpl. by rewrite <- app_assoc. }
  rewrite Hm3, (map_set_registered fresh _ T _ e He).
  set (m4 := <[T := set_is_treated true e]> (MapFastbuildInfoTargets g)).
  set (g4 := set_ledger m4 g3).
  intros Hloop.
  assert (scheduler_inv swept
            (add_debt debt T (sorted_keys (dom m4))) g4) as Hinv4.
  { eapply (scheduler_inv_finish swept debt T e g); try done.
    intros k Hk. apply sorted_keys_elem_of, elem_of_dom. subst m4.
    rewrite is_Some_insert_registered; done. }
  destruct (TargetTreatedFinish_loop_sound Gen swept debt T
              (sorted_keys (dom m4)) g4 g')
    as [Hinv' Hc]; try done.
  { apply sorted_keys_NoDup. }
  { intros k Hk. by apply sorted_keys_elem_of, elem_of_dom in Hk. }
  assert (cascade_post g g4) as Hc4.
  { split; simpl.
    - by eapply evolves_update.
    - intros k. subst m4. rewrite is_Some_insert_registered; done.
    - eexists. exact Htr3. }
  assert (EvBegin T ∈ trace g4) as HB4.
  { change (trace g4) with (trace g3). rewrite Htr3.
    apply elem_of_app. right. by left. }
  split_and!; try done.
  - by eapply cascade_post_trans.
  - eapply evolves_treated; [apply (casc_evolves _ _ Hc)|].
    exists (set_is_treated true e). split; [apply lookup_insert_eq|done].
  - destruct (casc_trace _ _ Hc) as [new ->]. apply elem_of_app. by left.
  - destruct Hinv as [_ _ [_ Hw Hcl _ _]]. intros HB.
    apply Hcl, Hw in HB as (x & Hx & Hxt). unfold T in *. congruence.
Qed.

(** Registration keeps the invariants: the count of the new entry is
    what holds it back, and the entry holds back whoever named it. *)
Lemma scheduler_inv_register swept debt t cfg deps g :
  scheduler_inv swept debt g ->
  str_empty (TargetLinkLanguage t cfg) = false ->
  deps = GetNameDepsTargets t cfg ->
  (is_Some (MapFastbuildInfoTargets g !! target_key t cfg)
   \/ (swept = false /\ forall ds, debt (target_key t cfg) ds = 0)) ->
  let m1 := AddFastbuildInfoTarget t deps cfg (MapFastbuildInfoTargets g) in
  scheduler_inv swept debt (set_ledger m1 g)
  /\ evolves (MapFastbuildInfoTargets g) m1
  /\ (forall k, is_Some (m1 !! k) ->
                is_Some (MapFastbuildInfoTargets g !! k)
                \/ k = target_key t cfg)
  /\ is_Some (m1 !! target_key t cfg)
  /\ (is_Some (MapFastbuildInfoTargets g !! target_key t cfg) ->
      m1 = MapFastbuildInfoTargets g).
Proof.
  intros Hinv Hlang Hdeps Hpre m1. subst m1. unfold AddFastbuildInfoTarget.
  set (T := target_key t cfg) in *.
  destruct (MapFastbuildInfoTargets g !! T) as [e|] eqn:HT.
  { rewrite set_ledger_same. split_and!; try done.
    - apply evolves_refl.
    - by left. }
  destruct Hpre as [[? ?]|[-> Hdebt]]; [done|].
  set (fbt := {| is_treated := false; config := cfg;
                 name_target_deps := deps;
                 number_untrated_deps := _; gt := t |}).
  destruct Hinv as [Hwf Hcnt [Hnd Hw Hc Hb Ho]].
  assert (forall d, blocks false (<[T := fbt]> (MapFastbuildInfoTargets g)) d
                    = blocks false (MapFastbuildInfoTargets g) d) as Hbl.
  { intros d. unfold blocks. destruct (decide (d = T)) as [->|Hne].
    - by rewrite lookup_insert_eq, HT.
    - by rewrite lookup_insert_ne. }
  assert (forall k ds,
    need false (<[T := fbt]> (MapFastbuildInfoTargets g)) k ds
    = need false (MapFastbuildInfoTargets g) k ds) as Hneed.
  { intros k ds. apply need_ext. intros d _ _. apply Hbl. }
  assert (forall k, treated (<[T := fbt]> (MapFastbuildInfoTargets g)) k
                    <-> treated (MapFastbuildInfoTargets g) k) as Htreated.
  { intros k. unfold treated. destruct (decide (k = T)) as [->|Hne].
    - rewrite lookup_insert_eq, HT. split; intros (x & Hx & Hxt);
        [by injection Hx as <-|done].
    - by rewrite lookup_insert_ne. }
  split_and!.
  - split; simpl.
    + intros k e. destruct (decide (k = T)) as [->|Hne].
      * rewrite lookup_insert_eq. by intros [= <-].
      * rewrite lookup_insert_ne by done. apply Hwf.
    + intros k e He Hun. rewrite Hneed.
      destruct (decide (k = T)) as [->|Hne].
      * rewrite lookup_insert_eq in He. injection He as <-. simpl.
        rewrite GetNumberUntratedDepsTarget_need, Hdebt. lia.
      * rewrite lookup_insert_ne in He by done. by apply Hcnt.
    + split; try done.
      * intros k. by rewrite Htreated.
      * intros j a ea d Hj Ha Hin Hne _.
        destruct (decide (a = T)) as [->|HaT].
        -- assert (treated (MapFastbuildInfoTargets g) T)
             as (x & Hx & _); [|congruence].
           apply Hw, Hc. by eapply list_elem_of_lookup_2.
        -- rewrite lookup_insert_ne in Ha by done. by eapply Ho.
  - intros k e He. exists e. rewrite lookup_insert_ne; [done|].
    intros <-. congruence.
  - intros k. destruct (decide (k = T)) as [->|Hne]; [by right|].
    rewrite lookup_insert_ne by done. by left.
  - by rewrite lookup_insert_eq.
  - by intros [? ?].
Qed.

Lemma Generate_body_sound Gen swept debt t cfg g g' :
  Gen_ok Gen -> debt_nonneg debt -> scheduler_inv swept debt g ->
  (is_Some (MapFastbuildInfoTargets g !! target_key t cfg)
   \/ (swept = false /\ forall ds, debt (target_key t cfg) ds = 0)) ->
  Generate_body fresh quotation Gen t cfg g = Some g' ->
  scheduler_inv swept debt g' /\ generate_post t cfg g g'.
Proof.
  intros HGen Hdebt Hinv Hpre. unfold Generate_body.
  destruct (str_empty (TargetLinkLanguage t cfg)) eqn:Hlang.
  { intros [= <-]. split.
    - by destruct Hinv.
    - split; simpl;
        [apply evolves_refl|by left|congruence
        |exists []; by rewrite app_nil_r|congruence]. }
  destruct (scheduler_inv_register swept debt t cfg
              (GetNameDepsTargets t cfg) g Hinv Hlang eq_refl Hpre)
    as (Hinv1 & Hev1 & Hdom1 & [e1 He1] & Hsame).
  set (m1 := AddFastbuildInfoTarget _ _ _ _) in *.
  change (MapFastbuildInfoTargets (set_ledger m1 g)) with m1.
  rewrite (CanTreatTargetFB_at fresh t cfg m1 e1 He1).
  assert (set_ledger m1 (set_ledger m1 g) = set_ledger m1 g) as -> by done.
  destruct (bool_decide (number_untrated_deps e1 <= 0)) eqn:Hcnt; simpl;
    [destruct (is_treated e1) eqn:Htr1; simpl|].
  - (* already finished *)
    intros [= <-]. split; [done|]. split; simpl; try done.
    + intros k Hk. destruct (Hdom1 k Hk); [by left|by right].
    + exists []. by rewrite app_nil_r.
    + intros e _ He Hun _. rewrite Hsame in He1 by done. congruence.
  - (* ready *)
    apply bool_decide_eq_true in Hcnt. intros HW.
    destruct (WriteTargetFB_sound Gen swept debt t cfg (set_ledger m1 g) g'
                e1 HGen Hdebt Hinv1 He1 Htr1 Hcnt HW)
      as (Hinv' & [Hev Hdom Htr] & Htreated & _).
    split; [done|]. split; simpl in *; try done.
    + by eapply evolves_trans.
    + intros k Hk. destruct (Hdom1 k (Hdom k Hk)); [by left|by right].
    + intros _. by destruct Htreated as (x & -> & _).
  - (* held back *)
    apply bool_decide_eq_false in Hcnt.
    intros [= <-]. split; [done|]. split; simpl; try done.
    + intros k Hk. destruct (Hdom1 k Hk); [by left|by right].
    + exists []. by rewrite app_nil_r.
    + intros e _ He Hun Hle. rewrite Hsame in He1 by done.
      assert (e = e1) as -> by congruence. done.
Qed.

Lemma Generate_Gen_ok depth : Gen_ok (Generate fresh quotation depth).
Proof.
  induction depth as [|depth IH]; intros swept debt t cfg g g' Hd Hinv Hreg;
    simpl; [done|].
  intros HG. eapply Generate_body_sound; eauto.
Qed.

(** A call of [Generate], nested or from the driver, keeps the
    invariants of the pass. *)
Lemma Generate_sound depth swept debt t cfg g g' :
  debt_nonneg debt -> scheduler_inv swept debt g ->
  (is_Some (MapFastbuildInfoTargets g !! target_key t cfg)
   \/ (swept = false /\ forall ds, debt (target_key t cfg) ds = 0)) ->
  Generate fresh quotation depth t cfg g = Some g' ->
  scheduler_inv swept debt g' /\ generate_post t cfg g g'.
Proof.
  destruct depth as [|depth]; simpl; [done|].
  intros. eapply Generate_body_sound; eauto using Generate_Gen_ok.
Qed.

End Cascade.

(** ** Termination *)

Lemma elem_of_unfinished m k :
  k ∈ unfinished m <-> exists e, m !! k = Some e /\ is_treated e = false.
Proof.
  unfold unfinished. rewrite elem_of_dom. unfold is_Some.
  split.
  - intros [e He]. apply map_lookup_filter_Some in He as [He Hun]. eauto.
  - intros (e & He & Hun). exists e. by apply map_lookup_filter_Some.
Qed.

Lemma unfinished_subseteq m m' :
  evolves m m' -> (forall k, is_Some (m' !! k) -> is_Some (m !! k)) ->
  unfinished m' ⊆ unfinished m.
Proof.
  intros Hev Hdom k. rewrite !elem_of_unfinished. intros (e' & He' & Hun').
  destruct (Hdom k) as [e He]; [done|].
  destruct (Hev k e He) as (e2 & He2 & _ & _ & _ & Ht).
  exists e. split; [done|]. destruct (is_treated e) eqn:Hte; [|done].
  specialize (Ht eq_refl). congruence.
Qed.

Lemma unfinished_cascade g g' :
  cascade_post g g' ->
  (size (unfinished (MapFastbuildInfoTargets g'))
   <= size (unfinished (MapFastbuildInfoTargets g)))%nat.
Proof.
  intros [Hev Hdom _]. apply subseteq_size. by apply unfinished_subseteq.
Qed.

Lemma unfinished_update m k e e' :
  m !! k = Some e -> is_treated e' = is_treated e ->
  unfinished (<[k := e']> m) = unfinished m.
Proof.
  intros He Ht. apply set_eq. intros k0. rewrite !elem_of_unfinished.
  destruct (decide (k0 = k)) as [->|Hne].
  - rewrite lookup_insert_eq, He. split; intros (x & [= <-] & Hx).
    + exists e. split; [done|congruence].
    + exists e'. split; [done|congruence].
  - by rewrite lookup_insert_ne.
Qed.

Lemma unfinished_finish m T e e' :
  m !! T = Some e -> is_treated e = false -> is_treated e' = true ->
  (size (unfinished (<[T := e']> m)) < size (unfinished m))%nat.
Proof.
  intros He Hun Ht. apply subset_size. apply strict_spec_alt. split.
  - intros k. rewrite !elem_of_unfinished.
    destruct (decide (k = T)) as [->|Hne].
    + rewrite lookup_insert_eq. intros (x & [= <-] & Hx). congruence.
    + by rewrite lookup_insert_ne.
  - intros Heq.
    assert (T ∈ unfinished m) as HT by (apply elem_of_unfinished; eauto).
    rewrite <- Heq in HT. apply elem_of_unfinished in HT as (x & Hx & Hxt).
    rewrite lookup_insert_eq in Hx. injection Hx as <-. congruence.
Qed.

Lemma unfinished_size m : (size (unfinished m) <= size m)%nat.
Proof.
  rewrite <- (size_dom (D := gset string) m). apply subseteq_size.
  unfold unfinished. apply dom_filter_subseteq.
Qed.

Section Termination.

Variable fresh : cmFastbuildInfoTarget.
Variable quotation : string.

Lemma add_debt_nonneg debt T rest :
  debt_nonneg debt -> debt_nonneg (add_debt debt T rest).
Proof.
  intros Hdebt k ds. unfold add_debt. specialize (Hdebt k ds).
  pose proof (occurrences_nonneg T ds). case_decide; lia.
Qed.

Lemma TargetTreatedFinish_step_total Gen d swept debt T k rest g :
  Gen_total d Gen -> debt_nonneg debt ->
  k ∉ rest -> is_Some (MapFastbuildInfoTargets g !! k) ->
  scheduler_inv swept (add_debt debt T (k :: rest)) g ->
  (size (unfinished (MapFastbuildInfoTargets g)) < d)%nat ->
  is_Some (TargetTreatedFinish_step fresh Gen T g k).
Proof.
  intros HGen Hdebt Hk [fit Hfit] Hinv Hsize.
  unfold TargetTreatedFinish_step. rewrite Hfit.
  rewrite (foldl_decrement fresh (fun d => T = d) k _ _ fit Hfit).
  pose proof (scheduler_inv_pay swept debt T k rest g fit Hk Hfit Hinv)
    as Hinv1.
  set (fit' := set_number_untrated_deps _ fit) in *.
  set (m1 := <[k := fit']> (MapFastbuildInfoTargets g)) in *.
  assert (m1 !! k = Some fit') as Hfit' by apply lookup_insert_eq.
  rewrite (map_at_registered fresh k m1 fit' Hfit').
  assert (target_key (gt fit) (config fit) = k) as Hkey.
  { by destruct (inv_wf _ _ _ Hinv k fit Hfit). }
  change (config fit') with (config fit).
  rewrite (CanTreatTargetFB_at fresh (gt fit) (config fit) m1 fit')
    by (by rewrite Hkey).
  destruct (_ && _); [|done].
  rewrite (map_at_registered fresh k m1 fit' Hfit').
  change (config fit') with (config fit).
  change (gt fit') with (gt fit).
  eapply HGen; [by apply add_debt_nonneg|exact Hinv1| |].
  - rewrite Hkey. change (is_Some (m1 !! k)). by rewrite Hfit'.
  - simpl. subst m1. by rewrite (unfinished_update _ _ fit).
Qed.

Lemma TargetTreatedFinish_loop_total Gen d swept debt T rest g :
  Gen_ok Gen -> Gen_total d Gen -> debt_nonneg debt ->
  NoDup rest ->
  (forall k, k ∈ rest -> is_Some (MapFastbuildInfoTargets g !! k)) ->
  scheduler_inv swept (add_debt debt T rest) g ->
  (size (unfinished (MapFastbuildInfoTargets g)) < d)%nat ->
  is_Some (for_each (TargetTreatedFinish_step fresh Gen T) rest g).
Proof.
  intros Hok HGen Hdebt Hnd Hreg Hinv Hsize.
  pose (P := fun (l : list string) (s : generator) =>
    NoDup l
    /\ (forall k, k ∈ l -> is_Some (MapFastbuildInfoTargets s !! k))
    /\ scheduler_inv swept (add_debt debt T l) s
    /\ (size (unfinished (MapFastbuildInfoTargets s)) < d)%nat).
  destruct (for_each_total (TargetTreatedFinish_step fresh Gen T) P rest g)
    as (s' & -> & _); [|done|done].
  intros k l s (Hnd1 & Hreg1 & Hinv1 & Hsize1).
  apply NoDup_cons in Hnd1 as [Hk Hnd1].
  assert (is_Some (MapFastbuildInfoTargets s !! k)) as Hks
    by (apply Hreg1; by left).
  destruct (TargetTreatedFinish_step_total Gen d swept debt T k l s)
    as [s' Hs']; try done.
  exists s'. split; [done|].
  destruct (TargetTreatedFinish_step_sound fresh Gen swept debt T k l s s')
    as [Hinv2 Hc2]; try done.
  split_and!; try done.
  - intros k0 Hk0. destruct (Hreg1 k0) as [e He]; [by right|].
    destruct (casc_evolves _ _ Hc2 k0 e He) as (e' & -> & _). done.
  - pose proof (unfinished_cascade _ _ Hc2). lia.
Qed.

Lemma WriteTargetFB_total Gen d swept debt t cfg g e :
  Gen_ok Gen -> Gen_total d Gen -> debt_nonneg debt ->
  scheduler_inv swept debt g ->
  MapFastbuildInfoTargets g !! target_key t cfg = Some e ->
  is_treated e = false -> number_untrated_deps e <= 0 ->
  (size (unfinished (MapFastbuildInfoTargets g)) <= d)%nat ->
  is_Some (WriteTargetFB fresh quotation Gen t cfg g).
Proof.
  intros Hok HGen Hdebt Hinv He Hun Hcount Hsize.
  unfold WriteTargetFB, TargetTreatedFinish.
  set (T := target_key t cfg) in *.
  set (g3 := log (EvWritten T) (WriteTargetBlocksFB quotation t cfg
                                  (log (EvBegin T) g))).
  destruct (WriteTargetBlocksFB_frame quotation t cfg (log (EvBegin T) g))
    as (Hm & Htr & _).
  assert (MapFastbuildInfoTargets g3 = MapFastbuildInfoTargets g) as Hm3
    by exact Hm.
  assert (trace g3 = trace g ++ [EvBegin T; EvWritten T]) as Htr3.
  { subst g3. simpl. rewrite Htr. simpl. by rewrite <- app_assoc. }
  rewrite Hm3, (map_set_registered fresh _ T _ e He).
  set (m4 := <[T := set_is_treated true e]> (MapFastbuildInfoTargets g)).
  set (g4 := set_ledger m4 g3).
  assert (scheduler_inv swept
            (add_debt debt T (sorted_keys (dom m4))) g4) as Hinv4.
  { eapply (scheduler_inv_finish swept debt T e g); try done.
    intros k Hk. apply sorted_keys_elem_of, elem_of_dom. subst m4.
    rewrite is_Some_insert_registered; done. }
  apply (TargetTreatedFinish_loop_total Gen d swept debt T
           (sorted_keys (dom m4)) g4); try done.
  - apply sorted_keys_NoDup.
  - intros k Hk. by apply sorted_keys_elem_of, elem_of_dom in Hk.
  - change (MapFastbuildInfoTargets g4) with m4. subst m4.
    pose proof (unfinished_finish (MapFastbuildInfoTargets g) T e
                  (set_is_treated true e) He Hun eq_refl). lia.
Qed.

Lemma Generate_body_total Gen d swept debt t cfg g :
  Gen_ok Gen -> Gen_total d Gen -> debt_nonneg debt ->
  scheduler_inv swept debt g ->
  (is_Some (MapFastbuildInfoTargets g !! target_key t cfg)
   \/ (swept = false /\ forall ds, debt (target_key t cfg) ds = 0)) ->
  (size (unfinished
           (AddFastbuildInfoTarget t (GetNameDepsTargets t cfg) cfg
              (MapFastbuildInfoTargets g))) <= d)%nat ->
  is_Some (Generate_body fresh quotation Gen t cfg g).
Proof.
  intros Hok HGen Hdebt Hinv Hpre Hsize. unfold Generate_body.
  destruct (str_empty (TargetLinkLanguage t cfg)) eqn:Hlang; [done|].
  destruct (scheduler_inv_register swept debt t cfg
              (GetNameDepsTargets t cfg) g Hinv Hlang eq_refl Hpre)
    as (Hinv1 & Hev1 & Hdom1 & [e1 He1] & Hsame).
  set (m1 := AddFastbuildInfoTarget _ _ _ _) in *.
  change (MapFastbuildInfoTargets (set_ledger m1 g)) with m1.
  rewrite (CanTreatTargetFB_at fresh t cfg m1 e1 He1).
  assert (set_ledger m1 (set_ledger m1 g) = set_ledger m1 g) as -> by done.
  destruct (bool_decide (number_untrated_deps e1 <= 0)) eqn:Hcnt; simpl;
    [destruct (is_treated e1) eqn:Htr1; simpl|]; try done.
  apply bool_decide_eq_true in Hcnt.
  by eapply (WriteTargetFB_total Gen d swept debt t cfg (set_ledger m1 g) e1).
Qed.

Lemma Generate_Gen_total depth :
  Gen_total depth (Generate fresh quotation depth).
Proof.
  induction depth as [|depth IH];
    intros swept debt t cfg g Hd Hinv Hreg Hsize; [lia|].
  simpl. eapply Generate_body_total; eauto using Generate_Gen_ok.
  unfold AddFastbuildInfoTarget. destruct Hreg as [e ->]. lia.
Qed.

(** The depth the driver allows is enough: the visit of a target always
    returns. *)
Lemma GenerateTarget_total g t cfg :
  scheduler_inv false no_debt g ->
  exists g',
    GenerateTarget fresh quotation g (t, cfg) = Some g'
    /\ scheduler_inv false no_debt g'
    /\ generate_post t cfg g g'.
Proof.
  intros Hinv. unfold GenerateTarget, depth_for. simpl.
  assert (debt_nonneg no_debt) as Hd by (by intros ? ?).
  assert (is_Some (MapFastbuildInfoTargets g !! target_key t cfg)
          \/ (false = false
              /\ forall ds, no_debt (target_key t cfg) ds = 0)) as Hpre
    by (by right).
  destruct (Generate_body_total
              (Generate fresh quotation (S (size (MapFastbuildInfoTargets g))))
              (S (size (MapFastbuildInfoTargets g)))
              false no_debt t cfg g) as [g' Hg'];
    eauto using Generate_Gen_ok, Generate_Gen_total.
  { unfold AddFastbuildInfoTarget.
    destruct (_ !! _) eqn:HT.
    - pose proof (unfinished_size (MapFastbuildInfoTargets g)). lia.
    - etrans; [apply unfinished_size|].
      rewrite map_size_insert_None by done. lia. }
  exists g'. split; [done|].
  eapply Generate_body_sound; eauto using Generate_Gen_ok.
Qed.

End Termination.

(** ** The sweep of the unregistered dependencies *)

Section Sweep.

Variable fresh : cmFastbuildInfoTarget.

Lemma sweep_inner m0 k deps m e :
  (forall d, m !! d = None <-> m0 !! d = None) ->
  m !! k = Some e ->
  foldl
    (fun m name_target_dep =>
       match m !! name_target_dep with
       | None => map_set fresh decrement k m
       | Some _ => m
       end) m deps
  = <[k := set_number_untrated_deps
             (number_untrated_deps e - unregistered m0 deps) e]> m.
Proof.
  unfold unregistered.
  revert m e. induction deps as [|d deps IH]; intros m e Hdom He;
    cbn [foldl].
  - rewrite filter_nil. simpl.
    rewrite Z.sub_0_r, set_number_untrated_deps_id. by rewrite insert_id.
  - rewrite filter_cons. destruct (m !! d) as [ed|] eqn:Hd.
    + destruct (decide (m0 !! d = None)) as [Hn|Hn];
        [apply Hdom in Hn; congruence|]. by apply IH.
    + destruct (decide (m0 !! d = None)) as [Hn|Hn];
        [|by destruct Hn; apply Hdom].
      rewrite (map_set_registered _ _ _ _ _ He).
      rewrite (IH _ (decrement e)).
      * rewrite insert_insert_eq. f_equal.
        unfold decrement, set_number_untrated_deps. simpl length. simpl.
        f_equal. lia.
      * intros d0. rewrite <- Hdom.
        destruct (decide (d0 = k)) as [->|Hne].
        -- rewrite lookup_insert_eq, He. naive_solver.
        -- by rewrite lookup_insert_ne.
      * apply lookup_insert_eq.
Qed.

Lemma sweep_outer m0 ks m :
  NoDup ks ->
  (forall k, k ∈ ks -> m !! k = m0 !! k) ->
  (forall d, m !! d = None <-> m0 !! d = None) ->
  forall k,
    foldl
      (fun m k =>
         match m !! k with
         | Some fit =>
             if is_treated fit then m
             else
               foldl
                 (fun m name_target_dep =>
                    match m !! name_target_dep with
                    | None => map_set fresh decrement k m
                    | Some _ => m
                    end)
                 m (name_target_deps fit)
         | None => m
         end) m ks !! k
    = if decide (k ∈ ks) then swept_entry m0 <$> m0 !! k else m !! k.
Proof.
  revert m. induction ks as [|k0 ks IH]; intros m Hnd Hsame Hdom k;
    cbn [foldl].
  - by rewrite decide_False by apply not_elem_of_nil.
  - apply NoDup_cons in Hnd as [Hk0 Hnd].
    assert (m !! k0 = m0 !! k0) as H0 by (apply Hsame; by left).
    destruct (m !! k0) as [fit|] eqn:Hfit.
    + destruct (is_treated fit) eqn:Htr.
      * rewrite IH; try done; [|intros; apply Hsame; by right].
        destruct (decide (k = k0)) as [->|Hne].
        -- rewrite decide_False by done. rewrite decide_True by left.
           rewrite <- H0, Hfit. simpl. unfold swept_entry. by rewrite Htr.
        -- destruct (decide (k ∈ ks)).
           ++ rewrite decide_True; [done|by right].
           ++ rewrite decide_False; [done|].
              intros [?|?]%elem_of_cons; done.
      * rewrite (sweep_inner m0 k0 _ m fit Hdom Hfit).
        rewrite IH; try done.
        -- destruct (decide (k = k0)) as [->|Hne].
           ++ rewrite decide_False by done. rewrite decide_True by left.
              rewrite lookup_insert_eq, <- H0. simpl. unfold swept_entry.
              by rewrite Htr.
           ++ rewrite lookup_insert_ne by done.
              destruct (decide (k ∈ ks)).
              ** rewrite decide_True; [done|by right].
              ** rewrite decide_False; [done|].
                 intros [?|?]%elem_of_cons; done.
        -- intros k1 Hk1. rewrite lookup_insert_ne by (by intros <-).
           apply Hsame. by right.
        -- intros d. rewrite <- Hdom.
           destruct (decide (d = k0)) as [->|Hne].
           ++ rewrite lookup_insert_eq, Hfit. naive_solver.
           ++ by rewrite lookup_insert_ne.
    + rewrite IH; try done; [|intros; apply Hsame; by right].
      destruct (decide (k = k0)) as [->|Hne].
      * rewrite decide_False by done. rewrite decide_True by left.
        by rewrite <- H0.
      * destruct (decide (k ∈ ks)).
        -- rewrite decide_True; [done|by right].
        -- rewrite decide_False; [done|]. intros [?|?]%elem_of_cons; done.
Qed.

(** [DecrementNbDepsTargetUnexist] takes from the count of every
    unfinished entry one per dependency without an entry, and leaves the
    finished entries alone. *)
Lemma DecrementNbDepsTargetUnexist_lookup m k :
  DecrementNbDepsTargetUnexist fresh m !! k = swept_entry m <$> m !! k.
Proof.
  unfold DecrementNbDepsTargetUnexist.
  rewrite (sweep_outer m); try done; [|apply sorted_keys_NoDup].
  destruct (decide (k ∈ sorted_keys (dom m))) as [Hin|Hin]; [done|].
  rewrite sorted_keys_elem_of, not_elem_of_dom in Hin. by rewrite Hin.
Qed.

End Sweep.

Section LastChance.

Variable fresh : cmFastbuildInfoTarget.
Variable quotation : string.

Lemma swept_entry_static m e :
  gt (swept_entry m e) = gt e
  /\ config (swept_entry m e) = config e
  /\ name_target_deps (swept_entry m e) = name_target_deps e
  /\ is_treated (swept_entry m e) = is_treated e.
Proof. unfold swept_entry. by destruct (is_treated e) eqn:H. Qed.

Lemma need_sweep m k deps :
  is_Some (m !! k) ->
  need false m k deps
  = need true (DecrementNbDepsTargetUnexist fresh m) k deps
    + unregistered m deps.
Proof.
  intros [ek Hk].
  assert (forall d,
    blocks true (DecrementNbDepsTargetUnexist fresh m) d
    = match m !! d with
      | Some e => negb (is_treated e)
      | None => false
      end) as Hb.
  { intros d. unfold blocks. rewrite DecrementNbDepsTargetUnexist_lookup.
    destruct (m !! d) as [ed|]; simpl; [|done].
    by destruct (swept_entry_static m ed) as (_ & _ & _ & ->). }
  unfold need, unregistered.
  rewrite <- Nat2Z.inj_add. f_equal.
  induction deps as [|d deps IH]; [done|].
  rewrite !filter_cons.
  destruct (decide (d <> k /\ blocks false m d = true)) as [[H1 H2]|H1];
    destruct (decide (d <> k
                      /\ blocks true (DecrementNbDepsTargetUnexist fresh m) d
                         = true)) as [[H3 H4]|H3];
    destruct (decide (m !! d = None)) as [H5|H5];
    simpl; rewrite ?IH; try lia; exfalso;
    rewrite ?Hb in *; unfold blocks in *;
    destruct (decide (d = k)) as [Heq|Hne];
    destruct (m !! d) as [ed|] eqn:Hd; simpl in *;
    try done; try congruence; naive_solver.
Qed.

(** After the sweep only registered, unfinished dependencies hold an
    entry back. *)
Lemma scheduler_inv_sweep g :
  scheduler_inv false no_debt g ->
  scheduler_inv true no_debt
    (set_ledger (DecrementNbDepsTargetUnexist fresh
                   (MapFastbuildInfoTargets g)) g)
  /\ cascade_post g
       (set_ledger (DecrementNbDepsTargetUnexist fresh
                      (MapFastbuildInfoTargets g)) g).
Proof.
  intros [Hwf Hcnt [Hnd Hw Hc Hb Ho]].
  set (m := MapFastbuildInfoTargets g) in *.
  assert (forall k, treated (DecrementNbDepsTargetUnexist fresh m) k
                    <-> treated m k) as Htreated.
  { intros k. unfold treated. rewrite DecrementNbDepsTargetUnexist_lookup.
    destruct (m !! k) as [e|]; simpl; [|naive_solver].
    destruct (swept_entry_static m e) as (_ & _ & _ & Ht).
    split; intros (x & [= <-] & Hx); eexists; split; try done; congruence. }
  split; split; simpl.
  - intros k e. rewrite DecrementNbDepsTargetUnexist_lookup.
    destruct (m !! k) as [e0|] eqn:He0; simpl; [|done]. intros [= <-].
    destruct (swept_entry_static m e0) as (-> & -> & -> & _). by apply Hwf.
  - intros k e. rewrite DecrementNbDepsTargetUnexist_lookup.
    destruct (m !! k) as [e0|] eqn:He0; simpl; [|done]. intros [= <-].
    destruct (swept_entry_static m e0) as (_ & _ & Hd & Ht).
    rewrite Ht, Hd. intros Hun. unfold swept_entry. rewrite Hun. simpl.
    rewrite (Hcnt k e0 He0 Hun).
    rewrite (need_sweep m k) by done. unfold no_debt. lia.
  - split; try done.
    + intros k. by rewrite Htreated.
    + intros j a e d Hj. rewrite DecrementNbDepsTargetUnexist_lookup.
      destruct (m !! a) as [e0|] eqn:He0; simpl; [|done]. intros [= <-].
      destruct (swept_entry_static m e0) as (_ & _ & -> & _).
      intros Hin Hne _. by eapply (Ho j a e0 d).
  - intros k e He. exists (swept_entry m e).
    subst m. rewrite DecrementNbDepsTargetUnexist_lookup, He.
    destruct (swept_entry_static (MapFastbuildInfoTargets g) e)
      as (-> & -> & -> & ->). done.
  - intros k. rewrite DecrementNbDepsTargetUnexist_lookup.
    by rewrite fmap_is_Some.
  - exists []. by rewrite app_nil_r.
Qed.

Lemma lastChanceToTreatTargets_step_sound Gen g k g' :
  Gen_ok Gen -> scheduler_inv true no_debt g ->
  lastChanceToTreatTargets_step fresh Gen g k = Some g' ->
  scheduler_inv true no_debt g' /\ cascade_post g g'
  /\ (forall e, MapFastbuildInfoTargets g !! k = Some e ->
                number_untrated_deps e <= 0 ->
                treated (MapFastbuildInfoTargets g') k).
Proof.
  intros HGen Hinv. unfold lastChanceToTreatTargets_step.
  destruct (MapFastbuildInfoTargets g !! k) as [fit|] eqn:Hfit.
  2:{ intros [= <-]. split; [done|]. split; [apply cascade_post_refl|done]. }
  destruct (is_treated fit) eqn:Htr.
  { intros [= <-]. split; [done|]. split; [apply cascade_post_refl|].
    intros e [= <-] _. by exists fit. }
  assert (target_key (gt fit) (config fit) = k) as Hkey.
  { by destruct (inv_wf _ _ _ Hinv k fit Hfit). }
  rewrite (CanTreatTargetFB_at fresh (gt fit) (config fit) _ fit)
    by (by rewrite Hkey).
  rewrite Htr, andb_true_r, set_ledger_same.
  case_bool_decide as Hcount.
  - rewrite (map_at_registered fresh k _ fit Hfit). intros HG.
    assert (is_Some (MapFastbuildInfoTargets g
                       !! target_key (gt fit) (config fit))) as Hreg
      by (by rewrite Hkey, Hfit).
    destruct (HGen true no_debt _ _ _ _ (fun _ _ => Z.le_refl 0) Hinv Hreg HG)
      as [Hinv' Hpost].
    split; [done|]. split; [by eapply generate_post_cascade|].
    intros e [= <-] _. rewrite <- Hkey.
    eapply (post_ready _ _ _ _ Hpost fit); try done.
    + by destruct (inv_wf _ _ _ Hinv k fit Hfit) as (_ & ? & _).
    + by rewrite Hkey.
  - intros [= <-]. split; [done|]. split; [apply cascade_post_refl|].
    intros e [= <-] Hle. done.
Qed.

Lemma need_mono m m' k deps :
  evolves m m' -> (forall d, is_Some (m' !! d) -> is_Some (m !! d)) ->
  need true m' k deps <= need true m k deps.
Proof.
  intros Hev Hdom. unfold need. apply inj_le.
  induction deps as [|d deps IH]; [done|].
  rewrite !filter_cons.
  destruct (decide (d <> k /\ blocks true m' d = true)) as [[H1 H2]|H1];
    destruct (decide (d <> k /\ blocks true m d = true)) as [[H3 H4]|H3];
    simpl; try lia.
  exfalso. apply H3. split; [done|]. unfold blocks in *.
  destruct (m' !! d) as [e'|] eqn:He'; [|done].
  destruct (Hdom d) as [e He]; [done|]. rewrite He.
  destruct (Hev d e He) as (e2 & He2 & _ & _ & _ & Ht).
  assert (e2 = e') as -> by congruence.
  destruct (is_treated e) eqn:Hte; [|done].
  rewrite Ht in H2 by done. done.
Qed.

Lemma lastChanceToTreatTargets_step_total Gen d g k :
  Gen_total d Gen -> scheduler_inv true no_debt g ->
  (size (unfinished (MapFastbuildInfoTargets g)) < d)%nat ->
  is_Some (lastChanceToTreatTargets_step fresh Gen g k).
Proof.
  intros HGen Hinv Hsize. unfold lastChanceToTreatTargets_step.
  destruct (MapFastbuildInfoTargets g !! k) as [fit|] eqn:Hfit; [|done].
  destruct (is_treated fit) eqn:Htr; [done|].
  assert (target_key (gt fit) (config fit) = k) as Hkey.
  { by destruct (inv_wf _ _ _ Hinv k fit Hfit). }
  rewrite (CanTreatTargetFB_at fresh (gt fit) (config fit) _ fit)
    by (by rewrite Hkey).
  rewrite set_ledger_same. destruct (_ && _); [|done].
  rewrite (map_at_registered fresh k _ fit Hfit).
  apply (HGen true no_debt); [by intros ? ?|done| |done].
  by rewrite Hkey, Hfit.
Qed.

(** The forced sweep: it returns, keeps the invariants, and finishes
    every entry that was ready when its turn came. *)
Lemma lastChanceToTreatTargets_correct Gen d g :
  Gen_ok Gen -> Gen_total d Gen ->
  scheduler_inv false no_debt g ->
  (size (unfinished (MapFastbuildInfoTargets g)) < d)%nat ->
  exists g',
    lastChanceToTreatTargets fresh Gen g = Some g'
    /\ scheduler_inv true no_debt g'
    /\ cascade_post g g'
    /\ (forall k e,
          MapFastbuildInfoTargets g !! k = Some e ->
          is_treated e = false ->
          number_untrated_deps e
          - unregistered (MapFastbuildInfoTargets g) (name_target_deps e)
          <= 0 ->
          treated (MapFastbuildInfoTargets g') k).
Proof.
  intros Hok HGen Hinv Hsize. unfold lastChanceToTreatTargets.
  destruct (scheduler_inv_sweep g Hinv) as [Hinv1 Hc1].
  set (g1 := set_ledger _ g) in *.
  set (keys := sorted_keys (dom (MapFastbuildInfoTargets g1))).
  pose (P := fun (l : list string) (s : generator) =>
    scheduler_inv true no_debt s
    /\ cascade_post g1 s
    /\ (size (unfinished (MapFastbuildInfoTargets s)) < d)%nat
    /\ (forall k e,
          k ∈ keys -> k ∉ l ->
          MapFastbuildInfoTargets g1 !! k = Some e ->
          is_treated e = false -> number_untrated_deps e <= 0 ->
          treated (MapFastbuildInfoTargets s) k)).
  destruct (for_each_total (lastChanceToTreatTargets_step fresh Gen) P
              keys g1) as (g' & Hg' & Hinv' & Hc' & _ & Hready).
  { intros k l s (Hinvs & Hcs & Hsizes & Hreadys).
    destruct (lastChanceToTreatTargets_step_total Gen d s k) as [s' Hs'];
      try done.
    exists s'. split; [done|].
    destruct (lastChanceToTreatTargets_step_sound Gen s k s')
      as (Hinv2 & Hc2 & Hr2); try done.
    split_and!; try done.
    - by eapply cascade_post_trans.
    - pose proof (unfinished_cascade _ _ Hc2). lia.
    - intros k0 e0 Hk0 Hnl He0 Hun0 Hle0.
      destruct (decide (k0 = k)) as [->|Hne].
      + destruct (casc_evolves _ _ Hcs k e0 He0)
          as (es & Hes & _ & _ & Hdeps & _).
        destruct (is_treated es) eqn:Htes.
        * eapply evolves_treated; [apply (casc_evolves _ _ Hc2)|].
          by exists es.
        * apply (Hr2 es Hes).
          rewrite (inv_counts _ _ _ Hinvs k es Hes Htes).
          rewrite (inv_counts _ _ _ Hinv1 k e0 He0 Hun0) in Hle0.
          pose proof (need_mono (MapFastbuildInfoTargets g1)
                        (MapFastbuildInfoTargets s) k (name_target_deps e0)
                        (casc_evolves _ _ Hcs) (casc_dom _ _ Hcs)).
          rewrite Hdeps. unfold no_debt in *. lia.
      + eapply evolves_treated; [apply (casc_evolves _ _ Hc2)|].
        eapply Hreadys; try done.
        intros [?|?]%elem_of_cons; done. }
  { split_and!;
      [done|apply cascade_post_refl
      |pose proof (unfinished_cascade _ _ Hc1); lia
      |by intros k e Hk Hnk]. }
  exists g'. split_and!; try done.
  - by eapply cascade_post_trans.
  - intros k e He Hun Hle.
    eapply (Hready k (swept_entry (MapFastbuildInfoTargets g) e)).
    + apply sorted_keys_elem_of, elem_of_dom. subst g1. simpl.
      rewrite DecrementNbDepsTargetUnexist_lookup, He. done.
    + apply not_elem_of_nil.
    + subst g1. simpl. rewrite DecrementNbDepsTargetUnexist_lookup, He.
      done.
    + by destruct (swept_entry_static (MapFastbuildInfoTargets g) e)
        as (_ & _ & _ & ->).
    + unfold swept_entry. rewrite Hun. done.
Qed.

End LastChance.

(** ** A generation pass *)

Section Pass.

Variable fresh : cmFastbuildInfoTarget.
Variable quotation : string.

Lemma new_generator_inv multi dflt :
  scheduler_inv false no_debt (new_generator multi dflt).
Proof.
  split; simpl.
  - intros k e He. by rewrite lookup_empty in He.
  - intros k e He. by rewrite lookup_empty in He.
  - split.
    + apply NoDup_nil_2.
    + intros k. split.
      * by intros ?%elem_of_nil.
      * intros (e & He & _). by rewrite lookup_empty in He.
    + by intros k ?%elem_of_nil.
    + intros j k Hj. by rewrite lookup_nil in Hj.
    + intros j a e d Hj. by rewrite lookup_nil in Hj.
Qed.

Lemma GenerateTargets_correct visits g :
  scheduler_inv false no_debt g ->
  exists g',
    GenerateTargets fresh quotation visits g = Some g'
    /\ scheduler_inv false no_debt g'
    /\ evolves (MapFastbuildInfoTargets g) (MapFastbuildInfoTargets g')
    /\ exists new, trace g' = trace g ++ new.
Proof.
  unfold GenerateTargets. revert g.
  induction visits as [|[t cfg] visits IH]; intros g Hinv; simpl.
  - exists g. split_and!; try done; [apply evolves_refl|].
    exists []. by rewrite app_nil_r.
  - destruct (GenerateTarget_total fresh quotation g t cfg Hinv)
      as (g1 & -> & Hinv1 & Hpost).
    destruct (IH g1 Hinv1) as (g' & -> & Hinv' & Hev & [new Hnew]).
    exists g'. split_and!; try done.
    + eapply evolves_trans; [apply (post_evolves _ _ _ _ Hpost)|done].
    + destruct (post_trace _ _ _ _ Hpost) as [new1 Hnew1].
      exists (new1 ++ new). by rewrite Hnew, Hnew1, app_assoc.
Qed.

(** A pass always returns; its two phases keep the invariants. *)
Lemma GlobalGenerate_correct visits g :
  scheduler_inv false no_debt g ->
  exists g1 g',
    GenerateTargets fresh quotation visits g = Some g1
    /\ GlobalGenerate fresh quotation visits g = Some g'
    /\ scheduler_inv false no_debt g1
    /\ scheduler_inv true no_debt g'
    /\ cascade_post g1 g'
    /\ (forall k e,
          MapFastbuildInfoTargets g1 !! k = Some e ->
          is_treated e = false ->
          number_untrated_deps e
          - unregistered (MapFastbuildInfoTargets g1) (name_target_deps e)
          <= 0 ->
          treated (MapFastbuildInfoTargets g') k).
Proof.
  intros Hinv. unfold GlobalGenerate.
  destruct (GenerateTargets_correct visits g Hinv)
    as (g1 & -> & Hinv1 & _).
  destruct (lastChanceToTreatTargets_correct fresh
              (Generate fresh quotation (depth_for g1)) (depth_for g1) g1)
    as (g' & Hg' & Hinv' & Hc & Hready);
    eauto using Generate_Gen_ok, Generate_Gen_total.
  { unfold depth_for.
    pose proof (unfinished_size (MapFastbuildInfoTargets g1)). lia. }
  exists g1, g'. by split_and!.
Qed.

(** C2.  Whatever the targets and the order in which the driver visits
    them, the pass returns, and [WriteTargetFB] was entered at most once
    for each key: the cascade of another target, the visit of the target
    itself and the forced sweep together start it no more than once. *)
Theorem WriteTargetFB_at_most_once
    (visits : list (cmGeneratorTarget * string))
    (multi : bool) (dflt : string) :
  exists g',
    GlobalGenerate fresh quotation visits (new_generator multi dflt)
    = Some g'
    /\ forall k,
         (count_occ event_eq_dec (trace g') (EvBegin k) <= 1)%nat.
Proof.
  destruct (GlobalGenerate_correct visits (new_generator multi dflt)
              (new_generator_inv multi dflt))
    as (g1 & g' & _ & Hg' & _ & Hinv' & _).
  exists g'. split; [done|]. intros k.
  apply NoDup_count_occ, NoDup_ListNoDup.
  apply (tr_nodup _ _ _ (inv_trace _ _ _ Hinv')).
Qed.

Lemma written_before_chain swept m tr a b :
  trace_ok swept m tr -> (swept = true) ->
  depends_on m a b -> EvBegin a ∈ tr -> written_before b a tr.
Proof.
  intros [Hnd Hw Hc Hb Ho] Hsw Hdep. induction Hdep as
    [a b ea Ha Hin Hreg Hne|a b c Hac IHac Hcb IHcb]; intros HB.
  - apply list_elem_of_lookup in HB as [j Hj].
    destruct (Ho j a ea b Hj Ha Hin) as (i & Hi & Hti); [done|done|].
    by exists i, j.
  - destruct (IHac HB) as (i1 & j & Hi1 & Hj & Hlt1).
    destruct (Hb i1 c Hi1) as (i0 & Hlt0 & Hi0).
    destruct IHcb as (i & j' & Hi & Hj' & Hlt).
    { by eapply list_elem_of_lookup_2. }
    assert (j' = i0) as -> by (by eapply NoDup_lookup).
    exists i, j. split_and!; try done. lia.
Qed.

(** C1, as amended.  Whatever the targets and the order of the visits,
    the pass returns, and for registered targets [a] and [b], [a]
    listing [b] among its dependencies directly or through a chain of
    registered targets (none being its own dependency), if [a] is
    generated at all then the blocks of [b] are completely written,
    [WriteTargetFB] of [b] having reached its last statement, the call
    of [TargetTreatedFinish], before [WriteTargetFB] of [a] is
    entered. *)
Theorem emission_order_sound
    (visits : list (cmGeneratorTarget * string))
    (multi : bool) (dflt : string) :
  exists g',
    GlobalGenerate fresh quotation visits (new_generator multi dflt)
    = Some g'
    /\ forall a b,
         depends_on (MapFastbuildInfoTargets g') a b ->
         EvBegin a ∈ trace g' ->
         written_before b a (trace g').
Proof.
  destruct (GlobalGenerate_correct visits (new_generator multi dflt)
              (new_generator_inv multi dflt))
    as (g1 & g' & _ & Hg' & _ & Hinv' & _).
  exists g'. split; [done|]. intros a b Hdep HB.
  by eapply written_before_chain; [apply (inv_trace _ _ _ Hinv')|..].
Qed.

Lemma need_only_unregistered m k deps :
  is_Some (m !! k) ->
  (forall d, d ∈ deps -> d <> k -> is_Some (m !! d) -> treated m d) ->
  need false m k deps = unregistered m deps.
Proof.
  intros Hk Hdone. unfold need, unregistered. do 2 f_equal.
  induction deps as [|d deps IH]; [done|].
  rewrite !filter_cons.
  rewrite IH by (intros; apply Hdone; [by right|done..]).
  assert (d <> k /\ blocks false m d = true <-> m !! d = None) as Hiff.
  { unfold blocks. split.
    - intros [Hne Hb]. destruct (m !! d) as [ed|] eqn:Hd; [|done].
      destruct (Hdone d) as (x & Hx & Hxt); [by left|done|by rewrite Hd|].
      assert (x = ed) as -> by congruence. by rewrite Hxt in Hb.
    - intros Hd. rewrite Hd. split; [|done]. intros ->.
      destruct Hk as [? ?]. congruence. }
  destruct (decide (d <> k /\ blocks false m d = true)) as [H1|H1];
    destruct (decide (m !! d = None)) as [H2|H2]; try done;
    by destruct Hiff; naive_solver.
Qed.

(** An unfinished entry never has a negative count. *)
Lemma unfinished_count_nonneg swept g k e :
  scheduler_inv swept no_debt g ->
  MapFastbuildInfoTargets g !! k = Some e -> is_treated e = false ->
  0 <= number_untrated_deps e.
Proof.
  intros Hinv He Hun. rewrite (inv_counts _ _ _ Hinv k e He Hun).
  pose proof (need_nonneg swept (MapFastbuildInfoTargets g) k
                (name_target_deps e)). unfold no_debt. lia.
Qed.

(** C5.  Once the driver has visited the targets, take an unfinished
    entry.  Its dependency list names no dependency twice, and
    [DecrementNbDepsTargetUnexist] takes from its count exactly one per
    dependency that has no ledger entry.  If moreover every registered
    dependency of the entry is finished, then after that sweep the
    entry passes [CanTreatTargetFB], and the pass ends with the entry
    finished, its [WriteTargetFB] having run in
    [lastChanceToTreatTargets] and not before. *)
Theorem unregistered_dependency_tolerance
    (visits : list (cmGeneratorTarget * string))
    (multi : bool) (dflt : string)
    (g1 : generator) (k : string) (e : cmFastbuildInfoTarget) :
  GenerateTargets fresh quotation visits (new_generator multi dflt)
  = Some g1 ->
  MapFastbuildInfoTargets g1 !! k = Some e ->
  is_treated e = false ->
  NoDup (name_target_deps e)
  /\ DecrementNbDepsTargetUnexist fresh (MapFastbuildInfoTargets g1) !! k
     = Some (set_number_untrated_deps
               (number_untrated_deps e
                - unregistered (MapFastbuildInfoTargets g1)
                    (name_target_deps e)) e)
  /\ ((forall d, d ∈ name_target_deps e -> d <> k ->
                 is_Some (MapFastbuildInfoTargets g1 !! d) ->
                 treated (MapFastbuildInfoTargets g1) d) ->
      (CanTreatTargetFB fresh (gt e) (config e)
         (DecrementNbDepsTargetUnexist fresh (MapFastbuildInfoTargets g1))).1
      = true
      /\ exists g',
           GlobalGenerate fresh quotation visits (new_generator multi dflt)
           = Some g'
           /\ treated (MapFastbuildInfoTargets g') k
           /\ (EvBegin k ∉ trace g1)
           /\ EvBegin k ∈ trace g').
Proof.
  intros Hg1 He Hun.
  destruct (GlobalGenerate_correct visits (new_generator multi dflt)
              (new_generator_inv multi dflt))
    as (g1' & g' & Hg1' & Hg' & Hinv1 & Hinv' & Hc & Hready).
  assert (g1' = g1) as -> by congruence.
  destruct (inv_wf _ _ _ Hinv1 k e He) as (Hkey & Hlang & Hdeps).
  assert (DecrementNbDepsTargetUnexist fresh (MapFastbuildInfoTargets g1)
            !! k
          = Some (set_number_untrated_deps
                    (number_untrated_deps e
                     - unregistered (MapFastbuildInfoTargets g1)
                         (name_target_deps e)) e)) as Hsw.
  { rewrite DecrementNbDepsTargetUnexist_lookup, He. simpl.
    unfold swept_entry. by rewrite Hun. }
  split_and!; [|done|].
  { rewrite Hdeps. apply RemoveDuplicateName_NoDup. }
  intros Hdone.
  assert (number_untrated_deps e
          = unregistered (MapFastbuildInfoTargets g1) (name_target_deps e))
    as Hcount.
  { rewrite (inv_counts _ _ _ Hinv1 k e He Hun).
    rewrite need_only_unregistered by done. unfold no_debt. lia. }
  split.
  - erewrite CanTreatTargetFB_at by (rewrite Hkey; exact Hsw).
    simpl. rewrite Hun, andb_true_r. apply bool_decide_eq_true. lia.
  - exists g'. split; [done|].
    assert (treated (MapFastbuildInfoTargets g') k) as Htreated.
    { eapply Hready; try done. lia. }
    split; [done|].
    destruct Hinv1 as [_ _ [_ Hw1 Hcl1 _ _]].
    destruct Hinv' as [_ _ [_ Hw' _ Hb' _]]. split.
    + intros HB. apply Hcl1, Hw1 in HB as (x & Hx & Hxt). congruence.
    + apply Hw', list_elem_of_lookup in Htreated as [j Hj].
      destruct (Hb' j k Hj) as (i & _ & Hi).
      by eapply list_elem_of_lookup_2.
Qed.

End Pass.

Lemma unregistered_dependency_tolerance_witness :
  let start := new_generator false "" in
  let g1 :=
    default start (GenerateTargets zero_entry apostrophe [(tool, "")] start)
  in
  exists e,
    MapFastbuildInfoTargets g1 !! "tool" = Some e
    /\ is_treated e = false
    /\ number_untrated_deps e = 1
    /\ number_untrated_deps
         <$> DecrementNbDepsTargetUnexist zero_entry
               (MapFastbuildInfoTargets g1) !! "tool" = Some 0
    /\ exists g',
         GlobalGenerate zero_entry apostrophe [(tool, "")] start = Some g'
         /\ treated (MapFastbuildInfoTargets g') "tool".
Proof.
  intros start g1.
  destruct (MapFastbuildInfoTargets g1 !! "tool") as [e|] eqn:He;
    [|by vm_compute in He].
  exists e.
  assert (is_treated e = false /\ number_untrated_deps e = 1
          /\ name_target_deps e = ["zlib"]) as (Hun & Hcount & Hdeps).
  { vm_compute in He. injection He as <-. done. }
  destruct (unregistered_dependency_tolerance zero_entry apostrophe
              [(tool, "")] false "" g1 "tool" e)
    as (_ & Hsweep & Hready); [by vm_compute|exact He|exact Hun|].
  destruct Hready as (_ & g' & Hg' & Htreated & _).
  { intros d Hd _ [x Hx]. rewrite Hdeps in Hd.
    apply list_elem_of_singleton in Hd as ->. by vm_compute in Hx. }
  split; [reflexivity|]. split; [exact Hun|]. split; [exact Hcount|].
  split.
  - rewrite Hsweep.
    cbn [fmap option_fmap option_map number_untrated_deps
         set_number_untrated_deps].
    rewrite Hcount, Hdeps. by vm_compute.
  - exists g'. split; [exact Hg'|exact Htreated].
Defined.

(** ** A target that depends on itself *)

(** C4 fails on a target whose dependency list holds its own key, here
    an executable that links a library of its own name:
    [GetNumberUntratedDepsTarget] leaves the self-reference out of the
    count, [TargetTreatedFinish] decrements for it all the same, and the
    count of the finished entry ends below zero. *)
Theorem self_dependency_negative_count :
  GetType selfish = EXECUTABLE
  /\ ComputeLinkDeps selfish "" false = ["lib/core.lib"]
  /\ GetNameDepsTargets selfish "" = [target_key selfish ""]
  /\ exists g',
       GlobalGenerate zero_entry apostrophe [(selfish, "")]
         (new_generator false "") = Some g'
       /\ trace g' = [EvBegin "core"; EvWritten "core"]
       /\ (fun e => (is_treated e, number_untrated_deps e))
            <$> MapFastbuildInfoTargets g' !! "core"
          = Some (true, -1).
Proof.
  split; [reflexivity|]. split; [reflexivity|]. split; [by vm_compute|].
  eexists. by vm_compute.
Qed.

(** ** Error messages do not steer the generation *)

Section Errors.

Variable fresh : cmFastbuildInfoTarget.
Variable quotation : string.

Lemma set_errors_same g : set_errors (errors g) g = g.
Proof. by destruct g. Qed.

Lemma AddTargetAliasFB_set_errors alias listDeps cfg excl E g :
  AddTargetAliasFB alias listDeps cfg excl (set_errors E g)
  = set_errors E (AddTargetAliasFB alias listDeps cfg excl g).
Proof. unfold AddTargetAliasFB. simpl. by destruct (_ !! _). Qed.

Lemma WriteTargetBlocksFB_set_errors t cfg E g :
  WriteTargetBlocksFB quotation t cfg (set_errors E g)
  = set_errors E (WriteTargetBlocksFB quotation t cfg g).
Proof.
  unfold WriteTargetBlocksFB, WriteDLLFB, WriteLibraryFB, WriteExecutableFB,
    WriteObjectListsFB_alias, GetNameTargetLibraries.
  destruct (GetType t); simpl; try done;
    repeat (rewrite ?AddTargetAliasFB_set_errors; simpl;
            try match goal with
                | |- context [if ?b then _ else _] => destruct b
                end);
    try done.
Qed.

Lemma for_each_errors {A : Type}
    (body : generator -> A -> option generator) l :
  (forall g x, exists new, forall E,
      body (set_errors E g) x = set_errors (E ++ new) <$> body g x) ->
  forall g, exists new, forall E,
    for_each body l (set_errors E g)
    = set_errors (E ++ new) <$> for_each body l g.
Proof.
  intros Hbody. induction l as [|x l IH]; intros g; simpl.
  - exists []. intros E. by rewrite app_nil_r.
  - destruct (Hbody g x) as [n1 H1].
    destruct (body g x) as [g1|] eqn:Hb.
    + destruct (IH g1) as [n2 H2]. exists (n1 ++ n2). intros E.
      rewrite H1. simpl. rewrite H2. by rewrite app_assoc.
    + exists []. intros E. by rewrite H1.
Qed.

Lemma TargetTreatedFinish_step_errors Gen T :
  errors_frame Gen ->
  forall g k, exists new, forall E,
    TargetTreatedFinish_step fresh Gen T (set_errors E g) k
    = set_errors (E ++ new) <$> TargetTreatedFinish_step fresh Gen T g k.
Proof.
  intros HGen g k. unfold TargetTreatedFinish_step.
  cbn [MapFastbuildInfoTargets set_errors].
  destruct (MapFastbuildInfoTargets g !! k) as [fit|].
  - destruct (CanTreatTargetFB fresh _ _ _) as [[|] m2].
    + destruct (HGen (gt (map_at fresh k m2)) (config (map_at fresh k m2))
                  (set_ledger m2 g)) as [new Hnew].
      exists new. intros E. apply Hnew.
    + exists []. intros E. cbn. by rewrite app_nil_r.
  - exists []. intros E. cbn. by rewrite app_nil_r.
Qed.

Lemma WriteTargetFB_errors Gen t cfg :
  errors_frame Gen ->
  forall g, exists new, forall E,
    WriteTargetFB fresh quotation Gen t cfg (set_errors E g)
    = set_errors (E ++ new) <$> WriteTargetFB fresh quotation Gen t cfg g.
Proof.
  intros HGen g. unfold WriteTargetFB, TargetTreatedFinish.
  set (g3 := log (EvWritten _) (WriteTargetBlocksFB quotation t cfg
                                  (log (EvBegin _) g))).
  set (g4 := set_ledger _ g3).
  destruct (for_each_errors
              (TargetTreatedFinish_step fresh Gen (target_key t cfg))
              (sorted_keys (dom (MapFastbuildInfoTargets g4)))
              (TargetTreatedFinish_step_errors Gen _ HGen) g4)
    as [new Hnew].
  exists new. intros E. rewrite <- Hnew.
  change (log (EvBegin (target_key t cfg)) (set_errors E g))
    with (set_errors E (log (EvBegin (target_key t cfg)) g)).
  rewrite WriteTargetBlocksFB_set_errors. done.
Qed.

Lemma Generate_body_errors Gen :
  errors_frame Gen -> errors_frame (Generate_body fresh quotation Gen).
Proof.
  intros HGen t cfg g. unfold Generate_body.
  destruct (str_empty (TargetLinkLanguage t cfg)).
  { eexists [_]. intros E. done. }
  cbn [MapFastbuildInfoTargets set_errors set_ledger].
  destruct (CanTreatTargetFB fresh _ _ _) as [[|] m2].
  - destruct (WriteTargetFB_errors Gen t cfg HGen
                (set_ledger m2
                   (set_ledger
                      (AddFastbuildInfoTarget t (GetNameDepsTargets t cfg)
                         cfg (MapFastbuildInfoTargets g)) g)))
      as [new Hnew].
    exists new. intros E. apply Hnew.
  - exists []. intros E. simpl. by rewrite app_nil_r.
Qed.

Lemma Generate_errors depth : errors_frame (Generate fresh quotation depth).
Proof.
  induction depth as [|depth IH]; simpl.
  - intros t cfg g. by exists [].
  - by apply Generate_body_errors.
Qed.

Lemma GenerateTargets_errors visits g :
  exists new, forall E,
    GenerateTargets fresh quotation visits (set_errors E g)
    = set_errors (E ++ new) <$> GenerateTargets fresh quotation visits g.
Proof.
  apply for_each_errors. intros g0 [t cfg].
  destruct (Generate_errors (depth_for g0) t cfg g0) as [new Hnew].
  exists new. intros E. apply Hnew.
Qed.

Lemma lastChanceToTreatTargets_errors Gen g :
  errors_frame Gen ->
  exists new, forall E,
    lastChanceToTreatTargets fresh Gen (set_errors E g)
    = set_errors (E ++ new) <$> lastChanceToTreatTargets fresh Gen g.
Proof.
  intros HGen. unfold lastChanceToTreatTargets.
  set (g1 := set_ledger _ g).
  destruct (for_each_errors (lastChanceToTreatTargets_step fresh Gen)
              (sorted_keys (dom (MapFastbuildInfoTargets g1)))) with (g := g1)
    as [new Hnew].
  - intros g0 k. unfold lastChanceToTreatTargets_step.
    cbn [MapFastbuildInfoTargets set_errors].
    destruct (MapFastbuildInfoTargets g0 !! k) as [fit|].
    + destruct (is_treated fit).
      * exists []. intros E. simpl. by rewrite app_nil_r.
      * destruct (CanTreatTargetFB fresh _ _ _) as [[|] m2].
        -- destruct (HGen (gt (map_at fresh k m2))
                       (config (map_at fresh k m2)) (set_ledger m2 g0))
             as [new Hnew].
           exists new. intros E. apply Hnew.
        -- exists []. intros E. simpl. by rewrite app_nil_r.
    + exists []. intros E. simpl. by rewrite app_nil_r.
  - exists new. intros E. by rewrite <- Hnew.
Qed.

Lemma GlobalGenerate_errors visits g :
  exists new, forall E,
    GlobalGenerate fresh quotation visits (set_errors E g)
    = set_errors (E ++ new) <$> GlobalGenerate fresh quotation visits g.
Proof.
  unfold GlobalGenerate.
  destruct (GenerateTargets_errors visits g) as [n1 H1].
  destruct (GenerateTargets fresh quotation visits g) as [g1|] eqn:Hg1.
  - destruct (lastChanceToTreatTargets_errors
                (Generate fresh quotation (depth_for g1)) g1
                (Generate_errors _)) as [n2 H2].
    exists (n1 ++ n2). intros E. rewrite H1. simpl.
    change (depth_for (set_errors (E ++ n1) g1)) with (depth_for g1).
    rewrite H2. by rewrite app_assoc.
  - exists []. intros E. by rewrite H1.
Qed.

Lemma Generate_no_linker_language depth t cfg g :
  str_empty (TargetLinkLanguage t cfg) = true ->
  Generate fresh quotation (S depth) t cfg g
  = Some (Error (no_linker_language t) g).
Proof. intros H. simpl. unfold Generate_body. by rewrite H. Qed.

(** A visit of a target without link language, anywhere in a pass,
    changes the outcome of the pass by error messages only. *)
Lemma GlobalGenerate_skips t cfg l1 l2 g gf :
  str_empty (TargetLinkLanguage t cfg) = true ->
  GlobalGenerate fresh quotation (l1 ++ l2) g = Some gf ->
  exists E,
    GlobalGenerate fresh quotation (l1 ++ (t, cfg) :: l2) g
    = Some (set_errors E gf)
    /\ no_linker_language t ∈ E.
Proof.
  intros Hlang. unfold GlobalGenerate, GenerateTargets.
  rewrite !for_each_app.
  destruct (for_each _ l1 g) as [g1|]; [|done].
  cbn [for_each].
  assert (GenerateTarget fresh quotation g1 (t, cfg)
          = Some (set_errors (errors g1 ++ [no_linker_language t]) g1))
    as ->.
  { exact (Generate_no_linker_language _ t cfg g1 Hlang). }
  destruct (GenerateTargets_errors l2 g1) as [n2 H2].
  unfold GenerateTargets in H2. rewrite H2.
  destruct (for_each _ l2 g1) as [g2|]; [|done].
  cbn [fmap option_fmap option_map].
  change (depth_for (set_errors ((errors g1 ++ [no_linker_language t]) ++ n2)
                       g2))
    with (depth_for g2).
  destruct (lastChanceToTreatTargets_errors
              (Generate fresh quotation (depth_for g2)) g2
              (Generate_errors _)) as [n3 H3].
  rewrite H3. intros ->. cbn [fmap option_fmap option_map].
  eexists. split; [done|].
  rewrite !elem_of_app. left. left. right. by left.
Qed.

(** C7.  For a target whose link language for the configuration is
    empty, [Generate] reports the error that names the target and
    returns, leaving the ledger, the log of generated targets and the
    alias table as they were: nothing is emitted for the target.  And a
    pass that visits such a target, at any place among the others,
    returns with the ledger, the log and the aliases of the pass without
    that visit, so the other targets are generated all the same, and
    with the error message among the errors. *)
Theorem missing_linker_language_is_not_fatal
    (t : cmGeneratorTarget) (cfg : string) :
  str_empty (TargetLinkLanguage t cfg) = true ->
  (forall depth g,
      exists g',
        Generate fresh quotation (S depth) t cfg g = Some g'
        /\ errors g' = errors g ++ [no_linker_language t]
        /\ MapFastbuildInfoTargets g' = MapFastbuildInfoTargets g
        /\ trace g' = trace g
        /\ TargetAliasesFB g' = TargetAliasesFB g
        /\ TargetAliasesOrderedFB g' = TargetAliasesOrderedFB g)
  /\ (forall l1 l2 multi dflt,
        exists gf g',
          GlobalGenerate fresh quotation (l1 ++ l2)
            (new_generator multi dflt) = Some gf
          /\ GlobalGenerate fresh quotation (l1 ++ (t, cfg) :: l2)
               (new_generator multi dflt) = Some g'
          /\ MapFastbuildInfoTargets g' = MapFastbuildInfoTargets gf
          /\ trace g' = trace gf
          /\ TargetAliasesFB g' = TargetAliasesFB gf
          /\ TargetAliasesOrderedFB g' = TargetAliasesOrderedFB gf
          /\ no_linker_language t ∈ errors g').
Proof.
  intros Hlang. split.
  - intros depth g. eexists. split.
    + by apply Generate_no_linker_language.
    + done.
  - intros l1 l2 multi dflt.
    destruct (GlobalGenerate_correct fresh quotation (l1 ++ l2)
                (new_generator multi dflt) (new_generator_inv multi dflt))
      as (_ & gf & _ & Hgf & _).
    destruct (GlobalGenerate_skips t cfg l1 l2 _ gf Hlang Hgf)
      as (E & HE & Hin).
    exists gf, (set_errors E gf). by split_and!.
Qed.

End Errors.

Lemma missing_linker_language_is_not_fatal_witness :
  str_empty (TargetLinkLanguage broken "Debug") = true
  /\ exists gf g',
       GlobalGenerate zero_entry apostrophe [(sibling, "Debug")]
         (new_generator false "") = Some gf
       /\ GlobalGenerate zero_entry apostrophe
            [(broken, "Debug"); (sibling, "Debug")]
            (new_generator false "") = Some g'
       /\ trace g' = trace gf
       /\ no_linker_language broken ∈ errors g'.
Proof.
  split; [reflexivity|].
  destruct (missing_linker_language_is_not_fatal zero_entry apostrophe
              broken "Debug") as [_ Hpass]; [reflexivity|].
  destruct (Hpass [] [(sibling, "Debug")] false "")
    as (gf & g' & Hgf & Hg' & _ & Htr & _ & _ & Herr).
  exists gf, g'. by split_and!.
Defined.

(** ** The diamond *)

Lemma emission_order_sound_witness :
  exists g',
    GlobalGenerate zero_entry apostrophe diamond (new_generator false "")
    = Some g'
    /\ depends_on (MapFastbuildInfoTargets g') "dRelease" "aRelease"
    /\ EvBegin "dRelease" ∈ trace g'
    /\ written_before "aRelease" "dRelease" (trace g').
Proof.
  destruct (emission_order_sound zero_entry apostrophe diamond false "")
    as (g' & Hg' & Hord).
  exists g'. split; [exact Hg'|].
  set (gx := default (new_generator false "")
               (GlobalGenerate zero_entry apostrophe diamond
                  (new_generator false ""))).
  assert (g' = gx) as ->.
  { apply (inj Some). rewrite <- Hg'. by vm_compute. }
  assert (depends_on (MapFastbuildInfoTargets gx) "dRelease" "aRelease")
    as Hdep.
  { apply depends_trans with "bRelease".
    - eapply depends_direct.
      + vm_compute. reflexivity.
      + simpl. apply list_elem_of_In. simpl. auto.
      + eexists. vm_compute. reflexivity.
      + done.
    - eapply depends_direct.
      + vm_compute. reflexivity.
      + simpl. apply list_elem_of_In. simpl. auto.
      + eexists. vm_compute. reflexivity.
      + done. }
  assert (EvBegin "dRelease" ∈ trace gx) as HB.
  { apply list_elem_of_In. vm_compute. auto 10. }
  split; [exact Hdep|]. split; [exact HB|]. by apply Hord.
Defined.

Example diamond_trace :
  trace <$> GlobalGenerate zero_entry apostrophe diamond
              (new_generator false "")
  = Some [ EvBegin "aRelease"; EvWritten "aRelease";
           EvBegin "bRelease"; EvWritten "bRelease";
           EvBegin "cRelease"; EvWritten "cRelease";
           EvBegin "dRelease"; EvWritten "dRelease" ].
Proof. by vm_compute. Qed.

(** C1 as stated fails: the call of [WriteTargetFB] for a dependency
    need not be complete when that for a dependent begins.  In the
    diamond the visits of [dia_d], [dia_c] and [dia_b] write nothing;
    the visit of [dia_a] is one call of [WriteTargetFB] for [dia_a],
    made on an empty log, and when this call returns the log holds the
    marks of [dia_b], [dia_c] and [dia_d], which depend on [dia_a]:
    their calls of [WriteTargetFB] began, and ended, inside
    [TargetTreatedFinish], the last statement of the call for
    [dia_a]. *)
Lemma WriteTargetFB_returns_after_dependents :
  exists g3 g',
    GenerateTargets zero_entry apostrophe
      [(dia_d, "Release"); (dia_c, "Release"); (dia_b, "Release")]
      (new_generator false "") = Some g3
    /\ trace g3 = []
    /\ (let g2 :=
          set_ledger
            (AddFastbuildInfoTarget dia_a (GetNameDepsTargets dia_a "Release")
               "Release" (MapFastbuildInfoTargets g3)) g3 in
        let Gen :=
          Generate zero_entry apostrophe
            (S (size (MapFastbuildInfoTargets g3))) in
        GenerateTarget zero_entry apostrophe g3 (dia_a, "Release")
        = WriteTargetFB zero_entry apostrophe Gen dia_a "Release" g2
        /\ WriteTargetFB zero_entry apostrophe Gen dia_a "Release" g2
           = Some g')
    /\ trace g'
       = [ EvBegin "aRelease"; EvWritten "aRelease";
           EvBegin "bRelease"; EvWritten "bRelease";
           EvBegin "cRelease"; EvWritten "cRelease";
           EvBegin "dRelease"; EvWritten "dRelease" ]
    /\ depends_on (MapFastbuildInfoTargets g') "dRelease" "aRelease"
    /\ GlobalGenerate zero_entry apostrophe diamond (new_generator false "")
       = Some g'.
Proof.
  eexists _, _. split; [by vm_compute|]. split; [reflexivity|].
  split; [split; by vm_compute|]. split; [reflexivity|]. split.
  - apply depends_trans with "bRelease".
    + eapply depends_direct.
      * vm_compute. reflexivity.
      * simpl. apply list_elem_of_In. simpl. auto.
      * eexists. vm_compute. reflexivity.
      * done.
    + eapply depends_direct.
      * vm_compute. reflexivity.
      * simpl. apply list_elem_of_In. simpl. auto.
      * eexists. vm_compute. reflexivity.
      * done.
  - by vm_compute.
Qed.

(** * Part III: further properties of the code *)

(** ** [RemoveDuplicateName] *)

(** X1.  The list [RemoveDuplicateName] returns is in increasing order, has
    no duplicates, and holds exactly the names of its argument. *)
Theorem RemoveDuplicateName_sorted_set (listName : list string) :
  Sorted String.le (RemoveDuplicateName listName)
  /\ NoDup (RemoveDuplicateName listName)
  /\ forall name,
       name ∈ RemoveDuplicateName listName <-> name ∈ listName.
Proof.
  split_and!.
  - unfold RemoveDuplicateName, sorted_keys. apply Sorted_merge_sort; apply _.
  - apply sorted_keys_NoDup.
  - intros name. unfold RemoveDuplicateName.
    by rewrite sorted_keys_elem_of, elem_of_list_to_set.
Qed.

(** X2.  The result depends on the names only, not on their order or their
    repetitions; running the function on its own result changes
    nothing. *)
Theorem RemoveDuplicateName_names_only (l1 l2 : list string) :
  (forall name, name ∈ l1 <-> name ∈ l2) ->
  RemoveDuplicateName l1 = RemoveDuplicateName l2
  /\ RemoveDuplicateName (RemoveDuplicateName l1) = RemoveDuplicateName l1.
Proof.
  intros Hsame.
  assert (forall a b : list string,
            (forall name, name ∈ a <-> name ∈ b) ->
            RemoveDuplicateName a = RemoveDuplicateName b) as Hext.
  { intros a b Hab. unfold RemoveDuplicateName. f_equal.
    apply set_eq. intros name. by rewrite !elem_of_list_to_set. }
  split; [by apply Hext|]. apply Hext. intros name.
  unfold RemoveDuplicateName at 1.
  by rewrite sorted_keys_elem_of, elem_of_list_to_set.
Qed.

Lemma RemoveDuplicateName_names_only_witness :
  RemoveDuplicateName ["b"; "a"; "b"] = RemoveDuplicateName ["a"; "b"]
  /\ RemoveDuplicateName (RemoveDuplicateName ["b"; "a"; "b"])
     = RemoveDuplicateName ["b"; "a"; "b"].
Proof.
  apply (RemoveDuplicateName_names_only ["b"; "a"; "b"] ["a"; "b"]).
  intros name. rewrite !elem_of_cons, !elem_of_nil. tauto.
Defined.

(** ** [GetPath] *)

Lemma str_app_cons a s1 s2 : String a s1 +:+ s2 = String a (s1 +:+ s2).
Proof. reflexivity. Qed.

Lemma str_app_nil s : EmptyString +:+ s = s.
Proof. reflexivity. Qed.

Lemma str_take_substr_from n s : str_take n s +:+ substr_from n s = s.
Proof.
  revert s. induction n as [|n IH]; intros [|a s]; try reflexivity.
  cbn [str_take substr_from]. by rewrite str_app_cons, IH.
Qed.

Lemma find_char_app_None c s1 s2 :
  find_char c (s1 +:+ s2) = None <->
  find_char c s1 = None /\ find_char c s2 = None.
Proof.
  induction s1 as [|a s1 IH].
  - rewrite str_app_nil. cbn. naive_solver.
  - rewrite str_app_cons. cbn [find_char].
    destruct (Ascii.eqb a c); [naive_solver|].
    destruct (find_char c (s1 +:+ s2)), (find_char c s1); cbn in *;
      naive_solver.
Qed.

Lemma rfind_char_rest c s i :
  rfind_char c s = Some i -> find_char c (substr_from (i + 1) s) = None.
Proof.
  revert i. induction s as [|a s IH]; intros i; simpl; [done|].
  destruct (rfind_char c s) as [j|] eqn:Hj.
  - intros [= <-]. simpl. by apply IH.
  - destruct (Ascii.eqb a c); [|done]. intros [= <-]. simpl.
    by apply rfind_char_None.
Qed.

Lemma rfind_char_take_last c s i :
  rfind_char c s = Some i ->
  str_take (i + 1) s = str_take i s +:+ String c EmptyString.
Proof.
  revert i. induction s as [|a s IH]; intros i; simpl; [done|].
  destruct (rfind_char c s) as [j|] eqn:Hj.
  - intros [= <-]. cbn [Nat.add str_take].
    by rewrite (IH j eq_refl), str_app_cons.
  - destruct (Ascii.eqb a c) eqn:Hac; [|done]. intros [= <-].
    apply Ascii.eqb_eq in Hac as ->. by destruct s.
Qed.

(** X3.  [GetPath] splits a path at its last slash: the path is the result
    followed by a rest without slash; the result is empty when the path
    has no slash and ends in a slash otherwise; applying the function
    again changes nothing. *)
Theorem GetPath_splits (fullPath : string) :
  (exists rest,
      fullPath = GetPath fullPath +:+ rest
      /\ has_char slash rest = false)
  /\ (has_char slash fullPath = false -> GetPath fullPath = EmptyString)
  /\ (has_char slash fullPath = true ->
      exists dir, GetPath fullPath = dir +:+ "/")
  /\ GetPath (GetPath fullPath) = GetPath fullPath.
Proof.
  split_and!.
  - unfold GetPath, substr. simpl.
    destruct (rfind_char slash fullPath) as [i|] eqn:Hi.
    + exists (substr_from (i + 1) fullPath). split.
      * by rewrite str_take_substr_from.
      * apply find_char_None_has. by eapply rfind_char_rest.
    + exists fullPath. split; [done|].
      by apply find_char_None_has, rfind_char_None.
  - intros Hno. apply find_char_None_has, rfind_char_None in Hno.
    unfold GetPath. by rewrite Hno.
  - intros Has. unfold GetPath, substr. simpl.
    destruct (rfind_char slash fullPath) as [i|] eqn:Hi.
    + exists (str_take i fullPath). by apply rfind_char_take_last.
    + apply rfind_char_None, find_char_None_has in Hi. congruence.
  - apply GetPath_idempotent.
Qed.

Lemma GetPath_splits_witness :
  GetPath "obj/sub/a.cpp.o" = "obj/sub/"
  /\ GetPath "a.cpp.o" = EmptyString.
Proof.
  destruct (GetPath_splits "a.cpp.o") as (_ & Hnone & _).
  split; [reflexivity|]. apply Hnone. reflexivity.
Defined.

(** ** [RemoveBackslashBeforeDoubleRib] *)

Lemma str_length_app s1 s2 :
  String.length (s1 +:+ s2) = (String.length s1 + String.length s2)%nat.
Proof.
  induction s1 as [|a s1 IH]; [done|].
  rewrite str_app_cons. cbn [String.length]. by rewrite IH.
Qed.

Lemma str_take_length n s :
  String.length (str_take n s) = Nat.min n (String.length s).
Proof.
  revert s. induction n as [|n IH]; intros [|a s]; cbn; try done.
  by rewrite IH.
Qed.

Lemma substr_from_length n s :
  String.length (substr_from n s) = (String.length s - n)%nat.
Proof.
  revert s. induction n as [|n IH]; intros [|a s]; cbn; try done.
Qed.

Lemma find_str_lt pat s i :
  pat <> EmptyString -> find_str pat s = Some i ->
  (i < String.length s)%nat.
Proof.
  intros Hpat. destruct pat as [|p pat]; [done|]. clear Hpat.
  revert i. induction s as [|a s IH]; intros i.
  - done.
  - change (find_str (String p pat) (String a s))
      with (if String.prefix (String p pat) (String a s) then Some 0%nat
            else S <$> find_str (String p pat) s).
    destruct (String.prefix (String p pat) (String a s)).
    + intros [= <-]. cbn. lia.
    + destruct (find_str (String p pat) s) as [j|]; [|done].
      cbn. intros [= <-]. specialize (IH j eq_refl). lia.
Qed.

Lemma erase_at_length i s :
  (i < String.length s)%nat ->
  String.length (erase_at i s) = (String.length s - 1)%nat.
Proof.
  intros Hi. unfold erase_at.
  rewrite str_length_app, str_take_length, substr_from_length. lia.
Qed.

Lemma RemoveBackslash_loop_clean rounds str :
  (String.length str <= rounds)%nat ->
  find_str backslash_dquote (RemoveBackslash_loop rounds str) = None
  /\ (String.length (RemoveBackslash_loop rounds str)
      <= String.length str)%nat.
Proof.
  revert str. induction rounds as [|rounds IH]; intros str Hlen.
  - destruct str; [|cbn in Hlen; lia]. done.
  - cbn [RemoveBackslash_loop]. fold backslash_dquote.
    destruct (find_str backslash_dquote str) as [found|] eqn:Hf; [|done].
    assert (found < String.length str)%nat as Hlt.
    { apply (find_str_lt backslash_dquote); [done|exact Hf]. }
    pose proof (erase_at_length found str Hlt) as He.
    destruct (IH (erase_at found str)) as [H1 H2]; [lia|].
    split; [done|lia].
Qed.

(** An [int] holds every position of a string shorter than [2^31]
    characters, and [npos] comes back from it as [npos]. *)
Lemma int_holds_position n :
  0 <= n < 2 ^ 31 -> size_t_of_int (int_of_size_t n) = n.
Proof.
  intros Hn. unfold size_t_of_int, int_of_size_t.
  rewrite (Z.mod_small (n + 2 ^ 31)) by lia.
  rewrite Z.mod_small by lia. lia.
Qed.

Lemma int_holds_npos : size_t_of_int (int_of_size_t npos) = npos.
Proof. reflexivity. Qed.

Lemma int_of_find (r : option nat) (len : nat) :
  Z.of_nat len < 2 ^ 31 ->
  (forall i, r = Some i -> (i < len)%nat) ->
  size_t_of_int (int_of_size_t (size_t_of_find r))
  = size_t_of_find r
  /\ (size_t_of_find r =? npos)
     = match r with Some _ => false | None => true end.
Proof.
  intros Hlen Hr. destruct r as [i|]; cbn [size_t_of_find].
  - specialize (Hr i eq_refl). split.
    + apply int_holds_position. lia.
    + apply Z.eqb_neq. unfold npos. lia.
  - split; [apply int_holds_npos|reflexivity].
Qed.

Lemma RemoveBackslash_loop_int_eq rounds str :
  RemoveBackslash_loop_int rounds str
  = let found :=
      int_of_size_t (size_t_of_find (find_str backslash_dquote str)) in
    if size_t_of_int found =? npos then Some str
    else
      match rounds with
      | O => None
      | S rounds' =>
          match replace_at (size_t_of_int found) str with
          | Some str' => RemoveBackslash_loop_int rounds' str'
          | None => None
          end
      end.
Proof. by destruct rounds. Qed.

(** On a string shorter than [2^31] characters the loop with the
    position in an [int] does what the loop with the exact position
    does. *)
Lemma RemoveBackslash_loop_int_short rounds str :
  Z.of_nat (String.length str) < 2 ^ 31 ->
  (String.length str <= rounds)%nat ->
  RemoveBackslash_loop_int rounds str
  = Some (RemoveBackslash_loop rounds str).
Proof.
  revert str. induction rounds as [|rounds IH]; intros str Hshort Hlen;
    rewrite RemoveBackslash_loop_int_eq; cbv zeta.
  - destruct str; [|cbn in Hlen; lia]. reflexivity.
  - destruct (int_of_find (find_str backslash_dquote str) (String.length str)
                Hshort) as [-> ->].
    { intros i Hi. apply (find_str_lt backslash_dquote); [done|exact Hi]. }
    cbn [RemoveBackslash_loop]. fold backslash_dquote.
    destruct (find_str backslash_dquote str) as [found|] eqn:Hf; [|done].
    assert (found < String.length str)%nat as Hlt.
    { apply (find_str_lt backslash_dquote); [done|exact Hf]. }
    cbn [size_t_of_find]. unfold replace_at.
    assert ((Z.of_nat (String.length str) <? Z.of_nat found) = false) as ->
      by (apply Z.ltb_ge; lia).
    rewrite Nat2Z.id.
    pose proof (erase_at_length found str Hlt) as He.
    apply IH; lia.
Qed.

(** X4.  On a string shorter than [2^31] characters, the range of the
    [int] that holds the position, [RemoveBackslashBeforeDoubleRib]
    returns, and in what it returns no backslash stands directly before
    a double quote.  The string never grows, and a string without such
    a pair is returned as it is. *)
Theorem RemoveBackslashBeforeDoubleRib_clean (str : string) :
  Z.of_nat (String.length str) < 2 ^ 31 ->
  exists str',
    RemoveBackslashBeforeDoubleRib_int str = Some str'
    /\ find_str backslash_dquote str' = None
    /\ (String.length str' <= String.length str)%nat
    /\ (find_str backslash_dquote str = None -> str' = str).
Proof.
  intros Hshort. exists (RemoveBackslash_loop (String.length str) str).
  unfold RemoveBackslashBeforeDoubleRib_int.
  rewrite RemoveBackslash_loop_int_short by done.
  destruct (RemoveBackslash_loop_clean (String.length str) str) as [H1 H2];
    [done|].
  split_and!; try done.
  intros Hnone. destruct (String.length str); [done|].
  cbn [RemoveBackslash_loop]. fold backslash_dquote. by rewrite Hnone.
Qed.

Lemma RemoveBackslashBeforeDoubleRib_clean_witness :
  let str :=
    "-DCMAKE_INTDIR=" +:+ backslash_dquote +:+ "Release" +:+ backslash_dquote
  in
  Z.of_nat (String.length str) < 2 ^ 31
  /\ find_str backslash_dquote str = Some 15%nat
  /\ exists str',
       RemoveBackslashBeforeDoubleRib_int str = Some str'
       /\ find_str backslash_dquote str' = None
       /\ (String.length str' <= String.length str)%nat.
Proof.
  intros str. split; [reflexivity|]. split; [reflexivity|].
  destruct (RemoveBackslashBeforeDoubleRib_clean str) as (str' & H1 & H2 & H3 & _);
    [reflexivity|].
  exists str'. split; [exact H1|]. split; [exact H2|exact H3].
Defined.

(** ** [ReplaceDashWithUnderscores] and [GetShortOutputName] *)

Lemma str_app_assoc s1 s2 s3 : (s1 +:+ s2) +:+ s3 = s1 +:+ (s2 +:+ s3).
Proof.
  induction s1 as [|a s1 IH]; [done|]. by rewrite !str_app_cons, IH.
Qed.

Lemma ReplaceDash_app s1 s2 :
  ReplaceDashWithUnderscores (s1 +:+ s2)
  = ReplaceDashWithUnderscores s1 +:+ ReplaceDashWithUnderscores s2.
Proof.
  induction s1 as [|a s1 IH]; [done|].
  rewrite str_app_cons. cbn [ReplaceDashWithUnderscores].
  destruct (Ascii.eqb a dash).
  - by rewrite IH, str_app_assoc.
  - by rewrite IH, str_app_cons.
Qed.

Lemma ReplaceDash_no_dash s :
  find_char dash s = None -> ReplaceDashWithUnderscores s = s.
Proof.
  induction s as [|a s IH]; cbn; [done|].
  destruct (Ascii.eqb a dash); [done|].
  destruct (find_char dash s); [done|]. intros _. by rewrite IH.
Qed.

Lemma find_char_split c s i :
  find_char c s = Some i ->
  s = str_take i s +:+ String c (substr_from (S i) s)
  /\ find_char c (str_take i s) = None.
Proof.
  revert i. induction s as [|a s IH]; intros i; cbn [find_char]; [done|].
  destruct (Ascii.eqb a c) eqn:Hac.
  - intros [= <-]. apply Ascii.eqb_eq in Hac as ->. done.
  - destruct (find_char c s) as [j|]; [|done].
    cbn [fmap option_fmap option_map]. intros [= <-].
    destruct (IH j eq_refl) as [H1 H2]. split.
    + change (str_take (S j) (String a s)) with (String a (str_take j s)).
      change (substr_from (S (S j)) (String a s))
        with (substr_from (S j) s).
      by rewrite str_app_cons, <- H1.
    + cbn [str_take find_char]. by rewrite Hac, H2.
Qed.

Lemma count_char_app c s1 s2 :
  count_char c (s1 +:+ s2) = (count_char c s1 + count_char c s2)%nat.
Proof.
  induction s1 as [|a s1 IH]; [done|].
  rewrite str_app_cons. cbn [count_char]. rewrite IH.
  by destruct (Ascii.eqb a c).
Qed.

Lemma count_char_none c s : find_char c s = None -> count_char c s = 0%nat.
Proof.
  induction s as [|a s IH]; cbn; [done|].
  destruct (Ascii.eqb a c); [done|]. destruct (find_char c s); [done|].
  intros _. by apply IH.
Qed.

Lemma count_char_length c s : (count_char c s <= String.length s)%nat.
Proof.
  induction s as [|a s IH]; cbn; [done|]. destruct (Ascii.eqb a c); lia.
Qed.

Lemma ReplaceDash_find_char c s :
  c <> "_"%char ->
  find_char c s = None ->
  find_char c (ReplaceDashWithUnderscores s) = None.
Proof.
  intros Hc. assert (Ascii.eqb "_" c = false) as Hu.
  { apply Ascii.eqb_neq. congruence. }
  induction s as [|a s IH];
    cbn [find_char ReplaceDashWithUnderscores]; [done|].
  destruct (Ascii.eqb a c) eqn:Hac; [done|].
  destruct (find_char c s); [done|]. intros _.
  destruct (Ascii.eqb a dash).
  - change ("__" +:+ ReplaceDashWithUnderscores s)
      with (String "_" (String "_" (ReplaceDashWithUnderscores s))).
    cbn [find_char]. by rewrite Hu, IH.
  - cbn [find_char]. by rewrite Hac, IH.
Qed.

Lemma ReplaceDash_dash_free s :
  find_char dash (ReplaceDashWithUnderscores s) = None.
Proof.
  induction s as [|a s IH];
    cbn [find_char ReplaceDashWithUnderscores]; [done|].
  destruct (Ascii.eqb a dash) eqn:Had.
  - change ("__" +:+ ReplaceDashWithUnderscores s)
      with (String "_" (String "_" (ReplaceDashWithUnderscores s))).
    cbn [find_char]. change (Ascii.eqb "_" dash) with false.
    cbn iota. by rewrite IH.
  - cbn [find_char]. by rewrite Had, IH.
Qed.

Lemma ReplaceDash_loop_onepass rounds str :
  (count_char dash str <= rounds)%nat ->
  ReplaceDash_loop rounds str = ReplaceDashWithUnderscores str.
Proof.
  revert str. induction rounds as [|rounds IH]; intros str Hn.
  - cbn. symmetry. apply ReplaceDash_no_dash.
    destruct (find_char dash str) as [i|] eqn:Hf; [|done].
    destruct (find_char_split _ _ _ Hf) as [Hs _].
    rewrite Hs, count_char_app in Hn. cbn in Hn. lia.
  - cbn [ReplaceDash_loop].
    destruct (find_char dash str) as [it|] eqn:Hf.
    + destruct (find_char_split _ _ _ Hf) as [Hs Hnone].
      rewrite IH.
      * rewrite Hs at 3. rewrite !ReplaceDash_app. done.
      * rewrite Hs, count_char_app in Hn. cbn in Hn.
        rewrite !count_char_app. cbn. lia.
    + symmetry. by apply ReplaceDash_no_dash.
Qed.

(** X5.  The [find]/[replace] loop of [ReplaceDashWithUnderscores] comes to an
    end after as many rounds as the name has dashes, at most its length;
    it then holds no dash, each dash having become two underscores, and
    the characters around them are kept in place. *)
Theorem ReplaceDashWithUnderscores_loop (str : string) (rounds : nat) :
  (count_char dash str <= rounds)%nat ->
  ReplaceDash_loop rounds str = ReplaceDashWithUnderscores str
  /\ find_char dash (ReplaceDash_loop rounds str) = None
  /\ String.length (ReplaceDash_loop rounds str)
     = (String.length str + count_char dash str)%nat.
Proof.
  intros Hn. rewrite ReplaceDash_loop_onepass by done.
  split; [done|]. split; [apply ReplaceDash_dash_free|].
  clear. induction str as [|a s IH];
    cbn [ReplaceDashWithUnderscores count_char String.length]; [done|].
  destruct (Ascii.eqb a dash).
  - change ("__" +:+ ReplaceDashWithUnderscores s)
      with (String "_" (String "_" (ReplaceDashWithUnderscores s))).
    cbn [String.length]. rewrite IH. lia.
  - cbn [String.length]. rewrite IH. lia.
Qed.

Lemma ReplaceDashWithUnderscores_loop_witness :
  ReplaceDash_loop 2 "my-app-x" = "my__app__x".
Proof.
  destruct (ReplaceDashWithUnderscores_loop "my-app-x" 2) as [H _].
  - cbn. lia.
  - rewrite H. reflexivity.
Defined.

Lemma before_first_dot_dot_free s : find_char dot (before_first_dot s) = None.
Proof.
  induction s as [|a s IH]; cbn; [done|].
  destruct (Ascii.eqb a dot) eqn:Had; [done|]. cbn. by rewrite Had, IH.
Qed.

Lemma find_char_lt c s i :
  find_char c s = Some i -> (i < String.length s)%nat.
Proof.
  revert i. induction s as [|a s IH]; intros i; cbn; [done|].
  destruct (Ascii.eqb a c).
  - intros [= <-]. lia.
  - destruct (find_char c s) as [j|]; [|done]. cbn. intros [= <-].
    specialize (IH j eq_refl). lia.
Qed.

Lemma GetShortOutputName_before_first_dot t cfg :
  Z.of_nat (String.length (GetFullName t cfg)) < 2 ^ 31 ->
  GetShortOutputName t cfg
  = ReplaceDashWithUnderscores (before_first_dot (GetFullName t cfg)).
Proof.
  intros Hshort. unfold GetShortOutputName. cbv zeta. f_equal.
  destruct (int_of_find (find_char dot (GetFullName t cfg))
              (String.length (GetFullName t cfg)) Hshort) as [-> ->].
  { intros i Hi. by eapply find_char_lt. }
  destruct (find_char dot _) as [i|] eqn:Hf; cbn [negb size_t_of_find].
  - pose proof (find_char_lt _ _ _ Hf) as Hlt. unfold substr_count.
    rewrite Z.min_l by lia. rewrite Nat2Z.id.
    by apply substr_0_before_first_dot.
  - symmetry. by apply before_first_dot_no_dot.
Qed.

(** X6.  For a target whose full name is shorter than [2^31] characters,
    the range of the [int] that holds the position of the dot, the short
    name every block and alias name of the target starts with is the
    full name up to its first dot with each dash replaced; it holds
    neither a dot nor a dash. *)
Theorem GetShortOutputName_identifier (t : cmGeneratorTarget)
    (cfg : string) :
  Z.of_nat (String.length (GetFullName t cfg)) < 2 ^ 31 ->
  GetShortOutputName t cfg
  = ReplaceDashWithUnderscores (before_first_dot (GetFullName t cfg))
  /\ has_char dot (GetShortOutputName t cfg) = false
  /\ has_char dash (GetShortOutputName t cfg) = false.
Proof.
  intros Hshort. rewrite GetShortOutputName_before_first_dot by done.
  split; [done|]. split.
  - apply find_char_None_has, ReplaceDash_find_char; [done|].
    apply before_first_dot_dot_free.
  - apply find_char_None_has, ReplaceDash_dash_free.
Qed.

Lemma GetShortOutputName_identifier_witness :
  let t := sample_target "my-tool.v2.exe" EXECUTABLE "MSVC" [] in
  Z.of_nat (String.length (GetFullName t "Release")) < 2 ^ 31
  /\ GetShortOutputName t "Release" = "my__tool"
  /\ has_char dot (GetShortOutputName t "Release") = false
  /\ has_char dash (GetShortOutputName t "Release") = false.
Proof.
  intros t. split; [reflexivity|].
  destruct (GetShortOutputName_identifier t "Release") as (H1 & H2 & H3);
    [reflexivity|].
  split; [rewrite H1; reflexivity|]. split; [exact H2|exact H3].
Defined.

(** ** [GetNameFile] *)

Lemma has_separator_last_component p :
  has_separator (last_component p) = false.
Proof.
  induction p as [|a s IH]; cbn [last_component]; [done|].
  destruct (has_separator s) eqn:Hs; [done|].
  destruct (is_separator a) eqn:Ha; [done|].
  cbn [has_separator]. by rewrite Ha, Hs.
Qed.

Lemma has_separator_before_first_dot s :
  has_separator s = false -> has_separator (before_first_dot s) = false.
Proof.
  induction s as [|a s IH]; cbn [has_separator before_first_dot]; [done|].
  intros [Ha Hs]%orb_false_iff. destruct (Ascii.eqb a dot); [done|].
  cbn [has_separator]. by rewrite Ha, IH.
Qed.

Lemma GetNameFile_fixed name :
  has_char dot name = false -> has_separator name = false ->
  GetNameFile name = name.
Proof.
  intros Hdot [H1 H2]%has_separator_false.
  unfold GetNameFile, component_start. rewrite H1, H2.
  cbn [substr_from]. apply find_char_None_has in Hdot. by rewrite Hdot.
Qed.

(** X7.  The name [GetNameFile] returns never holds a dot.  For a path of one
    separator family it holds no separator either, so that [GetNameFile]
    returns it as it is when applied again. *)
Theorem GetNameFile_stem (path : string) :
  has_char dot (GetNameFile path) = false
  /\ (has_char slash path && has_char backslash path = false ->
      has_separator (GetNameFile path) = false
      /\ GetNameFile (GetNameFile path) = GetNameFile path).
Proof.
  assert (has_char dot (GetNameFile path) = false) as Hdot.
  { rewrite GetNameFile_before_first_dot.
    apply find_char_None_has, before_first_dot_dot_free. }
  split; [done|]. intros Hone.
  assert (has_separator (GetNameFile path) = false) as Hsep.
  { rewrite GetNameFile_before_first_dot, component_start_last_component
      by done.
    apply has_separator_before_first_dot, has_separator_last_component. }
  split; [done|]. by apply GetNameFile_fixed.
Qed.

Lemma GetNameFile_stem_witness :
  GetNameFile (GetNameFile "C:\sdk\lib\zlib.1.lib")
  = GetNameFile "C:\sdk\lib\zlib.1.lib".
Proof.
  destruct (GetNameFile_stem "C:\sdk\lib\zlib.1.lib") as [_ H].
  apply H. reflexivity.
Defined.

Lemma substr_from_rfind c s i :
  rfind_char c s = Some i ->
  substr_from i s = String c (substr_from (i + 1) s).
Proof.
  revert i. induction s as [|a s IH]; intros i; cbn [rfind_char]; [done|].
  destruct (rfind_char c s) as [j|] eqn:Hj.
  - intros [= <-]. cbn [Nat.add substr_from]. by apply IH.
  - destruct (Ascii.eqb a c) eqn:Hac; [|done]. intros [= <-].
    apply Ascii.eqb_eq in Hac as ->. done.
Qed.

Lemma rfind_has_separator c s i :
  is_separator c = true -> rfind_char c s = Some i ->
  has_separator s = true.
Proof.
  intros Hc Hi. destruct (has_separator s) eqn:Hs; [done|].
  apply has_separator_false in Hs as [H1 H2].
  unfold is_separator in Hc.
  apply orb_true_iff in Hc as [->%Ascii.eqb_eq| ->%Ascii.eqb_eq];
    congruence.
Qed.

Lemma last_component_both p f1 f2 :
  rfind_char slash p = Some f1 -> rfind_char backslash p = Some f2 ->
  substr_from (Nat.max f1 f2 + 1) p = last_component p.
Proof.
  revert f1 f2. induction p as [|a s IH]; intros f1 f2;
    cbn [rfind_char last_component]; [done|].
  destruct (rfind_char slash s) as [j1|] eqn:H1,
    (rfind_char backslash s) as [j2|] eqn:H2.
  - intros [= <-] [= <-].
    rewrite (rfind_has_separator slash s j1) by done.
    change (Nat.max (S j1) (S j2)) with (S (Nat.max j1 j2)).
    cbn [Nat.add substr_from]. by apply IH.
  - intros [= <-]. destruct (Ascii.eqb a backslash); [|done].
    intros [= <-]. rewrite (rfind_has_separator slash s j1) by done.
    rewrite Nat.max_0_r. cbn [Nat.add substr_from].
    pose proof (component_one_family slash backslash s) as Hc.
    rewrite H1 in Hc. by apply Hc.
  - destruct (Ascii.eqb a slash); [|done]. intros [= <-] [= <-].
    rewrite (rfind_has_separator backslash s j2) by done.
    rewrite Nat.max_0_l. cbn [Nat.add substr_from].
    pose proof (component_one_family backslash slash s) as Hc.
    rewrite H2 in Hc. apply Hc; [|done].
    intros b. unfold is_separator. apply orb_comm.
  - destruct (Ascii.eqb a slash) eqn:Has; [|done].
    destruct (Ascii.eqb a backslash) eqn:Hab; [|done].
    apply Ascii.eqb_eq in Has, Hab. subst a. done.
Qed.

(** X8.  On a path that holds both a slash and a backslash, [GetNameFile]
    (and [GetNameTargetLibrary], which starts in the same way) cuts AT
    the last separator and not after it: the name it returns starts with
    that separator. *)
Theorem GetNameFile_mixed_separators (path : string) :
  has_char slash path = true -> has_char backslash path = true ->
  exists sep,
    is_separator sep = true
    /\ substr_from (component_start path) path
       = String sep (last_component path)
    /\ GetNameFile path
       = String sep (before_first_dot (last_component path)).
Proof.
  intros H1 H2.
  destruct (rfind_char slash path) as [f1|] eqn:Hf1; cycle 1.
  { apply rfind_char_None, find_char_None_has in Hf1. congruence. }
  destruct (rfind_char backslash path) as [f2|] eqn:Hf2; cycle 1.
  { apply rfind_char_None, find_char_None_has in Hf2. congruence. }
  pose proof (last_component_both path f1 f2 Hf1 Hf2) as Hlast.
  assert (exists sep,
    is_separator sep = true /\ Ascii.eqb sep dot = false
    /\ substr_from (component_start path) path
       = String sep (last_component path)) as (sep & Hsep & Hnd & Hcut).
  { unfold component_start. rewrite Hf1, Hf2.
    destruct (f1 <? f2)%nat eqn:Hlt.
    - apply Nat.ltb_lt in Hlt. exists backslash. split_and!; try done.
      rewrite (substr_from_rfind _ _ _ Hf2), <- Hlast.
      by replace (Nat.max f1 f2) with f2 by lia.
    - apply Nat.ltb_ge in Hlt. exists slash. split_and!; try done.
      rewrite (substr_from_rfind _ _ _ Hf1), <- Hlast.
      by replace (Nat.max f1 f2) with f1 by lia. }
  exists sep. split_and!; try done.
  rewrite GetNameFile_before_first_dot, Hcut.
  cbn [before_first_dot]. by rewrite Hnd.
Qed.

Lemma GetNameFile_mixed_separators_witness :
  exists sep,
    is_separator sep = true
    /\ GetNameFile "C:\proj/out/core.lib"
       = String sep (before_first_dot (last_component "C:\proj/out/core.lib")).
Proof.
  destruct (GetNameFile_mixed_separators "C:\proj/out/core.lib")
    as (sep & Hsep & _ & Hname); [reflexivity..|].
  exists sep. by split.
Defined.

(** ** [GetFileDeps] *)

Lemma rfind_char_app c s1 s2 :
  rfind_char c (s1 +:+ s2)
  = match rfind_char c s2 with
    | Some j => Some (String.length s1 + j)%nat
    | None => rfind_char c s1
    end.
Proof.
  induction s1 as [|a s1 IH].
  - rewrite str_app_nil. by destruct (rfind_char c s2).
  - rewrite str_app_cons. cbn [rfind_char String.length]. rewrite IH.
    by destruct (rfind_char c s2).
Qed.

Lemma substr_from_app_length s1 s2 :
  substr_from (String.length s1) (s1 +:+ s2) = s2.
Proof.
  induction s1 as [|a s1 IH]; [done|].
  rewrite str_app_cons. cbn [String.length substr_from]. done.
Qed.

Lemma is_manifest_suffix stem : is_manifest (stem +:+ ".manifest") = true.
Proof.
  unfold is_manifest. rewrite rfind_char_app.
  change (rfind_char dot ".manifest") with (Some 0%nat).
  cbn iota. unfold substr. rewrite Nat.add_0_r, substr_from_app_length.
  reflexivity.
Qed.

(** X9.  [GetFileDeps] returns the link dependencies of the target without
    those whose last extension is [.manifest], in increasing order and
    without duplicates; no path ending in [.manifest] is ever among
    them. *)
Theorem GetFileDeps_drops_manifests (t : cmGeneratorTarget) (cfg : string) :
  (forall dep,
      dep ∈ GetFileDeps t cfg
      <-> dep ∈ ComputeLinkDeps t cfg false /\ is_manifest dep = false)
  /\ (forall stem, stem +:+ ".manifest" ∉ GetFileDeps t cfg)
  /\ NoDup (GetFileDeps t cfg).
Proof.
  assert (forall dep,
      dep ∈ GetFileDeps t cfg
      <-> dep ∈ ComputeLinkDeps t cfg false /\ is_manifest dep = false) as Hin.
  { intros dep. unfold GetFileDeps.
    rewrite RemoveDuplicateName_elem_of, list_elem_of_filter. naive_solver. }
  split_and!; [done| |apply RemoveDuplicateName_NoDup].
  intros stem [_ Hm]%Hin. by rewrite is_manifest_suffix in Hm.
Qed.

(** ** [GetNameTargetLibrary] *)

Lemma find_char_substr_from c n s :
  find_char c s = None -> find_char c (substr_from n s) = None.
Proof.
  revert s. induction n as [|n IH]; intros [|a s]; cbn [substr_from];
    try done.
  cbn [find_char]. destruct (Ascii.eqb a c); [done|].
  destruct (find_char c s) eqn:Hf; [done|]. intros _. by apply IH.
Qed.

(** X10.  For a path whose last component has no extension,
    [GetNameTargetLibrary] gives the empty name in a single-configuration
    build and the configuration behind an underscore in a
    multi-configuration one; in a single-configuration build
    [GetNameTargetLibraries] therefore never lists such a dependency. *)
Theorem GetNameTargetLibrary_no_extension (path cfg : string) :
  has_char dot path = false ->
  GetNameTargetLibrary path false cfg = EmptyString
  /\ GetNameTargetLibrary path true cfg = "_" +:+ cfg
  /\ forall m compilerId,
       library_name_of m compilerId false cfg path = None.
Proof.
  intros Hdot%find_char_None_has.
  assert (forall multi,
    GetNameTargetLibrary path multi cfg
    = if multi then "_" +:+ cfg else EmptyString) as Hname.
  { intros multi. unfold GetNameTargetLibrary.
    pose proof (find_char_substr_from dot (component_start path) path Hdot)
      as Hnone.
    apply rfind_char_None in Hnone. rewrite Hnone. by destruct multi. }
  split_and!; [apply (Hname false)|apply (Hname true)|].
  intros m id. unfold library_name_of. rewrite (Hname false).
  by destruct (is_gcc_or_clang id).
Qed.

Lemma GetNameTargetLibrary_no_extension_witness :
  GetNameTargetLibrary "/usr/lib/libm" true "Debug" = "_Debug".
Proof.
  destruct (GetNameTargetLibrary_no_extension "/usr/lib/libm" "Debug")
    as (_ & H & _); [reflexivity|exact H].
Defined.

(** ** [Quote] *)

Lemma str_app_inv_head p a b : p +:+ a = p +:+ b -> a = b.
Proof.
  induction p as [|c p IH]; [done|].
  rewrite !str_app_cons. intros [= H]. by apply IH.
Qed.

Lemma str_app_inv_tail a b q : a +:+ q = b +:+ q -> a = b.
Proof.
  revert b. induction a as [|c a IH]; intros [|d b].
  - done.
  - intros H. apply (f_equal String.length) in H.
    rewrite str_app_nil, str_app_cons in H. cbn [String.length] in H.
    rewrite str_length_app in H. lia.
  - intros H. apply (f_equal String.length) in H.
    rewrite str_app_nil, str_app_cons in H. cbn [String.length] in H.
    rewrite str_length_app in H. lia.
  - rewrite !str_app_cons. intros [= -> H]. f_equal. by apply IH.
Qed.

(** X11.  [Quote] leaves the empty string empty, without quotation marks, and
    only it; different strings have different quoted forms, so that
    different names never meet in one alias. *)
Theorem Quote_injective (quotation a b : string) :
  a <> b ->
  Quote quotation a <> Quote quotation b
  /\ (Quote quotation a = EmptyString <-> a = EmptyString).
Proof.
  assert (forall s, Quote quotation s = EmptyString <-> s = EmptyString)
    as Hempty.
  { intros s. unfold Quote. destruct s as [|c s]; [done|].
    cbn [str_empty]. split; [|done]. intros H.
    apply (f_equal String.length) in H.
    rewrite !str_length_app in H. cbn [String.length] in H. lia. }
  intros Hne. split; [|apply Hempty]. intros Heq. apply Hne.
  destruct a as [|c a].
  - symmetry. apply Hempty. by rewrite <- Heq.
  - destruct b as [|d b].
    + apply Hempty. by rewrite Heq.
    + unfold Quote in Heq. cbn [str_empty] in Heq.
      apply str_app_inv_head in Heq. by apply str_app_inv_tail in Heq.
Qed.

Lemma Quote_injective_witness :
  "core_lib" <> "core_dll"
  /\ Quote "'" "core_lib" <> Quote "'" "core_dll".
Proof.
  assert ("core_lib" <> "core_dll") as Hne by done.
  split; [exact Hne|]. apply (Quote_injective "'" "core_lib" "core_dll" Hne).
Defined.

(** ** The entries a pass leaves unfinished *)

Section Quiescence.

Variable fresh : cmFastbuildInfoTarget.
Variable quotation : string.
Variable origin : cmGeneratorTarget -> string -> Prop.

Lemma settled_update (X X' : string -> Prop) m k e e' :
  settled origin X m -> m !! k = Some e ->
  gt e' = gt e -> config e' = config e ->
  (forall k0, k0 <> k -> X k0 -> X' k0) ->
  (is_treated e' = false -> ~ X' k -> 0 < number_untrated_deps e') ->
  settled origin X' (<[k := e']> m).
Proof.
  intros Hs He Hg Hc HX Hq k0 e0. destruct (decide (k0 = k)) as [->|Hne].
  - rewrite lookup_insert_eq. intros [= <-]. rewrite Hg, Hc.
    by destruct (Hs k e He) as (? & ? & ? & _).
  - rewrite lookup_insert_ne by done. intros He0.
    destruct (Hs k0 e0 He0) as (? & ? & ? & Hq0). split_and!; try done.
    intros Hun Hn. apply Hq0; [done|]. intros HXk. apply Hn. by apply HX.
Qed.

Lemma settled_mono (X X' : string -> Prop) m :
  (forall k, is_Some (m !! k) -> X k -> X' k) ->
  settled origin X m -> settled origin X' m.
Proof.
  intros HX Hs k e He. destruct (Hs k e He) as (? & ? & ? & Hq).
  split_and!; try done. intros Hun Hn. apply Hq; [done|].
  intros HXk. apply Hn. by apply HX.
Qed.

Lemma not_ready_waits e :
  bool_decide (number_untrated_deps e <= 0) && negb (is_treated e) = false ->
  is_treated e = false -> 0 < number_untrated_deps e.
Proof.
  intros Hcan Hun. rewrite Hun, andb_true_r in Hcan.
  apply bool_decide_eq_false in Hcan. lia.
Qed.

Lemma TargetTreatedFinish_step_settled Gen (X : string -> Prop) T g k g' :
  Gen_settled origin Gen ->
  settled origin X (MapFastbuildInfoTargets g) ->
  TargetTreatedFinish_step fresh Gen T g k = Some g' ->
  settled origin X (MapFastbuildInfoTargets g').
Proof.
  intros HGen Hs. unfold TargetTreatedFinish_step.
  destruct (MapFastbuildInfoTargets g !! k) as [fit|] eqn:Hfit;
    [|by intros [= <-]].
  rewrite (foldl_decrement fresh (fun d => T = d) k _ _ fit Hfit).
  set (fit' := set_number_untrated_deps _ fit) in *.
  set (m1 := <[k := fit']> (MapFastbuildInfoTargets g)) in *.
  assert (m1 !! k = Some fit') as Hfit' by apply lookup_insert_eq.
  destruct (Hs k fit Hfit) as (Hkey & Hlang & Horig & _).
  rewrite (map_at_registered fresh k m1 fit' Hfit').
  change (config fit') with (config fit).
  rewrite (CanTreatTargetFB_at fresh (gt fit) (config fit) m1 fit')
    by (by rewrite Hkey).
  destruct (_ && _) eqn:Hcan.
  - rewrite (map_at_registered fresh k m1 fit' Hfit').
    change (config fit') with (config fit).
    change (gt fit') with (gt fit).
    intros HG.
    apply (HGen X (gt fit) (config fit) (set_ledger m1 g) g' Horig Hlang);
      [|done].
    rewrite Hkey. change (MapFastbuildInfoTargets (set_ledger m1 g)) with m1.
    subst m1. apply (settled_update X _ _ k fit fit'); try done.
    + intros k0 Hne HX. by left.
    + intros _ Hn. exfalso. apply Hn. by right.
  - intros [= <-]. change (MapFastbuildInfoTargets (set_ledger m1 g)) with m1.
    subst m1. apply (settled_update X _ _ k fit fit'); try done.
    intros Hun _. by apply not_ready_waits.
Qed.

Lemma Generate_body_settled Gen :
  Gen_settled origin Gen ->
  Gen_settled origin (Generate_body fresh quotation Gen).
Proof.
  intros HGen X t cfg g g' Horig Hlang Hs. unfold Generate_body.
  rewrite Hlang. set (K := target_key t cfg) in *.
  set (m1 := AddFastbuildInfoTarget t (GetNameDepsTargets t cfg) cfg
               (MapFastbuildInfoTargets g)).
  assert (settled origin (fun k => X k \/ k = K) m1
          /\ exists e1, m1 !! K = Some e1) as [Hs1 [e1 He1]].
  { subst m1. unfold AddFastbuildInfoTarget. fold K.
    destruct (MapFastbuildInfoTargets g !! K) as [e|] eqn:He.
    - split; [done|by exists e].
    - split; [|eexists; apply lookup_insert_eq].
      intros k0 e0. destruct (decide (k0 = K)) as [->|Hne].
      + rewrite lookup_insert_eq. intros [= <-].
        cbn [gt config is_treated number_untrated_deps].
        split_and!; try done. intros _ Hn. exfalso. apply Hn. by right.
      + rewrite lookup_insert_ne by done. apply Hs. }
  change (MapFastbuildInfoTargets (set_ledger m1 g)) with m1.
  rewrite (CanTreatTargetFB_at fresh t cfg m1 e1 He1).
  assert (set_ledger m1 (set_ledger m1 g) = set_ledger m1 g) as -> by done.
  destruct (_ && _) eqn:Hcan.
  - unfold WriteTargetFB, TargetTreatedFinish. fold K.
    set (g3 := log (EvWritten K) _).
    assert (MapFastbuildInfoTargets g3 = m1) as Hm3.
    { subst g3. cbn [log MapFastbuildInfoTargets].
      by destruct (WriteTargetBlocksFB_frame quotation t cfg
                     (log (EvBegin K) (set_ledger m1 g))) as [-> _]. }
    rewrite Hm3, (map_set_registered fresh _ _ _ _ He1).
    cbn [MapFastbuildInfoTargets set_ledger]. intros Hloop.
    apply (for_each_inv _
             (fun _ s => settled origin X (MapFastbuildInfoTargets s))
             _ _ _) in Hloop; [done| |].
    + intros x rest s s' Hsx Hstep.
      by eapply TargetTreatedFinish_step_settled.
    + cbn [MapFastbuildInfoTargets set_ledger].
      apply (settled_update _ X _ K e1 (set_is_treated true e1) Hs1);
        try done.
      by intros k0 Hne [?|?].
  - intros [= <-]. change (MapFastbuildInfoTargets (set_ledger m1 g)) with m1.
    intros k0 e0 He0. destruct (Hs1 k0 e0 He0) as (? & ? & ? & Hq).
    split_and!; try done. intros Hun Hn.
    destruct (decide (k0 = K)) as [Heq|Hne].
    + subst k0. assert (e0 = e1) as -> by congruence.
      by apply not_ready_waits.
    + apply Hq; [done|]. by intros [?|?].
Qed.

Lemma Generate_settled depth :
  Gen_settled origin (Generate fresh quotation depth).
Proof.
  induction depth as [|depth IH].
  - by intros X t cfg g g' _ _ _.
  - by apply Generate_body_settled.
Qed.

Lemma GenerateTarget_settled g tc g' :
  origin tc.1 tc.2 ->
  settled origin nothing_pending (MapFastbuildInfoTargets g) ->
  GenerateTarget fresh quotation g tc = Some g' ->
  settled origin nothing_pending (MapFastbuildInfoTargets g').
Proof.
  intros Horig Hs. unfold GenerateTarget, depth_for.
  destruct (str_empty (TargetLinkLanguage tc.1 tc.2)) eqn:Hlang.
  - cbn [Generate]. unfold Generate_body. rewrite Hlang. by intros [= <-].
  - apply (Generate_settled _ nothing_pending tc.1 tc.2); try done.
    eapply settled_mono; [|exact Hs]. intros k _ HX. by left.
Qed.

Lemma GenerateTargets_settled visits g g' :
  (forall tc, tc ∈ visits -> origin tc.1 tc.2) ->
  settled origin nothing_pending (MapFastbuildInfoTargets g) ->
  GenerateTargets fresh quotation visits g = Some g' ->
  settled origin nothing_pending (MapFastbuildInfoTargets g').
Proof.
  unfold GenerateTargets. revert g.
  induction visits as [|tc visits IH]; intros g Horig Hs; cbn [for_each].
  - by intros [= <-].
  - destruct (GenerateTarget fresh quotation g tc) as [g1|] eqn:Hg1; [|done].
    apply IH.
    + intros tc' Hin. apply Horig. by right.
    + eapply GenerateTarget_settled; [|exact Hs|exact Hg1].
      apply Horig. by left.
Qed.

Lemma lastChanceToTreatTargets_step_settled Gen rest g k g' :
  Gen_settled origin Gen ->
  settled origin (fun k0 => k0 ∈ k :: rest) (MapFastbuildInfoTargets g) ->
  lastChanceToTreatTargets_step fresh Gen g k = Some g' ->
  settled origin (fun k0 => k0 ∈ rest) (MapFastbuildInfoTargets g').
Proof.
  intros HGen Hs. unfold lastChanceToTreatTargets_step.
  destruct (MapFastbuildInfoTargets g !! k) as [fit|] eqn:Hfit.
  - destruct (Hs k fit Hfit) as (Hkey & Hlang & Horig & _).
    assert (settled origin (fun k0 => k0 ∈ rest \/ k0 = target_key (gt fit)
                                                        (config fit))
              (MapFastbuildInfoTargets g)) as Hs1.
    { eapply settled_mono; [|exact Hs].
      intros k0 _ [->|?]%elem_of_cons; [by right|by left]. }
    destruct (is_treated fit) eqn:Htr.
    + intros [= <-]. intros k0 e0 He0.
      destruct (Hs k0 e0 He0) as (? & ? & ? & Hq). split_and!; try done.
      intros Hun Hn. apply Hq; [done|].
      intros [->|?]%elem_of_cons; [congruence|done].
    + rewrite (CanTreatTargetFB_at fresh (gt fit) (config fit) _ fit)
        by (by rewrite Hkey).
      destruct (_ && _) eqn:Hcan.
      * rewrite (map_at_registered fresh _ _ _ Hfit).
        rewrite set_ledger_same. intros HG.
        by apply (HGen _ (gt fit) (config fit) g g' Horig Hlang Hs1).
      * rewrite set_ledger_same. intros [= <-]. intros k0 e0 He0.
        destruct (Hs k0 e0 He0) as (? & ? & ? & Hq). split_and!; try done.
        intros Hun Hn. destruct (decide (k0 = k)) as [->|Hne].
        -- assert (e0 = fit) as -> by congruence. by apply not_ready_waits.
        -- apply Hq; [done|]. by intros [->|?]%elem_of_cons.
  - intros [= <-]. eapply settled_mono; [|exact Hs].
    intros k0 [e0 He0] [->|?]%elem_of_cons; [congruence|done].
Qed.

Lemma lastChanceToTreatTargets_settled Gen g g' :
  Gen_settled origin Gen ->
  settled origin nothing_pending (MapFastbuildInfoTargets g) ->
  lastChanceToTreatTargets fresh Gen g = Some g' ->
  settled origin nothing_pending (MapFastbuildInfoTargets g').
Proof.
  intros HGen Hs. unfold lastChanceToTreatTargets.
  set (m1 := DecrementNbDepsTargetUnexist fresh (MapFastbuildInfoTargets g)).
  cbn [MapFastbuildInfoTargets set_ledger]. intros Hloop.
  apply (for_each_inv _
           (fun l s => settled origin (fun k0 => k0 ∈ l)
                         (MapFastbuildInfoTargets s)) _ _ _) in Hloop.
  - eapply settled_mono; [|exact Hloop]. by intros k _ ?%elem_of_nil.
  - intros x rest s s' Hsx Hstep.
    by eapply lastChanceToTreatTargets_step_settled.
  - cbn [MapFastbuildInfoTargets set_ledger]. intros k e He.
    subst m1. rewrite DecrementNbDepsTargetUnexist_lookup in He.
    destruct (MapFastbuildInfoTargets g !! k) as [e0|] eqn:He0; [|done].
    injection He as <-.
    destruct (swept_entry_static (MapFastbuildInfoTargets g) e0)
      as (-> & -> & _ & _).
    destruct (Hs k e0 He0) as (? & ? & ? & _). split_and!; try done.
    intros _ Hn. exfalso. apply Hn.
    apply sorted_keys_elem_of, elem_of_dom.
    rewrite DecrementNbDepsTargetUnexist_lookup, He0. by eexists.
Qed.

Lemma GlobalGenerate_settled visits g g' :
  (forall tc, tc ∈ visits -> origin tc.1 tc.2) ->
  settled origin nothing_pending (MapFastbuildInfoTargets g) ->
  GlobalGenerate fresh quotation visits g = Some g' ->
  settled origin nothing_pending (MapFastbuildInfoTargets g').
Proof.
  intros Horig Hs. unfold GlobalGenerate.
  destruct (GenerateTargets fresh quotation visits g) as [g1|] eqn:Hg1;
    [|done].
  apply lastChanceToTreatTargets_settled; [apply Generate_settled|].
  by eapply GenerateTargets_settled.
Qed.

End Quiescence.

Section PassFacts.

Variable fresh : cmFastbuildInfoTarget.
Variable quotation : string.

Lemma need_pos swept m k deps :
  0 < need swept m k deps ->
  exists d, d ∈ deps /\ d <> k /\ blocks swept m d = true.
Proof.
  unfold need. intros Hpos.
  destruct (filter (fun d => d <> k /\ blocks swept m d = true) deps)
    as [|d l] eqn:Hf; [simpl in Hpos; lia|].
  assert (d ∈ filter (fun d => d <> k /\ blocks swept m d = true) deps)
    as Hin by (rewrite Hf; by left).
  apply list_elem_of_filter in Hin as [[? ?] ?]. eauto.
Qed.

Lemma new_generator_settled origin multi dflt :
  settled origin nothing_pending
    (MapFastbuildInfoTargets (new_generator multi dflt)).
Proof. intros k e He. cbn in He. by rewrite lookup_empty in He. Qed.

Lemma GenerateTargets_registers visits g g1 :
  scheduler_inv false no_debt g ->
  GenerateTargets fresh quotation visits g = Some g1 ->
  forall tc, tc ∈ visits -> linkable tc ->
             is_Some (MapFastbuildInfoTargets g1 !! visit_key tc).
Proof.
  unfold GenerateTargets. revert g.
  induction visits as [|[t cfg] visits IH]; intros g Hinv; cbn [for_each].
  - intros _ tc Hin. by apply elem_of_nil in Hin.
  - destruct (GenerateTarget_total fresh quotation g t cfg Hinv)
      as (g2 & Hg2 & Hinv2 & Hpost).
    rewrite Hg2. intros Hrest tc [->|Hin]%elem_of_cons Hl.
    + destruct (GenerateTargets_correct fresh quotation visits g2 Hinv2)
        as (g' & Hg' & _ & Hev & _).
      unfold GenerateTargets in Hg'. rewrite Hrest in Hg'.
      injection Hg' as <-.
      destruct (post_registered _ _ _ _ Hpost Hl) as [e He].
      destruct (Hev _ _ He) as (e' & He' & _). by exists e'.
    + by eapply IH.
Qed.

(** What a pass from the empty generator leaves: the state after the
    visits, the final state, and the invariants of both. *)
Lemma pass_summary visits multi dflt :
  exists g1 g',
    GenerateTargets fresh quotation visits (new_generator multi dflt)
    = Some g1
    /\ GlobalGenerate fresh quotation visits (new_generator multi dflt)
       = Some g'
    /\ scheduler_inv false no_debt g1
    /\ scheduler_inv true no_debt g'
    /\ cascade_post g1 g'
    /\ settled (fun t cfg => (t, cfg) ∈ visits) nothing_pending
         (MapFastbuildInfoTargets g1)
    /\ settled (fun t cfg => (t, cfg) ∈ visits) nothing_pending
         (MapFastbuildInfoTargets g')
    /\ (forall tc, tc ∈ visits -> linkable tc ->
                   is_Some (MapFastbuildInfoTargets g' !! visit_key tc)).
Proof.
  destruct (GlobalGenerate_correct fresh quotation visits
              (new_generator multi dflt) (new_generator_inv multi dflt))
    as (g1 & g' & Hg1 & Hg' & Hinv1 & Hinv' & Hc & _).
  exists g1, g'. split_and!; try done.
  - eapply GenerateTargets_settled; [|apply new_generator_settled|exact Hg1].
    by intros [t cfg] Hin.
  - eapply GlobalGenerate_settled; [|apply new_generator_settled|exact Hg'].
    by intros [t cfg] Hin.
  - intros tc Hin Hl.
    destruct (GenerateTargets_registers visits _ g1
                (new_generator_inv multi dflt) Hg1 tc Hin Hl) as [e He].
    destruct (casc_evolves _ _ Hc _ _ He) as (e' & He' & _). by exists e'.
Qed.

(** X12.  Whatever the targets and the order of the visits, an entry that the
    pass leaves unfinished still counts at least one dependency, and one
    of its dependencies, other than itself, has an entry that is
    unfinished too: a target stays unwritten only behind another
    unwritten target. *)
Theorem pass_unfinished_is_blocked
    (visits : list (cmGeneratorTarget * string))
    (multi : bool) (dflt : string) :
  exists g',
    GlobalGenerate fresh quotation visits (new_generator multi dflt)
    = Some g'
    /\ forall k e,
         MapFastbuildInfoTargets g' !! k = Some e ->
         is_treated e = false ->
         0 < number_untrated_deps e
         /\ exists d ed,
              d ∈ name_target_deps e /\ d <> k
              /\ MapFastbuildInfoTargets g' !! d = Some ed
              /\ is_treated ed = false.
Proof.
  destruct (pass_summary visits multi dflt)
    as (g1 & g' & _ & Hg' & _ & Hinv' & _ & _ & Hs' & _).
  exists g'. split; [done|]. intros k e He Hun.
  destruct (Hs' k e He) as (_ & _ & _ & Hq).
  assert (0 < number_untrated_deps e) as Hpos by (apply Hq; [done|by intros []]).
  split; [done|].
  pose proof (inv_counts _ _ _ Hinv' k e He Hun) as Hcnt.
  unfold no_debt in Hcnt. rewrite Z.add_0_r in Hcnt. rewrite Hcnt in Hpos.
  destruct (need_pos _ _ _ _ Hpos) as (d & Hd & Hne & Hb).
  unfold blocks in Hb.
  destruct (MapFastbuildInfoTargets g' !! d) as [ed|] eqn:Hed; [|done].
  exists d, ed. split_and!; try done. by apply negb_true_iff.
Qed.

(** X13.  When the dependencies among the visited targets have no cycle
    and no two of these targets share a key, the pass writes every
    visited target that has a link language, whatever the order of the
    visits: the entry under its key is that of the target itself, it is
    finished, and the writing of its blocks was begun and completed. *)
Theorem pass_writes_all_when_acyclic
    (visits : list (cmGeneratorTarget * string))
    (multi : bool) (dflt : string) (rank : string -> nat) :
  ranked visits rank -> keys_of_their_own visits ->
  exists g',
    GlobalGenerate fresh quotation visits (new_generator multi dflt)
    = Some g'
    /\ forall tc,
         tc ∈ visits -> linkable tc ->
         exists e,
           MapFastbuildInfoTargets g' !! visit_key tc = Some e
           /\ (gt e, config e) = tc
           /\ is_treated e = true
           /\ EvBegin (visit_key tc) ∈ trace g'
           /\ EvWritten (visit_key tc) ∈ trace g'.
Proof.
  intros Hrank Hown.
  destruct (pass_summary visits multi dflt)
    as (g1 & g' & _ & Hg' & _ & Hinv' & _ & _ & Hs' & Hreg).
  exists g'. split; [done|].
  assert (forall n k e,
    (rank k < n)%nat -> MapFastbuildInfoTargets g' !! k = Some e ->
    is_treated e = true) as Hall.
  { induction n as [|n IH]; intros k e Hlt He; [lia|].
    destruct (is_treated e) eqn:Hun; [done|]. exfalso.
    destruct (Hs' k e He) as (Hkey & Hlang & Horig & Hq).
    assert (0 < number_untrated_deps e) as Hpos
      by (apply Hq; [done|by intros []]).
    pose proof (inv_counts _ _ _ Hinv' k e He Hun) as Hcnt.
    unfold no_debt in Hcnt. rewrite Z.add_0_r in Hcnt. rewrite Hcnt in Hpos.
    destruct (need_pos _ _ _ _ Hpos) as (d & Hd & Hne & Hb).
    unfold blocks in Hb.
    destruct (MapFastbuildInfoTargets g' !! d) as [ed|] eqn:Hed; [|done].
    apply negb_true_iff in Hb.
    destruct (inv_wf _ _ _ Hinv' k e He) as (_ & _ & Hdeps).
    destruct (Hs' d ed Hed) as (Hkeyd & Hlangd & Horigd & _).
    assert (rank d < rank k)%nat as Hlt'.
    { specialize (Hrank (gt e, config e) d). unfold visit_key in Hrank.
      cbn [fst snd] in Hrank. rewrite Hkey in Hrank.
      apply Hrank; try done; [by rewrite <- Hdeps|].
      by exists (gt ed, config ed). }
    assert (is_treated ed = true) as Htr by (apply (IH d ed); [lia|done]).
    congruence. }
  intros tc Hin Hl. destruct (Hreg tc Hin Hl) as [e He].
  assert (is_treated e = true) as Htr.
  { apply (Hall (S (rank (visit_key tc))) (visit_key tc) e); [lia|done]. }
  destruct (Hs' _ e He) as (Hkey & Hlang & Horig & _).
  assert (EvWritten (visit_key tc) ∈ trace g') as Hw.
  { apply (tr_written _ _ _ (inv_trace _ _ _ Hinv')). by exists e. }
  exists e. split_and!; try done.
  - apply Hown; done.
  - apply list_elem_of_lookup in Hw as [j Hj].
    destruct (tr_begin _ _ _ (inv_trace _ _ _ Hinv') j _ Hj) as (i & _ & Hi).
    by eapply list_elem_of_lookup_2.
Qed.

(** X14.  The ledger a pass builds holds exactly the keys of the visited
    targets that have a link language; every entry is that of a visited
    target and configuration, stored under their key with the
    dependency names [GetNameDepsTargets] gives.  No other key ever
    gets an entry. *)
Theorem pass_ledger_is_the_visits
    (visits : list (cmGeneratorTarget * string))
    (multi : bool) (dflt : string) :
  exists g',
    GlobalGenerate fresh quotation visits (new_generator multi dflt)
    = Some g'
    /\ (forall k,
          is_Some (MapFastbuildInfoTargets g' !! k)
          <-> exists tc, tc ∈ visits /\ linkable tc /\ visit_key tc = k)
    /\ (forall k e,
          MapFastbuildInfoTargets g' !! k = Some e ->
          (gt e, config e) ∈ visits
          /\ target_key (gt e) (config e) = k
          /\ name_target_deps e = GetNameDepsTargets (gt e) (config e)).
Proof.
  destruct (pass_summary visits multi dflt)
    as (g1 & g' & _ & Hg' & _ & Hinv' & _ & _ & Hs' & Hreg).
  exists g'. split_and!; [done| |].
  - intros k. split.
    + intros [e He]. destruct (Hs' k e He) as (Hkey & Hlang & Horig & _).
      by exists (gt e, config e).
    + intros (tc & Hin & Hl & <-). by apply Hreg.
  - intros k e He. destruct (Hs' k e He) as (Hkey & _ & Horig & _).
    by destruct (inv_wf _ _ _ Hinv' k e He) as (_ & _ & Hdeps).
Qed.

(** X15.  After a pass an entry is finished exactly when the blocks of its
    target are complete, and exactly when their writing was begun: no
    target is left half written, and none is marked without having been
    written. *)
Theorem pass_finished_iff_written
    (visits : list (cmGeneratorTarget * string))
    (multi : bool) (dflt : string) :
  exists g',
    GlobalGenerate fresh quotation visits (new_generator multi dflt)
    = Some g'
    /\ forall k,
         (treated (MapFastbuildInfoTargets g') k <-> EvWritten k ∈ trace g')
         /\ (EvWritten k ∈ trace g' <-> EvBegin k ∈ trace g').
Proof.
  destruct (pass_summary visits multi dflt)
    as (g1 & g' & _ & Hg' & _ & Hinv' & _).
  exists g'. split; [done|]. intros k.
  destruct (inv_trace _ _ _ Hinv') as [_ Hw Hc Hb _].
  split; [by rewrite Hw|]. split; [|apply Hc].
  intros [j Hj]%list_elem_of_lookup. destruct (Hb j k Hj) as (i & _ & Hi).
  by eapply list_elem_of_lookup_2.
Qed.

(** X16.  Visiting again a target that was visited before, and that has a
    link language, adds nothing to the Fastbuild state: the visit
    returns with the ledger, the alias table, the error list and the
    log of [WriteTargetFB] as they were, and the visits that follow end
    in the same Fastbuild state as they do without it. *)
Theorem revisit_changes_nothing
    (before after : list (cmGeneratorTarget * string))
    (tc : cmGeneratorTarget * string) (multi : bool) (dflt : string) :
  tc ∈ before -> linkable tc ->
  (exists g1 g2,
     GenerateTargets fresh quotation before (new_generator multi dflt)
     = Some g1
     /\ GenerateTarget fresh quotation g1 tc = Some g2
     /\ fastbuild_state g2 = fastbuild_state g1)
  /\ fastbuild_state
       <$> GenerateTargets fresh quotation (before ++ tc :: after)
             (new_generator multi dflt)
     = fastbuild_state
         <$> GenerateTargets fresh quotation (before ++ after)
               (new_generator multi dflt).
Proof.
  intros Hin Hl.
  destruct (GenerateTargets_correct fresh quotation before
              (new_generator multi dflt) (new_generator_inv multi dflt))
    as (g1 & Hg1 & _).
  assert (GenerateTarget fresh quotation g1 tc = Some g1) as Hsame.
  { assert (settled (fun _ _ => True) nothing_pending
              (MapFastbuildInfoTargets g1)) as Hs.
    { eapply GenerateTargets_settled;
        [|apply new_generator_settled|exact Hg1]. done. }
    destruct (GenerateTargets_registers before _ g1
                (new_generator_inv multi dflt) Hg1 tc Hin Hl) as [e He].
    destruct tc as [t cfg]. unfold visit_key, linkable in *.
    cbn [fst snd] in *.
    unfold GenerateTarget, depth_for. cbn [fst snd Generate].
    unfold Generate_body. rewrite Hl.
    unfold AddFastbuildInfoTarget. rewrite He. rewrite set_ledger_same.
    rewrite (CanTreatTargetFB_at fresh t cfg _ e He).
    destruct (Hs _ e He) as (_ & _ & _ & Hq).
    assert (bool_decide (number_untrated_deps e <= 0)
            && negb (is_treated e) = false) as ->.
    { destruct (is_treated e) eqn:Htr; [apply andb_false_r|].
      rewrite andb_true_r. apply bool_decide_eq_false.
      assert (0 < number_untrated_deps e) by (apply Hq; [done|by intros []]).
      lia. }
    by rewrite set_ledger_same. }
  split.
  - exists g1, g1. split; [exact Hg1|]. split; [exact Hsame|reflexivity].
  - unfold GenerateTargets in *. rewrite !for_each_app, Hg1.
    cbn [for_each]. by rewrite Hsame.
Qed.



End PassFacts.

Lemma keys_of_their_own_NoDup (visits : list (cmGeneratorTarget * string)) :
  NoDup (visit_key <$> visits) -> keys_of_their_own visits.
Proof.
  induction visits as [|v visits IH]; intros Hnd tc tc' Hin Hin' Hl Hl' Hk.
  - exfalso. exact (proj1 (elem_of_nil tc) Hin).
  - rewrite fmap_cons in Hnd. apply NoDup_cons in Hnd as [Hv Hnd].
    apply elem_of_cons in Hin as [->|Hin];
      apply elem_of_cons in Hin' as [->|Hin']; [done| | |].
    + exfalso. apply Hv. rewrite Hk. apply list_elem_of_fmap. by exists tc'.
    + exfalso. apply Hv. rewrite <- Hk. apply list_elem_of_fmap.
      by exists tc.
    + by apply IH.
Qed.

Lemma pass_writes_all_when_acyclic_witness :
  exists g',
    GlobalGenerate zero_entry apostrophe diamond (new_generator false "")
    = Some g'
    /\ forall tc,
         tc ∈ diamond -> linkable tc ->
         exists e,
           MapFastbuildInfoTargets g' !! visit_key tc = Some e
           /\ (gt e, config e) = tc
           /\ is_treated e = true
           /\ EvBegin (visit_key tc) ∈ trace g'
           /\ EvWritten (visit_key tc) ∈ trace g'.
Proof.
  apply (pass_writes_all_when_acyclic zero_entry apostrophe diamond false ""
           diamond_rank).
  - intros tc d Hin _ Hd _ _. unfold diamond in Hin.
    assert (GetNameDepsTargets dia_d "Release" = ["bRelease"; "cRelease"])
      as Hdd by (by vm_compute).
    assert (GetNameDepsTargets dia_c "Release" = ["aRelease"])
      as Hdc by (by vm_compute).
    assert (GetNameDepsTargets dia_b "Release" = ["aRelease"])
      as Hdb by (by vm_compute).
    assert (GetNameDepsTargets dia_a "Release" = [])
      as Hda by (by vm_compute).
    apply elem_of_cons in Hin as [->|Hin].
    { cbn [fst snd] in Hd. rewrite Hdd in Hd.
      apply elem_of_cons in Hd as [->|Hd]; [vm_compute; lia|].
      apply list_elem_of_singleton in Hd as ->. vm_compute. lia. }
    apply elem_of_cons in Hin as [->|Hin].
    { cbn [fst snd] in Hd. rewrite Hdc in Hd.
      apply list_elem_of_singleton in Hd as ->. vm_compute. lia. }
    apply elem_of_cons in Hin as [->|Hin].
    { cbn [fst snd] in Hd. rewrite Hdb in Hd.
      apply list_elem_of_singleton in Hd as ->. vm_compute. lia. }
    apply list_elem_of_singleton in Hin as ->.
    cbn [fst snd] in Hd. rewrite Hda in Hd. exfalso.
    exact (proj1 (elem_of_nil d) Hd).
  - apply keys_of_their_own_NoDup.
    change (visit_key <$> diamond)
      with ["dRelease"; "cRelease"; "bRelease"; "aRelease"].
    apply (bool_decide_unpack _). reflexivity.
Defined.


Lemma revisit_changes_nothing_witness :
  fastbuild_state
    <$> GenerateTargets zero_entry apostrophe
          ([(dia_a, "Release"); (dia_b, "Release")]
           ++ (dia_a, "Release") :: [])
          (new_generator false "")
  = fastbuild_state
      <$> GenerateTargets zero_entry apostrophe
            ([(dia_a, "Release"); (dia_b, "Release")] ++ [])
            (new_generator false "").
Proof.
  apply (proj2 (revisit_changes_nothing zero_entry apostrophe
                  [(dia_a, "Release"); (dia_b, "Release")] []
                  (dia_a, "Release") false ""
                  (list_elem_of_here _ _) eq_refl)).
Defined.

(** ** The alias table *)

Section AliasTable.

Variable fresh : cmFastbuildInfoTarget.
Variable quotation : string.
Variable Inv : generator -> Prop.
Hypothesis Inv_stable : alias_stable Inv.

Lemma WriteTargetBlocksFB_keeps t cfg g :
  Inv g -> Inv (WriteTargetBlocksFB quotation t cfg g).
Proof.
  destruct Inv_stable as (_ & _ & _ & HA).
  assert (forall b g0,
    Inv g0 -> Inv (WriteObjectListsFB_alias quotation t cfg b g0)) as HO.
  { intros b g0 H0. unfold WriteObjectListsFB_alias. destruct b; auto. }
  assert (forall g0, Inv g0 -> Inv (WriteLibraryFB quotation t cfg g0)) as HL.
  { intros g0 H0. unfold WriteLibraryFB. destruct (GetType t); auto. }
  assert (forall g0, Inv g0 -> Inv (WriteExecutableFB quotation t cfg g0))
    as HE.
  { intros g0 H0. unfold WriteExecutableFB. cbv zeta.
    destruct (_ || _); auto. }
  assert (forall g0, Inv g0 -> Inv (WriteDLLFB quotation t cfg g0)) as HD.
  { intros g0 H0. unfold WriteDLLFB. auto. }
  intros Hg. unfold WriteTargetBlocksFB. destruct (GetType t); auto.
Qed.

Lemma TargetTreatedFinish_step_keeps Gen T g k g' :
  Gen_keeps Inv Gen -> Inv g ->
  TargetTreatedFinish_step fresh Gen T g k = Some g' -> Inv g'.
Proof.
  destruct Inv_stable as (HS & _). intros HGen Hg.
  unfold TargetTreatedFinish_step.
  destruct (MapFastbuildInfoTargets g !! k) as [fit|]; [|by intros [= <-]].
  destruct (CanTreatTargetFB fresh _ _ _) as [b m2]. cbv beta iota.
  destruct b.
  - intros HG. eapply HGen; [|exact HG]. by apply HS.
  - intros [= <-]. by apply HS.
Qed.

Lemma Generate_body_keeps Gen :
  Gen_keeps Inv Gen -> Gen_keeps Inv (Generate_body fresh quotation Gen).
Proof.
  destruct Inv_stable as (HS & HLg & HE & _).
  intros HGen t cfg g g' Hg. unfold Generate_body.
  destruct (str_empty _); [intros [= <-]; by apply HE|].
  destruct (CanTreatTargetFB fresh t cfg _) as [b m2]. cbv beta iota.
  destruct b.
  - unfold WriteTargetFB, TargetTreatedFinish. intros Hloop.
    apply (for_each_inv _ (fun _ s => Inv s) _ _ _) in Hloop; [done| |].
    + intros x rest s s' Hs Hstep.
      by eapply TargetTreatedFinish_step_keeps.
    + apply HS, HLg, WriteTargetBlocksFB_keeps, HLg, HS, HS. done.
  - intros [= <-]. by apply HS, HS.
Qed.

Lemma Generate_keeps depth : Gen_keeps Inv (Generate fresh quotation depth).
Proof.
  induction depth as [|depth IH]; [by intros t cfg g g' _|].
  by apply Generate_body_keeps.
Qed.

Lemma GenerateTargets_keeps visits g g' :
  Inv g -> GenerateTargets fresh quotation visits g = Some g' -> Inv g'.
Proof.
  intros Hg Hloop. unfold GenerateTargets in Hloop.
  apply (for_each_inv _ (fun _ s => Inv s) _ _ _) in Hloop; [done| |done].
  intros [t cfg] rest s s' Hs Hstep. by eapply Generate_keeps.
Qed.

Lemma lastChanceToTreatTargets_keeps Gen g g' :
  Gen_keeps Inv Gen -> Inv g ->
  lastChanceToTreatTargets fresh Gen g = Some g' -> Inv g'.
Proof.
  destruct Inv_stable as (HS & _). intros HGen Hg.
  unfold lastChanceToTreatTargets. intros Hloop.
  apply (for_each_inv _ (fun _ s => Inv s) _ _ _) in Hloop;
    [done| |by apply HS].
  intros k rest s s' Hs. unfold lastChanceToTreatTargets_step.
  destruct (MapFastbuildInfoTargets s !! k) as [fit|]; [|by intros [= <-]].
  destruct (is_treated fit); [by intros [= <-]|].
  destruct (CanTreatTargetFB fresh _ _ _) as [b m2]. cbv beta iota.
  destruct b.
  - intros HG. eapply HGen; [|exact HG]. by apply HS.
  - intros [= <-]. by apply HS.
Qed.

Lemma GlobalGenerate_keeps visits g g' :
  Inv g -> GlobalGenerate fresh quotation visits g = Some g' -> Inv g'.
Proof.
  intros Hg. unfold GlobalGenerate.
  destruct (GenerateTargets fresh quotation visits g) as [g1|] eqn:Hg1;
    [|done].
  apply lastChanceToTreatTargets_keeps; [apply Generate_keeps|].
  by eapply GenerateTargets_keeps.
Qed.

End AliasTable.

Lemma aliases_consistent_stable : alias_stable aliases_consistent.
Proof.
  split_and!; try done.
  intros alias listDeps cfg excl g [Hnd Hin]. unfold AddTargetAliasFB.
  destruct (TargetAliasesFB g !! alias) as [ta|] eqn:Ha; [done|].
  split; cbn [TargetAliasesOrderedFB TargetAliasesFB set_aliases].
  - apply NoDup_app. split_and!; [done| |apply NoDup_singleton].
    intros a Ha1 ->%list_elem_of_singleton.
    apply Hin in Ha1 as [? ?]. congruence.
  - intros a. rewrite elem_of_app, list_elem_of_singleton, Hin.
    destruct (decide (a = alias)) as [->|Hne].
    + rewrite lookup_insert_eq. naive_solver.
    + rewrite lookup_insert_ne by done. naive_solver.
Qed.

Lemma aliases_extend_stable alias ta first :
  alias_stable (aliases_extend alias ta first).
Proof.
  split_and!; try done.
  intros a listDeps cfg excl g [Hta Hpre]. unfold AddTargetAliasFB.
  destruct (TargetAliasesFB g !! a) as [ta'|] eqn:Ha; [done|].
  split; cbn [TargetAliasesOrderedFB TargetAliasesFB set_aliases].
  - rewrite lookup_insert_ne; [done|]. intros ->. congruence.
  - by apply prefix_app_r.
Qed.

(** X17.  At the end of a pass [TargetAliasesOrderedFB] lists each recorded
    alias once, and it lists exactly the keys of [TargetAliasesFB]: the
    look-ups of [WriteTargetAliasesFB] all find a record. *)
Theorem pass_alias_table_consistent
    (fresh : cmFastbuildInfoTarget) (quotation : string)
    (visits : list (cmGeneratorTarget * string))
    (multi : bool) (dflt : string) :
  exists g',
    GlobalGenerate fresh quotation visits (new_generator multi dflt)
    = Some g'
    /\ NoDup (TargetAliasesOrderedFB g')
    /\ forall alias,
         alias ∈ TargetAliasesOrderedFB g'
         <-> is_Some (TargetAliasesFB g' !! alias).
Proof.
  destruct (GlobalGenerate_correct fresh quotation visits
              (new_generator multi dflt) (new_generator_inv multi dflt))
    as (g1 & g' & _ & Hg' & _).
  exists g'. split; [done|].
  apply (GlobalGenerate_keeps fresh quotation aliases_consistent
           aliases_consistent_stable visits _ _) in Hg'; [done|].
  split; cbn; [apply NoDup_nil_2|]. intros a.
  rewrite lookup_empty, elem_of_nil. split; [done|by intros [? ?]].
Qed.

(** X18.  The first record of an alias name is the one that stays: an alias
    recorded during the first visits has the same content at the end of
    the pass, whatever is visited afterwards, and the aliases recorded by
    then keep their places at the head of the list. *)
Theorem first_alias_record_stays
    (fresh : cmFastbuildInfoTarget) (quotation : string)
    (first rest : list (cmGeneratorTarget * string))
    (g0 g1 g' : generator) (alias : string) (ta : TargetAliasFB) :
  GenerateTargets fresh quotation first g0 = Some g1 ->
  TargetAliasesFB g1 !! alias = Some ta ->
  GlobalGenerate fresh quotation (first ++ rest) g0 = Some g' ->
  TargetAliasesFB g' !! alias = Some ta
  /\ TargetAliasesOrderedFB g1 `prefix_of` TargetAliasesOrderedFB g'.
Proof.
  intros Hg1 Hta. unfold GlobalGenerate, GenerateTargets in *.
  rewrite for_each_app, Hg1.
  destruct (for_each _ rest g1) as [g2|] eqn:Hg2; [|done]. intros Hg'.
  pose proof (aliases_extend_stable alias ta (TargetAliasesOrderedFB g1))
    as Hst.
  apply (lastChanceToTreatTargets_keeps fresh _ Hst) in Hg';
    [done|apply Generate_keeps; done|].
  by apply (GenerateTargets_keeps fresh quotation _ Hst rest g1 g2).
Qed.

Lemma first_alias_record_stays_witness :
  exists g',
    GlobalGenerate zero_entry apostrophe
      ([(app_gnu, "Release")] ++ [(plugin, "Release")])
      (new_generator false "")
    = Some g'
    /\ TargetAliasesFB g' !! "'app_exe_deps'"
       = Some {| Config := "Release"; ListDeps := "'app_exe'";
                 ExcludeFromAll := false |}.
Proof.
  set (g0 := new_generator false "").
  set (g1 := default g0 (GenerateTargets zero_entry apostrophe
                           [(app_gnu, "Release")] g0)).
  set (g' := default g0 (GlobalGenerate zero_entry apostrophe
                           ([(app_gnu, "Release")] ++ [(plugin, "Release")])
                           g0)).
  assert (GenerateTargets zero_entry apostrophe [(app_gnu, "Release")] g0
          = Some g1) as H1 by (by vm_compute).
  assert (TargetAliasesFB g1 !! "'app_exe_deps'"
          = Some {| Config := "Release"; ListDeps := "'app_exe'";
                    ExcludeFromAll := false |}) as H2 by (by vm_compute).
  assert (GlobalGenerate zero_entry apostrophe
            ([(app_gnu, "Release")] ++ [(plugin, "Release")]) g0
          = Some g') as H3 by (by vm_compute).
  exists g'. split; [exact H3|].
  exact (proj1 (first_alias_record_stays zero_entry apostrophe
                  [(app_gnu, "Release")] [(plugin, "Release")] g0 g1 g'
                  "'app_exe_deps'" _ H1 H2 H3)).
Defined.

(** ** The writer of the [.bff] text *)

Lemma str_app_nil_r s : s +:+ EmptyString = s.
Proof.
  induction s as [|a s IH]; [done|]. by rewrite str_app_cons, IH.
Qed.

Lemma str_take_app_length s1 s2 : str_take (String.length s1) (s1 +:+ s2) = s1.
Proof.
  induction s1 as [|a s1 IH]; [by destruct s2|].
  rewrite str_app_cons. cbn [String.length str_take]. by rewrite IH.
Qed.

Lemma drop_last_app s c : drop_last (s +:+ String c EmptyString) = s.
Proof.
  unfold drop_last. rewrite str_length_app. cbn [String.length].
  replace (String.length s + 1 - 1)%nat with (String.length s) by lia.
  apply str_take_app_length.
Qed.

Lemma last_char_app s c : last_char (s +:+ String c EmptyString) = Some c.
Proof.
  unfold last_char. rewrite str_length_app. cbn [String.length].
  replace (String.length s + 1 - 1)%nat with (String.length s) by lia.
  induction s as [|a s IH]; [done|].
  rewrite str_app_cons. cbn [String.length String.get]. exact IH.
Qed.

Lemma str_empty_app s c s' : str_empty (s +:+ String c s') = false.
Proof. destruct s; [done|]. by rewrite str_app_cons. Qed.

(** Closing a scope right after the text written in it gives back the
    indentation in force when it was opened, and writes the closing
    character given then. *)
Lemma WritePopScope_WritePushScope w os b e os' :
  WritePopScope (WritePushScope w os b e).1 os'
  = Some (w, os' +:+ linePrefix w +:+ String e EmptyString +:+ newline).
Proof.
  unfold WritePopScope, WritePushScope, tab.
  cbn [fst linePrefix closingScope].
  rewrite str_empty_app, last_char_app, !drop_last_app. by destruct w.
Qed.

Lemma pop_scopes_add n m w os :
  pop_scopes (n + m) w os
  = match pop_scopes n w os with
    | Some (w1, os1) => pop_scopes m w1 os1
    | None => None
    end.
Proof.
  revert w os. induction n as [|n IH]; intros w os; [done|].
  cbn [Nat.add pop_scopes].
  destruct (WritePopScope w os) as [[w1 os1]|]; [apply IH|done].
Qed.

Lemma push_scopes_pop_scopes scopes w os body :
  exists opened,
    (push_scopes scopes w os).2 = os +:+ opened
    /\ pop_scopes (length scopes) (push_scopes scopes w os).1
         (os +:+ opened +:+ body)
       = Some (w, os +:+ opened +:+ body +:+ closing_lines scopes w).
Proof.
  revert w os body. induction scopes as [|[b e] rest IH]; intros w os body.
  - exists EmptyString. cbn. by rewrite !str_app_nil_r.
  - cbn [push_scopes length closing_lines].
    pose proof (WritePopScope_WritePushScope w os b e) as Hpop.
    destruct (WritePushScope w os b e) as [w1 os1] eqn:Hpush.
    assert ((WritePushScope w EmptyString b e).1 = w1) as ->.
    { unfold WritePushScope in *. by injection Hpush as <- _. }
    assert (os1 = os +:+ linePrefix w +:+ String b EmptyString +:+ newline)
      as Hos1.
    { unfold WritePushScope in Hpush. by injection Hpush as _ <-. }
    cbn [fst] in Hpop.
    destruct (IH w1 os1 body) as (opened & Hopened & Hrest).
    exists (linePrefix w +:+ String b EmptyString +:+ newline +:+ opened).
    split.
    + rewrite Hopened, Hos1. by rewrite !str_app_assoc.
    + replace (S (length rest)) with (length rest + 1)%nat by lia.
      rewrite pop_scopes_add.
      replace (os +:+ (linePrefix w +:+ String b EmptyString +:+ newline
                       +:+ opened) +:+ body)
        with (os1 +:+ opened +:+ body)
        by (rewrite Hos1; by rewrite !str_app_assoc).
      rewrite Hrest. cbn [pop_scopes]. rewrite Hpop, Hos1.
      by rewrite !str_app_assoc.
Qed.

(** X19.  Scopes opened one inside the other are closed innermost first:
    after as many [WritePopScope] as there were [WritePushScope], with
    any text written in between, the indentation is the one from before
    the first scope, and the closing characters have been written in the
    reverse order of the opening ones.  One [WritePopScope] more, at an
    empty indentation, fails the assertion. *)
Theorem scopes_close_in_reverse
    (scopes : list (ascii * ascii)) (w : scope) (os body : string) :
  exists opened,
    (push_scopes scopes w os).2 = os +:+ opened
    /\ pop_scopes (length scopes) (push_scopes scopes w os).1
         (os +:+ opened +:+ body)
       = Some (w, os +:+ opened +:+ body +:+ closing_lines scopes w)
    /\ (linePrefix w = EmptyString ->
        pop_scopes (S (length scopes)) (push_scopes scopes w os).1
          (os +:+ opened +:+ body)
        = None).
Proof.
  destruct (push_scopes_pop_scopes scopes w os body)
    as (opened & Hopened & Hpop).
  exists opened. split_and!; try done. intros Hempty.
  replace (S (length scopes)) with (length scopes + 1)%nat by lia.
  rewrite pop_scopes_add, Hpop. cbn [pop_scopes].
  unfold WritePopScope. by rewrite Hempty.
Qed.

Lemma scopes_close_in_reverse_witness :
  pop_scopes 3
    (push_scopes [("{", "}"); ("[", "]")]%char
       {| linePrefix := EmptyString; closingScope := EmptyString |}
       EmptyString).1
    (push_scopes [("{", "}"); ("[", "]")]%char
       {| linePrefix := EmptyString; closingScope := EmptyString |}
       EmptyString).2
  = None.
Proof.
  destruct (scopes_close_in_reverse [("{", "}"); ("[", "]")]%char
              {| linePrefix := EmptyString; closingScope := EmptyString |}
              EmptyString EmptyString) as (opened & Hopened & _ & Hfail).
  rewrite Hopened. rewrite str_app_nil_r in Hfail. by apply Hfail.
Defined.

Section WriterFacts.

Variables scope_begin scope_end : ascii.
Variable assign : string.

Lemma WriteAliasFB_total w os name_alias targets :
  WriteAliasFB scope_begin scope_end assign w os name_alias targets
  = Some (w, os +:+ alias_block scope_begin scope_end assign w
                      name_alias targets).
Proof.
  unfold WriteAliasFB.
  pose proof (WritePopScope_WritePushScope w
                (WriteCommand w os "Alias" name_alias)
                scope_begin scope_end) as Hpop.
  destruct (WritePushScope w _ scope_begin scope_end) as [w1 os2] eqn:Hpush.
  cbn [fst] in Hpop. rewrite Hpop. f_equal. f_equal.
  unfold WritePushScope in Hpush. injection Hpush as <- <-.
  unfold WriteVariableFB, WriteCommand, alias_block. cbn [linePrefix].
  destruct (str_empty name_alias); by rewrite !str_app_assoc.
Qed.

Lemma foldl_lines prefix values os :
  exists text,
    foldl (fun os value => os +:+ prefix +:+ value +:+ newline) os values
    = os +:+ text.
Proof.
  revert os. induction values as [|v values IH]; intros os; cbn [foldl].
  - exists EmptyString. by rewrite str_app_nil_r.
  - destruct (IH (os +:+ prefix +:+ v +:+ newline)) as [text ->].
    eexists. by rewrite !str_app_assoc.
Qed.

(** X20.  [WriteAliasFB] and [WriteArray] never fail, not even at an empty
    indentation; they leave the indentation and the pending closing
    characters as they found them, and only append to the stream;
    [WriteAliasFB] appends the four lines of the block, the name in
    parentheses unless it is empty. *)
Theorem writers_keep_the_scope (w : scope) (os : string) :
  (forall name_alias targets,
      WriteAliasFB scope_begin scope_end assign w os name_alias targets
      = Some (w, os +:+ alias_block scope_begin scope_end assign w
                          name_alias targets))
  /\ (forall key values b e operation,
        exists text,
          WriteArray w os key values b e operation = Some (w, os +:+ text)).
Proof.
  split; [apply WriteAliasFB_total|].
  intros key values b e operation. unfold WriteArray.
  pose proof (WritePopScope_WritePushScope w
                (WriteVariableFB w os key EmptyString operation) b e)
    as Hpop.
  destruct (WritePushScope w _ b e) as [w1 os2] eqn:Hpush.
  cbn [fst] in Hpop. rewrite Hpop.
  destruct (foldl_lines (linePrefix w1) values os2) as [text ->].
  unfold WritePushScope in Hpush. injection Hpush as _ <-.
  unfold WriteVariableFB. eexists. by rewrite !str_app_assoc.
Qed.

End WriterFacts.

(** ** [WriteTargetAliasesFB] *)

Lemma new_generator_aliases_consistent multi dflt :
  aliases_consistent (new_generator multi dflt).
Proof.
  split; cbn; [apply NoDup_nil_2|]. intros a.
  rewrite lookup_empty, elem_of_nil. split; [done|by intros [? ?]].
Qed.

Lemma WriteSectionHeader_append w os comment :
  WriteSectionHeader w os comment
  = os +:+ WriteSectionHeader w EmptyString comment.
Proof.
  unfold WriteSectionHeader, WriteDivider, WriteCommentFB.
  destruct (str_empty comment); [by rewrite str_app_nil_r|].
  by rewrite !str_app_assoc.
Qed.

Lemma put_put sid w1 t1 w2 t2 o :
  put sid w2 t2 (put sid w1 t1 o) = put sid w2 t2 o.
Proof.
  destruct sid as [|cfg]; cbn; [done|]. by rewrite insert_insert_eq.
Qed.

Lemma stream_text_put sid w t o : stream_text sid (put sid w t o) = t.
Proof. destruct sid as [|cfg]; cbn; [done|]. by rewrite lookup_insert_eq. Qed.

Lemma append_to_append_to cfg t1 t2 o :
  append_to cfg t2 (append_to cfg t1 o) = append_to cfg (t1 +:+ t2) o.
Proof.
  unfold append_to. rewrite stream_text_put, put_put.
  by rewrite str_app_assoc.
Qed.

Lemma append_to_nothing cfg o :
  is_Some (impl_files o !! cfg) -> append_to cfg EmptyString o = o.
Proof.
  intros [t Ht]. unfold append_to. cbn. rewrite Ht. cbn.
  rewrite str_app_nil_r, insert_id by done. by destruct o.
Qed.

Lemma append_to_registered cfg text o cfg' :
  is_Some (impl_files o !! cfg') ->
  is_Some (impl_files (append_to cfg text o) !! cfg').
Proof.
  intros H. unfold append_to. cbn.
  destruct (decide (cfg' = cfg)) as [->|Hne].
  - rewrite lookup_insert_eq. by eexists.
  - by rewrite lookup_insert_ne.
Qed.

Lemma append_to_registers cfg text o :
  is_Some (impl_files (append_to cfg text o) !! cfg).
Proof. unfold append_to. cbn. rewrite lookup_insert_eq. by eexists. Qed.

Lemma append_to_frame cfg text o :
  indent (append_to cfg text o) = indent o
  /\ common_file (append_to cfg text o) = common_file o.
Proof. done. Qed.

Lemma stream_text_append_to cfg text o cfg' :
  stream_text (ImplFileStream cfg') (append_to cfg text o)
  = if decide (cfg' = cfg)
    then stream_text (ImplFileStream cfg) o +:+ text
    else stream_text (ImplFileStream cfg') o.
Proof.
  unfold append_to. cbn. destruct (decide (cfg' = cfg)) as [->|Hne].
  - by rewrite lookup_insert_eq.
  - by rewrite lookup_insert_ne.
Qed.

Lemma map_append_map_append k x y m :
  map_append k y (map_append k x m) = map_append k (x +:+ y) m.
Proof.
  unfold map_append. rewrite lookup_insert_eq, insert_insert_eq. cbn.
  by rewrite str_app_assoc.
Qed.

Lemma map_append_nothing k m :
  is_Some (m !! k) -> map_append k EmptyString m = m.
Proof.
  intros [t Ht]. unfold map_append. rewrite Ht. cbn.
  by rewrite str_app_nil_r, insert_id.
Qed.

Lemma map_append_registered k x m k' :
  is_Some (m !! k') -> is_Some (map_append k x m !! k').
Proof.
  intros H. unfold map_append. destruct (decide (k' = k)) as [->|Hne].
  - rewrite lookup_insert_eq. by eexists.
  - by rewrite lookup_insert_ne.
Qed.

Lemma map_append_dom k x m :
  is_Some (m !! k) -> dom (map_append k x m) = dom m.
Proof.
  intros H. unfold map_append. rewrite dom_insert_L.
  apply elem_of_dom in H. set_solver.
Qed.

Lemma map_append_lookup k x m k' :
  default EmptyString (map_append k x m !! k')
  = if decide (k' = k) then default EmptyString (m !! k) +:+ x
    else default EmptyString (m !! k').
Proof.
  unfold map_append. destruct (decide (k' = k)) as [->|Hne].
  - by rewrite lookup_insert_eq.
  - by rewrite lookup_insert_ne.
Qed.

Section AliasWriterFacts.

Variable quotation : string.
Variables scope_begin scope_end : ascii.
Variable assign : string.
Variable fresh_alias : TargetAliasFB.

Local Abbreviation block := (alias_block scope_begin scope_end assign).
Local Abbreviation blocks :=
  (alias_blocks scope_begin scope_end assign fresh_alias).
Local Abbreviation names := (alias_names fresh_alias).
Local Abbreviation section :=
  (alias_section quotation scope_begin scope_end assign fresh_alias).
Local Abbreviation of_config := (aliases_of_config fresh_alias).

Lemma WriteAliasFB_on_common name_alias targets o :
  WriteAliasFB_on scope_begin scope_end assign CommonFileStream
    name_alias targets o
  = Some {| indent := indent o;
            common_file :=
              common_file o +:+ block (indent o) name_alias targets;
            impl_files := impl_files o |}.
Proof.
  unfold WriteAliasFB_on. by rewrite WriteAliasFB_total.
Qed.

Lemma WriteAliasFB_on_impl cfg name_alias targets o :
  WriteAliasFB_on scope_begin scope_end assign (ImplFileStream cfg)
    name_alias targets o
  = Some (append_to cfg (block (indent o) name_alias targets) o).
Proof.
  unfold WriteAliasFB_on. by rewrite WriteAliasFB_total.
Qed.

Lemma touch_alias_registered name_alias g :
  is_Some (TargetAliasesFB g !! name_alias) ->
  touch_alias fresh_alias name_alias g = g.
Proof.
  intros [ta Hta]. unfold touch_alias, alias_touch. rewrite Hta.
  by destruct g.
Qed.

Lemma alias_names_cons table excluded name_alias l :
  names table excluded (name_alias :: l)
  = (if Bool.eqb (ExcludeFromAll (alias_at fresh_alias name_alias table))
                 excluded
     then name_alias else EmptyString)
    +:+ names table excluded l.
Proof.
  unfold alias_names. cbn [foldr]. by destruct (Bool.eqb _ _).
Qed.

Lemma single_loop l g o listDepsAll listDepsOther :
  (forall name_alias,
      name_alias ∈ l -> is_Some (TargetAliasesFB g !! name_alias)) ->
  for_each
    (WriteTargetAliasesFB_single_step scope_begin scope_end assign
       fresh_alias) l (g, o, listDepsAll, listDepsOther)
  = Some (g,
          {| indent := indent o;
             common_file :=
               common_file o +:+ blocks (indent o) (TargetAliasesFB g) l;
             impl_files := impl_files o |},
          listDepsAll +:+ names (TargetAliasesFB g) false l,
          listDepsOther +:+ names (TargetAliasesFB g) true l).
Proof.
  revert o listDepsAll listDepsOther.
  induction l as [|n l IH]; intros o A B Hreg.
  - cbn. rewrite !str_app_nil_r. by destruct o.
  - cbn [for_each]. unfold WriteTargetAliasesFB_single_step at 1.
    rewrite touch_alias_registered by (apply Hreg; by left).
    rewrite WriteAliasFB_on_common.
    rewrite !alias_names_cons. unfold alias_blocks at 1. cbn [foldr].
    fold (blocks (indent o) (TargetAliasesFB g) l).
    destruct (ExcludeFromAll (alias_at fresh_alias n (TargetAliasesFB g)));
      rewrite IH by (intros; apply Hreg; by right);
      cbn [indent common_file impl_files Bool.eqb];
      by rewrite !str_app_assoc.
Qed.

Lemma multi_loop cfg l g o configsAll configsOther :
  (forall name_alias,
      name_alias ∈ l -> is_Some (TargetAliasesFB g !! name_alias)) ->
  is_Some (impl_files o !! cfg) ->
  is_Some (configsAll !! cfg) -> is_Some (configsOther !! cfg) ->
  for_each
    (WriteTargetAliasesFB_multi_step scope_begin scope_end assign
       fresh_alias cfg) l (g, o, configsAll, configsOther)
  = Some (g,
          append_to cfg
            (blocks (indent o) (TargetAliasesFB g)
               (of_config (TargetAliasesFB g) cfg l)) o,
          map_append cfg
            (names (TargetAliasesFB g) false
               (of_config (TargetAliasesFB g) cfg l)) configsAll,
          map_append cfg
            (names (TargetAliasesFB g) true
               (of_config (TargetAliasesFB g) cfg l)) configsOther).
Proof.
  revert o configsAll configsOther.
  induction l as [|n l IH]; intros o cA cO Hreg Ho HA HO.
  - cbn [for_each]. unfold aliases_of_config. rewrite filter_nil.
    unfold alias_blocks, alias_names. cbn [foldr].
    by rewrite append_to_nothing, !map_append_nothing.
  - cbn [for_each]. unfold WriteTargetAliasesFB_multi_step at 1.
    rewrite touch_alias_registered by (apply Hreg; by left).
    unfold aliases_of_config. rewrite filter_cons.
    fold (of_config (TargetAliasesFB g) cfg l).
    destruct (decide (Config (alias_at fresh_alias n (TargetAliasesFB g))
                      = cfg)) as [Heq|Hne].
    + rewrite Heq, String.eqb_refl. cbn [negb].
      rewrite WriteAliasFB_on_impl.
      rewrite !alias_names_cons. unfold alias_blocks at 1. cbn [foldr].
      fold (blocks (indent o) (TargetAliasesFB g)
              (of_config (TargetAliasesFB g) cfg l)).
      destruct (ExcludeFromAll (alias_at fresh_alias n (TargetAliasesFB g)));
        rewrite IH
          by (try (intros; apply Hreg; by right);
              try apply append_to_registers;
              try apply map_append_registered; done);
        cbn [Bool.eqb]; rewrite ?str_app_nil;
        rewrite append_to_append_to, ?map_append_map_append;
        done.
    + apply String.eqb_neq in Hne. rewrite Hne. cbn [negb].
      apply IH; try done. intros; apply Hreg; by right.
Qed.

Lemma WriteSectionHeader_on_impl cfg comment o :
  WriteSectionHeader_on (ImplFileStream cfg) comment o
  = append_to cfg (WriteSectionHeader (indent o) EmptyString comment) o.
Proof.
  unfold WriteSectionHeader_on, append_to.
  by rewrite WriteSectionHeader_append.
Qed.

Lemma other_step cfg targets o :
  is_Some (impl_files o !! cfg) ->
  (if str_empty targets then Some o
   else WriteAliasFB_on scope_begin scope_end assign (ImplFileStream cfg)
          (Quote quotation "other") targets o)
  = Some (append_to cfg
            (if str_empty targets then EmptyString
             else block (indent o) (Quote quotation "other") targets) o).
Proof.
  intros Ho. destruct (str_empty targets).
  - by rewrite append_to_nothing.
  - apply WriteAliasFB_on_impl.
Qed.

Lemma single_config_closed (g : generator) (o : output) :
  IsMultiConfig g = false -> aliases_consistent g ->
  WriteTargetAliasesFB quotation scope_begin scope_end assign fresh_alias
    g o
  = Some (g,
          {| indent := indent o;
             common_file :=
               WriteSectionHeader (indent o) (common_file o)
                 "Target aliases"
               +:+ section (indent o) (TargetAliasesFB g)
                     (TargetAliasesOrderedFB g);
             impl_files := impl_files o |}).
Proof.
  intros Hsingle [_ Hreg]. unfold WriteTargetAliasesFB.
  rewrite Hsingle. cbn [negb].
  rewrite single_loop by (intros n Hn; by apply Hreg).
  rewrite WriteAliasFB_on_common.
  cbn [indent common_file impl_files stream_text put WriteSectionHeader_on].
  rewrite !str_app_nil. unfold alias_section.
  destruct (str_empty (names (TargetAliasesFB g) true
                         (TargetAliasesOrderedFB g))); cbn [negb].
  - by rewrite str_app_nil_r, !str_app_assoc.
  - rewrite WriteAliasFB_on_common.
    cbn [indent common_file impl_files]. by rewrite !str_app_assoc.
Qed.

(** X21.  In a single-configuration build [WriteTargetAliasesFB] never fails
    and changes neither the alias table, nor the indentation, nor the
    file of any configuration.  To the common file it appends the
    section header, the block of every recorded alias in the order of
    recording, the alias [all] of the aliases that are not excluded
    from the default build, and the alias [other] of the excluded ones
    if there are any. *)
Theorem WriteTargetAliasesFB_single_config (g : generator) (o : output) :
  IsMultiConfig g = false -> aliases_consistent g ->
  WriteTargetAliasesFB quotation scope_begin scope_end assign fresh_alias
    g o
  = Some (g,
          {| indent := indent o;
             common_file :=
               WriteSectionHeader (indent o) (common_file o)
                 "Target aliases"
               +:+ section (indent o) (TargetAliasesFB g)
                     (TargetAliasesOrderedFB g);
             impl_files := impl_files o |}).
Proof. apply single_config_closed. Qed.

Lemma three_configs_keys :
  sorted_keys (dom three_configs) = ["Debug"; "RelWithDebInfo"; "Release"].
Proof. by vm_compute. Qed.

Lemma known_config_cases cfg :
  known_config cfg = true ->
  cfg = "Debug" \/ cfg = "RelWithDebInfo" \/ cfg = "Release".
Proof.
  unfold known_config. intros H%bool_decide_eq_true.
  repeat (apply elem_of_cons in H as [->|H]; [auto|]).
  by apply elem_of_nil in H.
Qed.

Lemma unknown_config_cases cfg :
  known_config cfg = false ->
  cfg <> "Debug" /\ cfg <> "RelWithDebInfo" /\ cfg <> "Release".
Proof.
  unfold known_config. intros H%bool_decide_eq_false.
  split_and!; intros ->; apply H; set_solver.
Qed.

Lemma three_configs_registered cfg :
  known_config cfg = true -> is_Some (three_configs !! cfg).
Proof.
  intros [->|[->| ->]]%known_config_cases; by eexists.
Qed.

Lemma indent_append_to cfg text o : indent (append_to cfg text o) = indent o.
Proof. done. Qed.

Lemma common_file_append_to cfg text o :
  common_file (append_to cfg text o) = common_file o.
Proof. done. Qed.

Lemma stream_text_append_to_eq cfg text o :
  stream_text (ImplFileStream cfg) (append_to cfg text o)
  = stream_text (ImplFileStream cfg) o +:+ text.
Proof. rewrite stream_text_append_to. by rewrite decide_True. Qed.

Lemma stream_text_append_to_ne cfg text o cfg' :
  cfg' <> cfg ->
  stream_text (ImplFileStream cfg') (append_to cfg text o)
  = stream_text (ImplFileStream cfg') o.
Proof. intros. rewrite stream_text_append_to. by rewrite decide_False. Qed.

Lemma map_append_lookup_eq k x m :
  default EmptyString (map_append k x m !! k)
  = default EmptyString (m !! k) +:+ x.
Proof. rewrite map_append_lookup. by rewrite decide_True. Qed.

Lemma map_append_lookup_ne k x m k' :
  k' <> k ->
  default EmptyString (map_append k x m !! k')
  = default EmptyString (m !! k').
Proof. intros. rewrite map_append_lookup. by rewrite decide_False. Qed.

Lemma multi_config_step cfg g o configsAll configsOther :
  (forall name_alias,
      name_alias ∈ TargetAliasesOrderedFB g ->
      is_Some (TargetAliasesFB g !! name_alias)) ->
  is_Some (configsAll !! cfg) -> is_Some (configsOther !! cfg) ->
  WriteTargetAliasesFB_multi_config scope_begin scope_end assign fresh_alias
    (g, o, configsAll, configsOther) cfg
  = Some (g,
          append_to cfg
            (WriteSectionHeader (indent o) EmptyString
               ("Target aliases : " +:+ cfg)
             +:+ blocks (indent o) (TargetAliasesFB g)
                   (of_config (TargetAliasesFB g) cfg
                      (TargetAliasesOrderedFB g))) o,
          map_append cfg
            (names (TargetAliasesFB g) false
               (of_config (TargetAliasesFB g) cfg
                  (TargetAliasesOrderedFB g))) configsAll,
          map_append cfg
            (names (TargetAliasesFB g) true
               (of_config (TargetAliasesFB g) cfg
                  (TargetAliasesOrderedFB g))) configsOther).
Proof.
  intros Hreg HA HO. unfold WriteTargetAliasesFB_multi_config.
  rewrite WriteSectionHeader_on_impl.
  rewrite multi_loop; [|done|apply append_to_registers|done..].
  by rewrite append_to_append_to, indent_append_to.
Qed.

Lemma WriteAliasAll_three configsAll o :
  dom configsAll = dom three_configs ->
  WriteAliasAll quotation scope_begin scope_end assign configsAll o
  = Some
      (append_to "Release"
         (block (indent o) (Quote quotation "all")
            (default EmptyString (configsAll !! "Release")))
         (append_to "RelWithDebInfo"
            (block (indent o) (Quote quotation "all")
               (default EmptyString (configsAll !! "RelWithDebInfo")))
            (append_to "Debug"
               (block (indent o) (Quote quotation "all")
                  (default EmptyString (configsAll !! "Debug"))) o))).
Proof.
  intros Hdom. unfold WriteAliasAll. rewrite Hdom, three_configs_keys.
  cbn [for_each]. rewrite WriteAliasFB_on_impl. cbv beta iota.
  rewrite WriteAliasFB_on_impl. cbv beta iota.
  rewrite WriteAliasFB_on_impl. by rewrite !indent_append_to.
Qed.

Lemma WriteAliasOther_three configsOther o :
  dom configsOther = dom three_configs ->
  is_Some (impl_files o !! "Debug") ->
  is_Some (impl_files o !! "RelWithDebInfo") ->
  is_Some (impl_files o !! "Release") ->
  WriteAliasOther quotation scope_begin scope_end assign configsOther o
  = Some
      (append_to "Release"
         (if str_empty (default EmptyString (configsOther !! "Release"))
          then EmptyString
          else block (indent o) (Quote quotation "other")
                 (default EmptyString (configsOther !! "Release")))
         (append_to "RelWithDebInfo"
            (if str_empty
                  (default EmptyString (configsOther !! "RelWithDebInfo"))
             then EmptyString
             else block (indent o) (Quote quotation "other")
                    (default EmptyString (configsOther !! "RelWithDebInfo")))
            (append_to "Debug"
               (if str_empty (default EmptyString (configsOther !! "Debug"))
                then EmptyString
                else block (indent o) (Quote quotation "other")
                       (default EmptyString (configsOther !! "Debug")))
               o))).
Proof.
  intros Hdom HD HW HR. unfold WriteAliasOther.
  rewrite Hdom, three_configs_keys. cbn [for_each].
  rewrite (other_step "Debug") by done. cbv beta iota.
  rewrite (other_step "RelWithDebInfo") by (by apply append_to_registered).
  cbv beta iota.
  rewrite (other_step "Release") by (by do 2 apply append_to_registered).
  by rewrite !indent_append_to.
Qed.

Lemma multi_config_closed
    (g : generator) (o : output) :
  IsMultiConfig g = true -> aliases_consistent g ->
  exists o',
    WriteTargetAliasesFB quotation scope_begin scope_end assign fresh_alias
      g o
    = Some (g, o')
    /\ indent o' = indent o
    /\ common_file o' = common_file o
    /\ forall cfg,
         stream_text (ImplFileStream cfg) o'
         = if known_config cfg
           then stream_text (ImplFileStream cfg) o
                +:+ WriteSectionHeader (indent o) EmptyString
                      ("Target aliases : " +:+ cfg)
                +:+ section (indent o) (TargetAliasesFB g)
                      (of_config (TargetAliasesFB g) cfg
                         (TargetAliasesOrderedFB g))
           else stream_text (ImplFileStream cfg) o.
Proof.
  intros Hmulti [_ Hreg]. unfold WriteTargetAliasesFB.
  rewrite Hmulti. cbn [negb]. rewrite three_configs_keys.
  assert (forall n, n ∈ TargetAliasesOrderedFB g ->
                    is_Some (TargetAliasesFB g !! n)) as Hreg'
    by (intros n Hn; by apply Hreg).
  cbn [for_each].
  rewrite (multi_config_step "Debug"); [|exact Hreg'|by eexists..].
  cbv beta iota.
  rewrite (multi_config_step "RelWithDebInfo");
    [|exact Hreg'|apply map_append_registered; by eexists..].
  cbv beta iota.
  rewrite (multi_config_step "Release");
    [|exact Hreg'|do 2 apply map_append_registered; by eexists..].
  cbv beta iota. rewrite !indent_append_to.
  set (lD := of_config (TargetAliasesFB g) "Debug" (TargetAliasesOrderedFB g)).
  set (lW := of_config (TargetAliasesFB g) "RelWithDebInfo"
               (TargetAliasesOrderedFB g)).
  set (lR := of_config (TargetAliasesFB g) "Release"
               (TargetAliasesOrderedFB g)).
  rewrite WriteAliasAll_three; cycle 1.
  { rewrite !map_append_dom; try done;
      repeat apply map_append_registered; by eexists. }
  rewrite WriteAliasOther_three; cycle 1.
  { rewrite !map_append_dom; try done;
      repeat apply map_append_registered; by eexists. }
  { do 5 apply append_to_registered. apply append_to_registers. }
  { do 4 apply append_to_registered. apply append_to_registers. }
  { do 3 apply append_to_registered. apply append_to_registers. }
  rewrite !indent_append_to.
  eexists. split; [reflexivity|].
  split; [by rewrite !indent_append_to|].
  split; [by rewrite !common_file_append_to|].
  intros cfg. unfold alias_section.
  destruct (known_config cfg) eqn:Hk.
  - apply known_config_cases in Hk as [->|[->| ->]];
      repeat (rewrite stream_text_append_to_eq
              || rewrite stream_text_append_to_ne by done);
      repeat (rewrite map_append_lookup_eq
              || rewrite map_append_lookup_ne by done);
      change (default EmptyString (three_configs !! _)) with EmptyString;
      rewrite ?str_app_nil; by rewrite !str_app_assoc.
  - apply unknown_config_cases in Hk as (? & ? & ?).
    by repeat (rewrite stream_text_append_to_ne by done).
Qed.

(** X22.  In a multi-configuration build [WriteTargetAliasesFB] never fails
    and changes neither the alias table, nor the indentation, nor the
    common file.  It writes to the files of [Debug], [RelWithDebInfo]
    and [Release] only: each receives the section header and the
    aliases recorded for that configuration, with their [all] and
    [other] aliases.  The file of any other configuration stays as it
    was, and an alias recorded for another configuration is written
    nowhere. *)
Theorem WriteTargetAliasesFB_multi_config_files
    (g : generator) (o : output) :
  IsMultiConfig g = true -> aliases_consistent g ->
  exists o',
    WriteTargetAliasesFB quotation scope_begin scope_end assign fresh_alias
      g o
    = Some (g, o')
    /\ indent o' = indent o
    /\ common_file o' = common_file o
    /\ forall cfg,
         stream_text (ImplFileStream cfg) o'
         = if known_config cfg
           then stream_text (ImplFileStream cfg) o
                +:+ WriteSectionHeader (indent o) EmptyString
                      ("Target aliases : " +:+ cfg)
                +:+ section (indent o) (TargetAliasesFB g)
                      (of_config (TargetAliasesFB g) cfg
                         (TargetAliasesOrderedFB g))
           else stream_text (ImplFileStream cfg) o.
Proof. apply multi_config_closed. Qed.

Lemma multi_config_stable multi :
  alias_stable (fun g => aliases_consistent g /\ IsMultiConfig g = multi).
Proof.
  destruct aliases_consistent_stable as (H1 & H2 & H3 & H4).
  split_and!.
  - intros m g [? ?]. split; [by apply H1|done].
  - intros ev g [? ?]. split; [by apply H2|done].
  - intros msg g [? ?]. split; [by apply H3|done].
  - intros alias listDeps cfg excl g [? ?]. split; [by apply H4|].
    by destruct (AddTargetAliasFB_frame alias listDeps cfg excl g)
      as (_ & _ & _ & -> & _).
Qed.

(** X23.  The sequence of the driver, the visits, [lastChanceToTreatTargets]
    and then [WriteTargetAliasesFB], always comes to its end: every
    alias that [WriteTargetAliasesFB] looks up has its record, so that
    the look-ups add nothing to the table, and the indentation is left
    as it was. *)
Theorem pass_then_aliases
    (fresh : cmFastbuildInfoTarget)
    (visits : list (cmGeneratorTarget * string))
    (multi : bool) (dflt : string) (o : output) :
  exists g' o',
    GlobalGenerate fresh quotation visits (new_generator multi dflt)
    = Some g'
    /\ WriteTargetAliasesFB quotation scope_begin scope_end assign
         fresh_alias g' o
       = Some (g', o')
    /\ indent o' = indent o.
Proof.
  destruct (GlobalGenerate_correct fresh quotation visits
              (new_generator multi dflt) (new_generator_inv multi dflt))
    as (g1 & g' & _ & Hg' & _).
  assert (aliases_consistent g' /\ IsMultiConfig g' = multi) as [Hcons Hm].
  { apply (GlobalGenerate_keeps fresh quotation _
             (multi_config_stable multi) visits _ _ ) in Hg'; [done|].
    split; [apply new_generator_aliases_consistent|done]. }
  exists g'. destruct multi.
  - destruct (multi_config_closed g' o Hm Hcons) as (o' & Hrun & Hind & _).
    by exists o'.
  - eexists. split; [done|]. split; [by apply single_config_closed|done].
Qed.

End AliasWriterFacts.

Lemma WriteTargetAliasesFB_single_config_witness :
  exists o',
    WriteTargetAliasesFB "'" "{" "}" "=" zero_alias one_alias blank_output
    = Some (one_alias, o')
    /\ impl_files o' = ∅.
Proof.
  assert (aliases_consistent one_alias) as Hcons.
  { apply aliases_consistent_stable, new_generator_aliases_consistent. }
  eexists. split.
  - apply (WriteTargetAliasesFB_single_config "'" "{" "}" "=" zero_alias
             one_alias blank_output eq_refl Hcons).
  - reflexivity.
Defined.

Lemma WriteTargetAliasesFB_multi_config_files_witness :
  exists o',
    WriteTargetAliasesFB "'" "{" "}" "=" zero_alias two_aliases blank_output
    = Some (two_aliases, o')
    /\ stream_text (ImplFileStream "MinSizeRel") o' = EmptyString.
Proof.
  assert (aliases_consistent two_aliases) as Hcons.
  { do 2 apply aliases_consistent_stable.
    apply new_generator_aliases_consistent. }
  destruct (WriteTargetAliasesFB_multi_config_files "'" "{" "}" "="
              zero_alias two_aliases blank_output eq_refl Hcons)
    as (o' & Hrun & _ & _ & Htext).
  exists o'. split; [exact Hrun|]. rewrite (Htext "MinSizeRel"). reflexivity.
Defined.

(** ** [WriteObjectListFB] *)

Lemma WriteArray_total w os key values b e operation :
  exists text, WriteArray w os key values b e operation = Some (w, os +:+ text).
Proof.
  unfold WriteArray.
  pose proof (WritePopScope_WritePushScope w
                (WriteVariableFB w os key EmptyString operation) b e)
    as Hpop.
  destruct (WritePushScope w _ b e) as [w1 os2] eqn:Hpush.
  cbn [fst] in Hpop. rewrite Hpop.
  destruct (foldl_lines (linePrefix w1) values os2) as [text ->].
  unfold WritePushScope in Hpush. injection Hpush as _ <-.
  unfold WriteVariableFB. eexists. by rewrite !str_app_assoc.
Qed.

Lemma WriteVariableFB_appends w os key value operation :
  exists text, WriteVariableFB w os key value operation = os +:+ text.
Proof. unfold WriteVariableFB. by eexists. Qed.

Lemma WriteCommand_appends w os command value :
  exists text, WriteCommand w os command value = os +:+ text.
Proof.
  unfold WriteCommand. destruct (str_empty value); eexists;
    by rewrite !str_app_assoc.
Qed.

Lemma appends_if (b : bool) (f : string -> string) os :
  (forall os0, exists text, f os0 = os0 +:+ text) ->
  exists text, (if b then f os else os) = os +:+ text.
Proof.
  intros Hf. destruct b; [apply Hf|]. exists EmptyString.
  by rewrite str_app_nil_r.
Qed.

(** X24.  [WriteObjectListFB] never fails: the scope it opens is the scope it
    closes.  It leaves the indentation as it found it and only appends
    to the stream, whatever the list, the language and the compiler. *)
Theorem WriteObjectListFB_balanced
    (quotation assign : string) (array_begin array_end : ascii)
    (array_operation : string) (w : scope) (os : string)
    (compilerId target_name object_directory cfg language : string)
    (call : ObjectListFB) :
  exists text,
    WriteObjectListFB quotation assign array_begin array_end
      array_operation w os compilerId target_name object_directory cfg
      language call
    = Some (w, os +:+ text).
Proof.
  unfold WriteObjectListFB, WritePushScopeStruct.
  set (c := WriteObjectListFB_choice _ _ _ _ _).
  set (os0 := WriteVariableFB w os _ _ _).
  pose proof (WritePopScope_WritePushScope w os0 "[" "]") as Hpop.
  destruct (WritePushScope w os0 "[" "]") as [w1 os1] eqn:Hpush.
  cbn [fst] in Hpop.
  assert (exists t1, os1 = os +:+ t1) as [t1 ->].
  { unfold WritePushScope in Hpush. injection Hpush as _ <-.
    subst os0. unfold WriteVariableFB. eexists. by rewrite !str_app_assoc. }
  destruct (appends_if (negb (str_empty (compiler c)))
              (fun os => WriteVariableFB w1 os "Compiler"
                           (Quote quotation (compiler c)) assign)
              (os +:+ t1)) as [t2 ->];
    [intros; apply WriteVariableFB_appends|].
  destruct (appends_if (negb (str_empty (var_info_compile c)))
              (fun os => WriteCommand w1 os "Using" (var_info_compile c))
              ((os +:+ t1) +:+ t2)) as [t3 ->];
    [intros; apply WriteCommand_appends|].
  destruct (appends_if (negb (str_empty (compiler_options c)))
              (fun os => WriteVariableFB w1 os "CompilerOptions"
                           (Quote quotation (compiler_options c)) assign)
              (((os +:+ t1) +:+ t2) +:+ t3)) as [t4 ->];
    [intros; apply WriteVariableFB_appends|].
  destruct (appends_if (negb (str_empty (ol_compilerOptions call))
                        && negb (String.eqb (lang c) "RC"))
              (fun os => WriteVariableFB w1 os "CompilerOptions"
                           (Quote quotation (ol_compilerOptions call)) "+")
              ((((os +:+ t1) +:+ t2) +:+ t3) +:+ t4)) as [t5 ->];
    [intros; apply WriteVariableFB_appends|].
  destruct (WriteArray_total w1 (((((os +:+ t1) +:+ t2) +:+ t3) +:+ t4) +:+ t5)
              "CompilerInputFiles" (CompilerInputFiles call)
              array_begin array_end array_operation) as [t6 ->].
  rewrite Hpop. unfold WriteVariableFB. eexists.
  by rewrite !str_app_assoc.
Qed.

(** X25.  The compiler of an object list.  [WriteObjectListFB] either names a
    compiler or refers to the compiler settings of the target, never
    both and never neither; it names one only for sources of another
    language than the list's, and then [RC], [C] or [CXX].  Resource
    sources always go to the [RC] compiler and give [.rc.res]
    objects. *)
Theorem WriteObjectListFB_compiler_choice
    (compilerId target_name cfg language source_extension : string) :
  let c :=
    WriteObjectListFB_choice compilerId target_name cfg language
      source_extension in
  str_empty (compiler c) = negb (str_empty (var_info_compile c))
  /\ (str_empty (compiler c) = false ->
      compiler c = lang c /\ lang c <> language
      /\ lang c ∈ ["RC"; "C"; "CXX"])
  /\ (source_extension = "rc" ->
      lang c = "RC" /\ extension_out c = ".rc.res").
Proof.
  intros c. subst c. unfold WriteObjectListFB_choice.
  destruct (String.eqb_spec language "RC") as [Hrc|Hrc],
    (String.eqb_spec language "C") as [Hc|Hc],
    (String.eqb_spec language "CXX") as [Hcxx|Hcxx],
    (String.eqb_spec source_extension "rc") as [Hsrc|Hsrc],
    (String.eqb_spec source_extension "c") as [Hsc|Hsc],
    (String.eqb_spec source_extension "cpp") as [Hscpp|Hscpp];
    try congruence;
    cbn [negb andb orb lang compiler compiler_options var_info_compile
         extension_out str_empty];
    (split; [reflexivity|split]);
    try (intros Hfalse; discriminate Hfalse);
    try (intros Hext; congruence);
    try (intros _; split_and!; [reflexivity|congruence|set_solver]);
    try (intros _; split; reflexivity).
Qed.

Lemma WriteObjectListFB_compiler_choice_witness :
  extension_out (WriteObjectListFB_choice "MSVC" "app" "Release" "CXX" "rc")
  = ".rc.res".
Proof.
  destruct (WriteObjectListFB_compiler_choice "MSVC" "app" "Release" "CXX"
              "rc") as (_ & _ & Hrc).
  by destruct (Hrc eq_refl).
Defined.

(** ** [ListSubsetWithAll] *)

Lemma ListSubsetWithAll_all_rejected (all defaults : gset string) n l acc :
  "all" ∈ l -> n <> 1%nat ->
  for_each
    (fun result item =>
       if String.eqb item "all" then
         if Nat.eqb n 1 then Some defaults else None
       else if decide (item ∈ all) then Some ({[item]} ∪ result)
       else None) l acc
  = None.
Proof.
  intros Hin Hn. revert acc. induction l as [|i l IH]; intros acc.
  - by apply elem_of_nil in Hin.
  - cbn [for_each]. destruct (String.eqb i "all") eqn:Hi.
    + apply Nat.eqb_neq in Hn. by rewrite Hn.
    + apply String.eqb_neq in Hi.
      apply elem_of_cons in Hin as [Heq|Hin]; [congruence|].
      destruct (decide (i ∈ all)); [by apply IH|done].
Qed.

Lemma ListSubsetWithAll_plain (all defaults : gset string) n l acc r :
  "all" ∉ l ->
  for_each
    (fun result item =>
       if String.eqb item "all" then
         if Nat.eqb n 1 then Some defaults else None
       else if decide (item ∈ all) then Some ({[item]} ∪ result)
       else None) l acc
  = Some r
  <-> (forall i, i ∈ l -> i ∈ all) /\ r = list_to_set l ∪ acc.
Proof.
  revert acc. induction l as [|i l IH]; intros acc Hnot.
  - cbn. split.
    + intros [= <-]. split; [by intros i ?%elem_of_nil|set_solver].
    + intros [_ ->]. f_equal. set_solver.
  - cbn [for_each].
    assert (String.eqb i "all" = false) as ->.
    { apply String.eqb_neq. intros ->. apply Hnot. by left. }
    assert ("all" ∉ l) as Hnot' by (intros ?; apply Hnot; by right).
    destruct (decide (i ∈ all)) as [Hi|Hi].
    + rewrite IH by done. split.
      * intros [Hall ->]. split; [|set_solver].
        intros j [->|?]%elem_of_cons; auto.
      * intros [Hall ->]. split; [|set_solver].
        intros j ?. apply Hall. by right.
    + split; [done|]. intros [Hall _]. exfalso. apply Hi, Hall. by left.
Qed.

(** X26.  [ListSubsetWithAll] answers with a set in two cases only: for the
    single item [all], with the defaults; and for items that are all
    known and none of which is [all], with their set.  [all] among
    other items, or an unknown item, gives no answer. *)
Theorem ListSubsetWithAll_answers
    (all defaults : gset string) (items : list string) (r : gset string) :
  ListSubsetWithAll all defaults items = Some r
  <-> (items = ["all"] /\ r = defaults)
      \/ (("all" ∉ items) /\ (forall i, i ∈ items -> i ∈ all)
          /\ r = list_to_set items).
Proof.
  unfold ListSubsetWithAll.
  destruct (decide ("all" ∈ items)) as [Hin|Hnot].
  - destruct (decide (length items = 1%nat)) as [Hone|Hmany].
    + destruct items as [|i [|j l]]; try done.
      apply list_elem_of_singleton in Hin as <-. cbn. split.
      * intros [= <-]. by left.
      * intros [[_ ->]|[Hnot _]]; [done|]. exfalso. apply Hnot. by left.
    + rewrite ListSubsetWithAll_all_rejected by done. split; [done|].
      intros [[-> _]|[Hnot _]]; done.
  - rewrite ListSubsetWithAll_plain by done. split.
    + intros [Hall ->]. right. split_and!; try done. set_solver.
    + intros [[-> _]|(_ & Hall & ->)].
      * exfalso. apply Hnot. by left.
      * split; [done|set_solver].
Qed.

(** ** Visits in dependency order *)

Section InOrder.

Variable fresh : cmFastbuildInfoTarget.
Variable quotation : string.

Lemma for_each_idle {A S : Type} (body : S -> A -> option S) l s :
  (forall x, x ∈ l -> body s x = Some s) -> for_each body l s = Some s.
Proof.
  induction l as [|x l IH]; intros Hidle; cbn [for_each]; [done|].
  rewrite Hidle by (by left). apply IH. intros y Hy. apply Hidle. by right.
Qed.

Lemma foldl_no_decrement (T k : string) (deps : list string) m :
  T ∉ deps ->
  foldl (fun m name_target_dep =>
           if decide (T = name_target_dep)
           then map_set fresh decrement k m else m) m deps
  = m.
Proof.
  induction deps as [|d deps IH]; intros Hnot; cbn [foldl]; [done|].
  rewrite decide_False by (intros ->; apply Hnot; by left).
  apply IH. intros ?. apply Hnot. by right.
Qed.

Lemma TargetTreatedFinish_step_idle Gen T g k :
  (forall e, MapFastbuildInfoTargets g !! k = Some e ->
             is_treated e = true /\ target_key (gt e) (config e) = k
             /\ T ∉ name_target_deps e) ->
  TargetTreatedFinish_step fresh Gen T g k = Some g.
Proof.
  intros Hk. unfold TargetTreatedFinish_step.
  destruct (MapFastbuildInfoTargets g !! k) as [fit|] eqn:Hfit; [|done].
  destruct (Hk fit eq_refl) as (Htr & Hkey & Hnot).
  rewrite foldl_no_decrement by done.
  rewrite (map_at_registered fresh _ _ _ Hfit).
  rewrite (CanTreatTargetFB_at fresh (gt fit) (config fit) _ fit)
    by (by rewrite Hkey).
  rewrite Htr, andb_false_r. by rewrite set_ledger_same.
Qed.

Lemma need_nothing swept m k deps :
  (forall d, d ∈ deps -> d <> k -> blocks swept m d = false) ->
  need swept m k deps = 0.
Proof.
  intros Hfree. unfold need.
  assert (filter (fun d => d <> k /\ blocks swept m d = true) deps = [])
    as ->; [|done].
  induction deps as [|d deps IH]; [done|]. rewrite filter_cons.
  rewrite IH by (intros; apply Hfree; [by right|done]).
  destruct (decide (d <> k /\ blocks swept m d = true)) as [[Hne Hb]|]; [|done].
  rewrite Hfree in Hb; [done|by left|done].
Qed.

Lemma all_written_blocks seen m d :
  all_written seen m -> d ∈ seen -> blocks false m d = false.
Proof.
  intros Hall Hd. destruct (Hall d) as [Hreg Hent].
  apply Hreg in Hd as [e He]. unfold blocks. rewrite He.
  destruct (Hent e He) as (-> & _). done.
Qed.

(** The visit of a target whose dependencies are all written: the
    target is written at once and nothing else happens. *)
Lemma Generate_in_order depth seen t cfg g :
  all_written seen (MapFastbuildInfoTargets g) ->
  linkable (t, cfg) -> target_key t cfg ∉ seen ->
  (forall d, d ∈ GetNameDepsTargets t cfg -> d ∈ seen) ->
  exists g',
    Generate fresh quotation (S depth) t cfg g = Some g'
    /\ all_written (target_key t cfg :: seen) (MapFastbuildInfoTargets g')
    /\ trace g'
       = trace g ++ [EvBegin (target_key t cfg); EvWritten (target_key t cfg)].
Proof.
  intros Hall Hlang Hnew Hdeps. unfold linkable in Hlang. cbn [fst snd] in Hlang.
  cbn [Generate]. unfold Generate_body. rewrite Hlang.
  set (K := target_key t cfg) in *.
  assert (MapFastbuildInfoTargets g !! K = None) as HK.
  { destruct (Hall K) as [Hreg _].
    destruct (MapFastbuildInfoTargets g !! K) eqn:He; [|done].
    exfalso. apply Hnew, Hreg. by eexists. }
  assert (K ∉ GetNameDepsTargets t cfg) as Hself.
  { intros Hin. by apply Hnew, Hdeps. }
  unfold AddFastbuildInfoTarget. fold K. rewrite HK.
  rewrite GetNumberUntratedDepsTarget_need.
  rewrite need_nothing
    by (intros d Hd _; eapply all_written_blocks; [done|by apply Hdeps]).
  set (fbt := {| is_treated := false; config := cfg;
                 name_target_deps := GetNameDepsTargets t cfg;
                 number_untrated_deps := 0; gt := t |}).
  set (m1 := <[K := fbt]> (MapFastbuildInfoTargets g)).
  change (MapFastbuildInfoTargets (set_ledger m1 g)) with m1.
  assert (m1 !! K = Some fbt) as Hfbt by apply lookup_insert_eq.
  rewrite (CanTreatTargetFB_at fresh t cfg m1 fbt Hfbt).
  cbn [number_untrated_deps is_treated fbt negb andb].
  rewrite bool_decide_eq_true_2 by done.
  assert (set_ledger m1 (set_ledger m1 g) = set_ledger m1 g) as -> by done.
  unfold WriteTargetFB, TargetTreatedFinish. fold K.
  set (g3 := log (EvWritten K) _).
  destruct (WriteTargetBlocksFB_frame quotation t cfg
              (log (EvBegin K) (set_ledger m1 g))) as (Hm & Htr & _).
  assert (MapFastbuildInfoTargets g3 = m1) as Hm3.
  { subst g3. cbn [log MapFastbuildInfoTargets]. by rewrite Hm. }
  assert (trace g3 = trace g ++ [EvBegin K; EvWritten K]) as Htr3.
  { subst g3. cbn [log trace]. rewrite Htr. cbn [log trace set_ledger].
    by rewrite <- app_assoc. }
  rewrite Hm3, (map_set_registered fresh _ _ _ _ Hfbt).
  set (m4 := <[K := set_is_treated true fbt]> m1).
  cbn [MapFastbuildInfoTargets set_ledger].
  assert (all_written (K :: seen) m4) as Hall4.
  { intros k. subst m4 m1. rewrite insert_insert_eq.
    destruct (decide (k = K)) as [->|Hne].
    - rewrite lookup_insert_eq. split.
      + split; [intros _; by left|by eexists].
      + intros e [= <-]. cbn. split_and!; try done.
        intros d Hd. right. by apply Hdeps.
    - rewrite lookup_insert_ne by done. destruct (Hall k) as [Hreg Hent].
      split.
      + rewrite Hreg. split; [by right|].
        by intros [?|?]%elem_of_cons.
      + intros e He. destruct (Hent e He) as (? & ? & Hd).
        split_and!; try done. intros d ?. right. by apply Hd. }
  exists (set_ledger m4 g3). split; [|split; [exact Hall4|exact Htr3]].
  apply for_each_idle. intros k _. apply TargetTreatedFinish_step_idle.
  cbn [MapFastbuildInfoTargets set_ledger]. intros e He.
  destruct (Hall4 k) as [_ Hent]. destruct (Hent e He) as (Htr' & Hkey & Hd).
  split_and!; try done. intros Hin.
  destruct (decide (k = K)) as [->|Hne].
  - subst m4. rewrite lookup_insert_eq in He. injection He as <-.
    by apply Hself.
  - subst m4 m1. rewrite !lookup_insert_ne in He by done.
    destruct (Hall k) as [_ Hent0]. destruct (Hent0 e He) as (_ & _ & Hd0).
    by apply Hnew, Hd0.
Qed.

Lemma GenerateTargets_in_order seen visits g :
  all_written seen (MapFastbuildInfoTargets g) ->
  dependency_ordered seen visits ->
  exists g1 seen1,
    GenerateTargets fresh quotation visits g = Some g1
    /\ all_written seen1 (MapFastbuildInfoTargets g1)
    /\ trace g1 = trace g ++ written_in_order visits.
Proof.
  unfold GenerateTargets. revert seen g.
  induction visits as [|[t cfg] visits IH]; intros seen g Hall Hord.
  - exists g, seen. cbn. by rewrite app_nil_r.
  - destruct Hord as (Hl & Hnew & Hdeps & Hrest).
    unfold visit_key in *. cbn [fst snd] in *.
    destruct (Generate_in_order (S (size (MapFastbuildInfoTargets g)))
                seen t cfg g Hall Hl Hnew Hdeps)
      as (g2 & Hg2 & Hall2 & Htr2).
    destruct (IH _ g2 Hall2 Hrest) as (g1 & seen1 & Hg1 & Hall1 & Htr1).
    exists g1, seen1. split_and!; [|done|].
    + cbn [for_each]. unfold GenerateTarget at 1, depth_for.
      cbn [fst snd]. by rewrite Hg2.
    + rewrite Htr1, Htr2. unfold written_in_order. cbn [flat_map].
      unfold visit_key. cbn [fst snd]. by rewrite <- app_assoc.
Qed.

Lemma lastChanceToTreatTargets_idle Gen seen g :
  all_written seen (MapFastbuildInfoTargets g) ->
  lastChanceToTreatTargets fresh Gen g = Some g.
Proof.
  intros Hall. unfold lastChanceToTreatTargets.
  assert (DecrementNbDepsTargetUnexist fresh (MapFastbuildInfoTargets g)
          = MapFastbuildInfoTargets g) as ->.
  { apply map_eq. intros k. rewrite DecrementNbDepsTargetUnexist_lookup.
    destruct (MapFastbuildInfoTargets g !! k) as [e|] eqn:He; [|done].
    destruct (Hall k) as [_ Hent]. destruct (Hent e He) as (Htr & _).
    cbn. unfold swept_entry. by rewrite Htr. }
  rewrite set_ledger_same. apply for_each_idle. intros k _.
  unfold lastChanceToTreatTargets_step.
  destruct (MapFastbuildInfoTargets g !! k) as [e|] eqn:He; [|done].
  destruct (Hall k) as [_ Hent]. destruct (Hent e He) as (-> & _). done.
Qed.

(** X27.  When the driver visits the targets in dependency order, every
    target after all its dependencies, each target is written at its
    own visit: the targets are written in the order of the visits, one
    after the other, and [lastChanceToTreatTargets] finds nothing left
    to do. *)
Theorem visits_in_order_are_written_in_order
    (visits : list (cmGeneratorTarget * string))
    (multi : bool) (dflt : string) :
  dependency_ordered [] visits ->
  exists g',
    GenerateTargets fresh quotation visits (new_generator multi dflt)
    = Some g'
    /\ GlobalGenerate fresh quotation visits (new_generator multi dflt)
       = Some g'
    /\ trace g' = written_in_order visits.
Proof.
  intros Hord.
  destruct (GenerateTargets_in_order [] visits (new_generator multi dflt))
    as (g1 & seen1 & Hg1 & Hall1 & Htr1); [|done|].
  { intros k. cbn. rewrite lookup_empty. split.
    - split; [by intros [? ?]|by intros ?%elem_of_nil].
    - done. }
  exists g1. split_and!; [done| |done].
  unfold GlobalGenerate. rewrite Hg1.
  by eapply lastChanceToTreatTargets_idle.
Qed.

End InOrder.

Ltac solve_elem :=
  repeat first [apply list_elem_of_here | apply list_elem_of_further].

Ltac solve_not_elem :=
  let H := fresh "H" in
  intros H;
  repeat (apply elem_of_cons in H as [H|H]; [discriminate H|]);
  exact (proj1 (elem_of_nil _) H).

Ltac solve_incl :=
  let d := fresh "d" in
  let H := fresh "H" in
  intros d H;
  repeat (apply elem_of_cons in H as [H|H]; [rewrite H; solve_elem|]);
  exfalso; exact (proj1 (elem_of_nil _) H).

Lemma visits_in_order_are_written_in_order_witness :
  exists g',
    GlobalGenerate zero_entry apostrophe diamond_in_order
      (new_generator false "")
    = Some g'
    /\ trace g' = written_in_order diamond_in_order.
Proof.
  destruct (visits_in_order_are_written_in_order zero_entry apostrophe
              diamond_in_order false "") as (g' & _ & Hg' & Htr).
  - assert (GetNameDepsTargets dia_d "Release" = ["bRelease"; "cRelease"])
      as Hdd by (by vm_compute).
    assert (GetNameDepsTargets dia_c "Release" = ["aRelease"])
      as Hdc by (by vm_compute).
    assert (GetNameDepsTargets dia_b "Release" = ["aRelease"])
      as Hdb by (by vm_compute).
    assert (GetNameDepsTargets dia_a "Release" = [])
      as Hda by (by vm_compute).
    unfold diamond_in_order. cbn [dependency_ordered fst snd].
    rewrite Hda, Hdb, Hdc, Hdd.
    change (visit_key (dia_a, "Release")) with "aRelease".
    change (visit_key (dia_b, "Release")) with "bRelease".
    change (visit_key (dia_c, "Release")) with "cRelease".
    change (visit_key (dia_d, "Release")) with "dRelease".
    split; [reflexivity|]. split; [solve_not_elem|]. split; [solve_incl|].
    split; [reflexivity|]. split; [solve_not_elem|]. split; [solve_incl|].
    split; [reflexivity|]. split; [solve_not_elem|]. split; [solve_incl|].
    split; [reflexivity|]. split; [solve_not_elem|]. split; [solve_incl|].
    exact I.
  - exists g'. split; [exact Hg'|exact Htr].
Defined.

Lemma pass_unfinished_is_blocked_witness :
  exists g' e,
    GlobalGenerate zero_entry apostrophe cycle (new_generator false "")
    = Some g'
    /\ MapFastbuildInfoTargets g' !! "aRelease" = Some e
    /\ is_treated e = false
    /\ 0 < number_untrated_deps e.
Proof.
  destruct (pass_unfinished_is_blocked zero_entry apostrophe cycle false "")
    as (g' & Hg' & Hblocked).
  set (gx := default (new_generator false "")
               (GlobalGenerate zero_entry apostrophe cycle
                  (new_generator false ""))).
  assert (GlobalGenerate zero_entry apostrophe cycle (new_generator false "")
          = Some gx) as Hgx by (by vm_compute).
  assert (g' = gx) as -> by congruence.
  set (ex := default zero_entry (MapFastbuildInfoTargets gx !! "aRelease")).
  assert (MapFastbuildInfoTargets gx !! "aRelease" = Some ex) as Hex
    by (by vm_compute).
  assert (is_treated ex = false) as Hun by (by vm_compute).
  exists gx, ex. split; [exact Hgx|]. split; [exact Hex|].
  split; [exact Hun|]. exact (proj1 (Hblocked "aRelease" ex Hex Hun)).
Defined.
